(** * pi-acp: ACP-over-WebSocket bridge for the pi coding agent

    A shallow embedding of the parts of the TypeScript sources that the
    specification makes claims about, with the claims proved (or refuted)
    against the embedding:

    - [Js]         the fragment of the JavaScript runtime the sources rely on
                   (string methods, JSON values, the platform functions);
    - [Protocol]   the ACP error-code enumeration (protocol constants);
    - [Errors]     the ACP error class hierarchy;
    - [Prompt]     src/acp/translate/prompt.ts ([promptToPiMessage]);
    - [PiSessions] src/acp/pi-sessions.ts (the session directory);
    - [Ws]         src/server/ws.ts (the transport manager).

    Conventions.  A JavaScript string is a Rocq [string]; one character
    stands for one code unit, and file contents are taken to be 7-bit so
    that byte offsets and string indices agree.  Integral JavaScript
    numbers (counters, millisecond time values, close codes) are [Z].
    [null]/[undefined] results are [None]. *)

From stdpp Require Import base option list gmap strings.
From Stdlib Require Import ZArith String Ascii List Lia Permutation Sorted.
From Stdlib Require Import DecimalString.

Open Scope string_scope.
Open Scope Z_scope.
Open Scope list_scope.

Set Warnings "-register-all".

(* ===================================================================== *)
(** ** The JavaScript runtime fragment                                    *)
(* ===================================================================== *)

Module Js.

Definition LF : ascii := "010"%char.
Definition CR : ascii := "013"%char.

Definition is_lf (c : ascii) : bool := Ascii.eqb c LF.
Definition is_cr (c : ascii) : bool := Ascii.eqb c CR.

(** WhiteSpace and LineTerminator code units below 128, as stripped by
    [String.prototype.trim]: TAB, LF, VT, FF, CR and SPACE. *)
Definition is_ws (c : ascii) : bool :=
  let n := N_of_ascii c in
  ((9 <=? n)%N && (n <=? 13)%N) || (n =? 32)%N.

Definition isEmpty (s : string) : bool :=
  match s with
  | EmptyString => true
  | String _ _ => false
  end.

Fixpoint trimStart (s : string) : string :=
  match s with
  | EmptyString => EmptyString
  | String c r => if is_ws c then trimStart r else s
  end.

Fixpoint trimEnd (s : string) : string :=
  match s with
  | EmptyString => EmptyString
  | String c r =>
      let r' := trimEnd r in
      if is_ws c && isEmpty r' then EmptyString else String c r'
  end.

(** [s.trim()] *)
Definition trim (s : string) : string := trimEnd (trimStart s).

(** [s.slice(0, n)] for [0 <= n] *)
Fixpoint slice0 (n : nat) (s : string) : string :=
  match n, s with
  | O, _ => EmptyString
  | S _, EmptyString => EmptyString
  | S n', String c r => String c (slice0 n' r)
  end.

(** [s.slice(n)] for [0 <= n] *)
Fixpoint sliceFrom (n : nat) (s : string) : string :=
  match n, s with
  | O, _ => s
  | S _, EmptyString => EmptyString
  | S n', String _ r => sliceFrom n' r
  end.

(** The first [n] code units of [s], and [s] without them, for a
    JavaScript number [n]: [s.slice(0, n)] and [s.slice(n)]. *)
Fixpoint takeZ (n : Z) (s : string) : string :=
  match s with
  | EmptyString => EmptyString
  | String c r => if 0 <? n then String c (takeZ (n - 1) r) else EmptyString
  end.

Fixpoint dropZ (n : Z) (s : string) : string :=
  match s with
  | EmptyString => EmptyString
  | String c r => if 0 <? n then dropZ (n - 1) r else s
  end.

(** [s.indexOf('\n')]; [None] stands for -1. *)
Fixpoint indexOfLF (s : string) : option nat :=
  match s with
  | EmptyString => None
  | String c r => if is_lf c then Some O else S <$> indexOfLF r
  end.

Definition startsWithLF (s : string) : bool :=
  match s with
  | String c _ => is_lf c
  | EmptyString => false
  end.

Definition consFirst (c : ascii) (ls : list string) : list string :=
  match ls with
  | [] => [String c EmptyString]
  | x :: xs => String c x :: xs
  end.

(** [s.split(/\r?\n/)]: every LF, together with a CR directly before it,
    is a separator; the result always has at least one element. *)
Fixpoint splitLines (s : string) : list string :=
  match s with
  | EmptyString => [EmptyString]
  | String c r =>
      if is_lf c then EmptyString :: splitLines r
      else if is_cr c && startsWithLF r then splitLines r
      else consFirst c (splitLines r)
  end.

(** [String(n)] of an integral number. *)
Definition Number_toString (n : Z) : string :=
  NilZero.string_of_int (Z.to_int n).

(** *** JSON values *)

Inductive json : Type :=
| JNull
| JBool (b : bool)
| JNum (lexeme : string)
| JStr (s : string)
| JArr (items : list json)
| JObj (members : list (string * json)).

(** Own property lookup on the member list in textual order; a repeated
    key is resolved as [JSON.parse] does, the last occurrence winning. *)
Fixpoint lookupLast (k : string) (kvs : list (string * json)) : option json :=
  match kvs with
  | [] => None
  | (k', v) :: r =>
      match lookupLast k r with
      | Some x => Some x
      | None => if String.eqb k k' then Some v else None
      end
  end.

(** [v?.k] where [v] may be [undefined] ([None]).  Only used for keys that
    no primitive wrapper or array prototype defines ([type], [id], [cwd],
    [name], [timestamp], [message], [role], [content], [text], [uri],
    [mimeType], [blob]), so every non-object yields [undefined]. *)
Definition prop (v : option json) (k : string) : option json :=
  match v with
  | Some (JObj kvs) => lookupLast k kvs
  | _ => None
  end.

(** [typeof v === 'string' ? v : null] *)
Definition asString (v : option json) : option string :=
  match v with
  | Some (JStr s) => Some s
  | _ => None
  end.

(** [v === 'lit'] *)
Definition isStr (v : option json) (lit : string) : bool :=
  match v with
  | Some (JStr s) => String.eqb s lit
  | _ => false
  end.

(** The platform functions the sources call.  [None] from [JSON_parse]
    is a thrown SyntaxError; [Date_parse s] is the time value of
    [new Date(s)], with [None] for NaN. *)
Class Runtime := {
  JSON_parse : string -> option json;
  Date_parse : string -> option Z;
  Date_toISOString : Z -> string;
  Date_toISOString_nonempty : forall t, Date_toISOString t <> EmptyString;
  String_localeCompare : string -> string -> Z;
  Buffer_byteLength_base64 : string -> Z
}.

End Js.

Import Js.

(* ===================================================================== *)
(** ** Facts about lines and slices                                       *)
(* ===================================================================== *)

Module JsFacts.

(** Splitting at LF only; [splitLines] differs from it by one CR dropped
    at the end of every line but the last. *)
Fixpoint splitLF (s : string) : list string :=
  match s with
  | EmptyString => [EmptyString]
  | String c r => if is_lf c then EmptyString :: splitLF r else consFirst c (splitLF r)
  end.

Fixpoint stripCR (s : string) : string :=
  match s with
  | EmptyString => EmptyString
  | String c r => if is_cr c && isEmpty r then EmptyString else String c (stripCR r)
  end.

Fixpoint mapInit {A} (g : A -> A) (l : list A) : list A :=
  match l with
  | [] => []
  | x :: r =>
      match r with
      | [] => [x]
      | _ :: _ => g x :: mapInit g r
      end
  end.

(** [String.append] does not unfold under [simpl]; these two equations
    are its definition. *)
Lemma sapp_nil (q : string) : EmptyString +:+ q = q.
Proof. reflexivity. Qed.

Lemma sapp_cons (c : ascii) (r q : string) : String c r +:+ q = String c (r +:+ q).
Proof. reflexivity. Qed.

Ltac sapp := rewrite ?sapp_cons, ?sapp_nil.

Lemma isEmpty_true (s : string) : isEmpty s = true <-> s = EmptyString.
Proof. destruct s; simpl; split; congruence. Qed.

Lemma isEmpty_false (s : string) : isEmpty s = false <-> s <> EmptyString.
Proof. destruct s; simpl; split; congruence. Qed.

Lemma is_cr_ws (c : ascii) : is_cr c = true -> is_ws c = true.
Proof.
  unfold is_cr. intros H. apply Ascii.eqb_eq in H. subst c. reflexivity.
Qed.

Lemma is_cr_not_lf (c : ascii) : is_cr c = true -> is_lf c = false.
Proof.
  unfold is_cr. intros H. apply Ascii.eqb_eq in H. subst c. reflexivity.
Qed.

Lemma trimEnd_stripCR (s : string) : trimEnd (stripCR s) = trimEnd s.
Proof.
  induction s as [|c r IH]; simpl; [reflexivity|].
  destruct (is_cr c && isEmpty r) eqn:E.
  - apply andb_true_iff in E as [Hc Hr]. apply isEmpty_true in Hr. subst r.
    simpl. rewrite (is_cr_ws c Hc). reflexivity.
  - simpl. rewrite IH. reflexivity.
Qed.

Lemma trimStart_stripCR (s : string) : trimStart (stripCR s) = stripCR (trimStart s).
Proof.
  induction s as [|c r IH]; simpl; [reflexivity|].
  destruct (is_cr c && isEmpty r) eqn:E.
  - apply andb_true_iff in E as [Hc Hr]. apply isEmpty_true in Hr. subst r.
    simpl. rewrite (is_cr_ws c Hc). reflexivity.
  - simpl. destruct (is_ws c) eqn:W; [exact IH|].
    simpl. rewrite E. reflexivity.
Qed.

Lemma trim_stripCR (s : string) : trim (stripCR s) = trim s.
Proof. unfold trim. rewrite trimStart_stripCR. apply trimEnd_stripCR. Qed.

Lemma splitLF_nonempty (s : string) : splitLF s <> [].
Proof.
  induction s as [|c r IH]; simpl; [discriminate|].
  destruct (is_lf c); [discriminate|].
  destruct (splitLF r); simpl; discriminate.
Qed.

Lemma splitLines_nonempty (s : string) : splitLines s <> [].
Proof.
  induction s as [|c r IH]; simpl; [discriminate|].
  destruct (is_lf c); [discriminate|].
  destruct (is_cr c && startsWithLF r); [exact IH|].
  destruct (splitLines r); simpl; discriminate.
Qed.

Lemma mapInit_cons2 {A} (g : A -> A) (x y : A) (l : list A) :
  mapInit g (x :: y :: l) = g x :: mapInit g (y :: l).
Proof. reflexivity. Qed.

Lemma mapInit_nonempty {A} (g : A -> A) (l : list A) : l <> [] -> mapInit g l <> [].
Proof. destruct l as [|x [|y l]]; simpl; congruence. Qed.

(** [splitLines] is [splitLF] with the CR before each separator dropped. *)
Lemma splitLines_splitLF (s : string) :
  splitLines s = mapInit stripCR (splitLF s).
Proof.
  induction s as [|c r IH]; simpl; [reflexivity|].
  destruct (is_lf c) eqn:Hlf.
  - rewrite IH. pose proof (splitLF_nonempty r) as Hne.
    destruct (splitLF r) as [|y l]; [congruence|]. reflexivity.
  - destruct (is_cr c && startsWithLF r) eqn:E.
    + apply andb_true_iff in E as [Hc Hr].
      destruct r as [|c' r']; simpl in Hr; [discriminate|].
      rewrite IH. simpl. rewrite Hr.
      pose proof (splitLF_nonempty r') as Hne.
      destruct (splitLF r') as [|y l]; [congruence|].
      simpl. rewrite Hc. reflexivity.
    + rewrite IH. pose proof (splitLF_nonempty r) as Hne.
      destruct (splitLF r) as [|x [|y l]] eqn:EL; [congruence|reflexivity|].
      simpl consFirst. rewrite !mapInit_cons2. simpl consFirst.
      f_equal. simpl.
      destruct (is_cr c && isEmpty x) eqn:E2; [|reflexivity].
      apply andb_true_iff in E2 as [Hc Hx]. apply isEmpty_true in Hx. subst x.
      exfalso. rewrite Hc in E. simpl in E.
      destruct r as [|c' r']; simpl in EL; [discriminate|].
      simpl in E. rewrite E in EL.
      destruct (splitLF r'); simpl in EL; discriminate.
Qed.

Lemma map_trim_mapInit (l : list string) :
  map trim (mapInit stripCR l) = map trim l.
Proof.
  induction l as [|x [|y l] IH]; [reflexivity|reflexivity|].
  rewrite mapInit_cons2.
  change (trim (stripCR x) :: map trim (mapInit stripCR (y :: l))
          = trim x :: map trim (y :: l)).
  rewrite IH, trim_stripCR. reflexivity.
Qed.

Lemma map_trim_splitLines (s : string) :
  map trim (splitLines s) = map trim (splitLF s).
Proof. rewrite splitLines_splitLF. apply map_trim_mapInit. Qed.

Lemma last_cons_ne {A} (x d : A) (l : list A) :
  l <> [] -> List.last (x :: l) d = List.last l d.
Proof. destruct l; [congruence|reflexivity]. Qed.

Lemma removelast_cons_ne {A} (x : A) (l : list A) :
  l <> [] -> removelast (x :: l) = x :: removelast l.
Proof. destruct l; [congruence|reflexivity]. Qed.

Lemma last_mapInit {A} (g : A -> A) (l : list A) (d : A) :
  List.last (mapInit g l) d = List.last l d.
Proof.
  induction l as [|x [|y l] IH]; [reflexivity|reflexivity|].
  rewrite mapInit_cons2.
  rewrite last_cons_ne by (apply mapInit_nonempty; discriminate).
  rewrite IH. symmetry. apply last_cons_ne. discriminate.
Qed.

Lemma removelast_mapInit {A} (g : A -> A) (l : list A) :
  removelast (mapInit g l) = map g (removelast l).
Proof.
  induction l as [|x [|y l] IH]; [reflexivity|reflexivity|].
  rewrite mapInit_cons2.
  rewrite removelast_cons_ne by (apply mapInit_nonempty; discriminate).
  rewrite IH. rewrite (removelast_cons_ne x (y :: l)) by discriminate.
  reflexivity.
Qed.

Lemma last_splitLines (s : string) :
  List.last (splitLines s) EmptyString = List.last (splitLF s) EmptyString.
Proof. rewrite splitLines_splitLF. apply last_mapInit. Qed.

Lemma removelast_splitLines (s : string) :
  removelast (splitLines s) = map stripCR (removelast (splitLF s)).
Proof. rewrite splitLines_splitLF. apply removelast_mapInit. Qed.

(** How the lines of a concatenation arise from the lines of its parts:
    the last line of [p] and the first line of [q] are glued. *)
Lemma splitLF_app (p q : string) :
  splitLF (p +:+ q) =
  removelast (splitLF p)
    ++ (List.last (splitLF p) EmptyString +:+ hd EmptyString (splitLF q))
    :: tl (splitLF q).
Proof.
  induction p as [|c r IH]; sapp; simpl.
  - pose proof (splitLF_nonempty q). destruct (splitLF q); [congruence|reflexivity].
  - pose proof (splitLF_nonempty r) as Hne.
    destruct (is_lf c).
    + rewrite IH. destruct (splitLF r) as [|x l]; [congruence|]. reflexivity.
    + rewrite IH. destruct (splitLF r) as [|x [|y l]]; [congruence|reflexivity|].
      reflexivity.
Qed.

Fixpoint hasLF (s : string) : bool :=
  match s with
  | EmptyString => false
  | String c r => is_lf c || hasLF r
  end.

Lemma splitLF_noLF (x : string) : hasLF x = false -> splitLF x = [x].
Proof.
  induction x as [|c r IH]; simpl; [reflexivity|].
  intros H. apply orb_false_iff in H as [Hc Hr].
  rewrite Hc, (IH Hr). reflexivity.
Qed.

Lemma splitLF_lines_noLF (s : string) : Forall (fun x => hasLF x = false) (splitLF s).
Proof.
  induction s as [|c r IH]; simpl.
  - constructor; [reflexivity|constructor].
  - destruct (is_lf c) eqn:E.
    + constructor; [reflexivity|exact IH].
    + destruct (splitLF r) as [|x l]; simpl.
      * constructor; [simpl; rewrite E; reflexivity|constructor].
      * inversion IH; subst. constructor; [simpl; rewrite E; assumption|assumption].
Qed.

Lemma last_splitLF_noLF (s : string) :
  hasLF (List.last (splitLF s) EmptyString) = false.
Proof.
  pose proof (splitLF_lines_noLF s) as H.
  induction H as [|x l Hx Hl IH]; [reflexivity|].
  destruct l; [exact Hx|exact IH].
Qed.

(** Reading on from the end of [p]: the lines of [p +:+ q] are the
    complete lines of [p] followed by the lines of the unfinished last
    line of [p] continued by [q]. *)
Lemma splitLF_resume (p q : string) :
  splitLF (p +:+ q) =
  removelast (splitLF p) ++ splitLF (List.last (splitLF p) EmptyString +:+ q).
Proof.
  rewrite splitLF_app.
  rewrite (splitLF_app (List.last (splitLF p) EmptyString) q).
  rewrite (splitLF_noLF _ (last_splitLF_noLF p)). reflexivity.
Qed.

(** *** Slices *)

Lemma slice0_sliceFrom (n : nat) (s : string) : slice0 n s +:+ sliceFrom n s = s.
Proof.
  revert s. induction n as [|n IH]; intros [|c r]; simpl; sapp; try reflexivity.
  rewrite IH. reflexivity.
Qed.

Lemma slice0_all (n : nat) (s : string) : (String.length s <= n)%nat -> slice0 n s = s.
Proof.
  revert s. induction n as [|n IH]; intros [|c r]; simpl; intros H; try reflexivity.
  - lia.
  - rewrite IH; [reflexivity|lia].
Qed.

Lemma slice0_length (n : nat) (s : string) :
  String.length (slice0 n s) = Nat.min n (String.length s).
Proof.
  revert s. induction n as [|n IH]; intros [|c r]; simpl; try reflexivity.
  rewrite IH. reflexivity.
Qed.

Lemma sliceFrom_length (n : nat) (s : string) :
  String.length (sliceFrom n s) = (String.length s - n)%nat.
Proof.
  revert s. induction n as [|n IH]; intros [|c r]; simpl; try reflexivity.
  apply IH.
Qed.

Lemma sliceFrom_add (n m : nat) (s : string) :
  sliceFrom m (sliceFrom n s) = sliceFrom (n + m) s.
Proof.
  revert s. induction n as [|n IH]; intros s; simpl; [reflexivity|].
  destruct s as [|c r]; [destruct m; reflexivity|apply IH].
Qed.

Lemma slice0_app_sliceFrom (n m : nat) (s : string) :
  slice0 n s +:+ slice0 m (sliceFrom n s) = slice0 (n + m) s.
Proof.
  revert s. induction n as [|n IH]; intros s; simpl; [reflexivity|].
  destruct s as [|c r]; simpl; sapp; [destruct m; reflexivity|].
  rewrite IH. reflexivity.
Qed.

Lemma takeZ_slice0 (n : Z) (s : string) : takeZ n s = slice0 (Z.to_nat n) s.
Proof.
  revert n. induction s as [|c r IH]; intros n; simpl.
  - destruct (Z.to_nat n); reflexivity.
  - destruct (0 <? n) eqn:E.
    + apply Z.ltb_lt in E. rewrite IH.
      replace (Z.to_nat n) with (S (Z.to_nat (n - 1))) by lia. reflexivity.
    + apply Z.ltb_ge in E. replace (Z.to_nat n) with O by lia. reflexivity.
Qed.

Lemma dropZ_sliceFrom (n : Z) (s : string) : dropZ n s = sliceFrom (Z.to_nat n) s.
Proof.
  revert n. induction s as [|c r IH]; intros n; simpl.
  - destruct (Z.to_nat n); reflexivity.
  - destruct (0 <? n) eqn:E.
    + apply Z.ltb_lt in E. rewrite IH.
      replace (Z.to_nat n) with (S (Z.to_nat (n - 1))) by lia. reflexivity.
    + apply Z.ltb_ge in E. replace (Z.to_nat n) with O by lia. reflexivity.
Qed.

Lemma sapp_empty_r (s : string) : s +:+ EmptyString = s.
Proof. induction s as [|c r IH]; sapp; [reflexivity|rewrite IH; reflexivity]. Qed.

Lemma sapp_assoc (a b c : string) : a +:+ (b +:+ c) = (a +:+ b) +:+ c.
Proof. induction a as [|x r IH]; sapp; [reflexivity|rewrite IH; reflexivity]. Qed.

(** The first line, the way [readFirstLine] cuts it. *)
Lemma firstLine_splitLF (s : string) :
  match indexOfLF s with
  | None => s
  | Some idx => slice0 idx s
  end = hd EmptyString (splitLF s).
Proof.
  induction s as [|c r IH]; simpl; [reflexivity|].
  destruct (is_lf c); [reflexivity|].
  pose proof (splitLF_nonempty r) as Hne.
  destruct (indexOfLF r) as [i|]; simpl;
    (destruct (splitLF r) as [|x l]; [congruence|]); simpl in *; congruence.
Qed.

(** The two string methods on small inputs. *)
Example splitLines_mixed_breaks :
  splitLines ("ab" +:+ String CR (String LF "cd") +:+ String LF (String CR "x")
              +:+ String LF EmptyString)
  = ["ab"; "cd"; String CR "x"; EmptyString].
Proof. reflexivity. Qed.

Example trim_both_ends :
  trim (String "009" " ab c " +:+ String CR (String LF EmptyString)) = "ab c".
Proof. reflexivity. Qed.

End JsFacts.

Import JsFacts.

(* ===================================================================== *)
(** ** A reference runtime                                                *)
(* ===================================================================== *)

(** An executable instance of [Runtime], used to run the embedding on
    concrete inputs: a JSON parser for the RFC 8259 grammar (a [\u] escape
    is accepted when it denotes a code unit below 256), [Date] restricted
    to the format that [toISOString] prints, code-unit string comparison
    and Node's length formula for base64.  The general theorems below hold
    for every [Runtime], this one included. *)
Module Node.

Definition isChar (n : N) (c : ascii) : bool := (N_of_ascii c =? n)%N.

Definition isJsonWs (c : ascii) : bool :=
  isChar 32 c || isChar 9 c || isChar 10 c || isChar 13 c.

Fixpoint skipWs (s : string) : string :=
  match s with
  | EmptyString => EmptyString
  | String c r => if isJsonWs c then skipWs r else s
  end.

Definition isDigit (c : ascii) : bool :=
  let n := N_of_ascii c in (48 <=? n)%N && (n <=? 57)%N.

Definition hexVal (c : ascii) : option N :=
  let n := N_of_ascii c in
  if (48 <=? n)%N && (n <=? 57)%N then Some (n - 48)%N
  else if (65 <=? n)%N && (n <=? 70)%N then Some (n - 55)%N
  else if (97 <=? n)%N && (n <=? 102)%N then Some (n - 87)%N
  else None.

Definition escapeChar (e : ascii) : option ascii :=
  if isChar 34 e then Some e
  else if isChar 92 e then Some e
  else if isChar 47 e then Some e
  else if isChar 98 e then Some (ascii_of_N 8)
  else if isChar 102 e then Some (ascii_of_N 12)
  else if isChar 110 e then Some (ascii_of_N 10)
  else if isChar 114 e then Some (ascii_of_N 13)
  else if isChar 116 e then Some (ascii_of_N 9)
  else None.

(** The characters of a string literal after its opening quote, and what
    follows the closing quote. *)
Fixpoint parseStringBody (s : string) : option (string * string) :=
  match s with
  | EmptyString => None
  | String c r =>
      if isChar 34 c then Some (EmptyString, r)
      else if isChar 92 c then
        match r with
        | String e r1 =>
            if isChar 117 e then
              match r1 with
              | String h1 (String h2 (String h3 (String h4 r2))) =>
                  match hexVal h1, hexVal h2, hexVal h3, hexVal h4 with
                  | Some 0%N, Some 0%N, Some a, Some b =>
                      match parseStringBody r2 with
                      | Some (str, rest) =>
                          Some (String (ascii_of_N (16 * a + b)) str, rest)
                      | None => None
                      end
                  | _, _, _, _ => None
                  end
              | _ => None
              end
            else
              match escapeChar e, parseStringBody r1 with
              | Some c', Some (str, rest) => Some (String c' str, rest)
              | _, _ => None
              end
        | EmptyString => None
        end
      else if (N_of_ascii c <? 32)%N then None
      else match parseStringBody r with
           | Some (str, rest) => Some (String c str, rest)
           | None => None
           end
  end.

Fixpoint takeDigits (s : string) : string * string :=
  match s with
  | EmptyString => (EmptyString, EmptyString)
  | String c r =>
      if isDigit c then let '(d, rest) := takeDigits r in (String c d, rest)
      else (EmptyString, s)
  end.

Definition takeChar (p : ascii -> bool) (s : string) : string * string :=
  match s with
  | String c r => if p c then (String c EmptyString, r) else (EmptyString, s)
  | EmptyString => (EmptyString, s)
  end.

(** A number token: its lexeme and the rest of the input. *)
Definition parseNumber (s : string) : option (string * string) :=
  let '(sign, s1) := takeChar (isChar 45) s in
  let '(int, s2) := takeDigits s1 in
  let intOk :=
    match int with
    | EmptyString => false
    | String c EmptyString => true
    | String c _ => negb (isChar 48 c)
    end in
  if negb intOk then None
  else
    let '(dot, s3) := takeChar (isChar 46) s2 in
    let '(frac, s4) := if isEmpty dot then (EmptyString, s3) else takeDigits s3 in
    if negb (isEmpty dot) && isEmpty frac then None
    else
      let '(e, s5) :=
        takeChar (fun c => isChar 101 c || isChar 69 c) s4 in
      if isEmpty e then Some (sign +:+ int +:+ dot +:+ frac, s4)
      else
        let '(esign, s6) :=
          takeChar (fun c => isChar 43 c || isChar 45 c) s5 in
        let '(edigits, s7) := takeDigits s6 in
        if isEmpty edigits then None
        else Some (sign +:+ int +:+ dot +:+ frac +:+ e +:+ esign +:+ edigits, s7).

Fixpoint dropPrefix (p s : string) : option string :=
  match p, s with
  | EmptyString, _ => Some s
  | String a p', String b s' => if Ascii.eqb a b then dropPrefix p' s' else None
  | String _ _, EmptyString => None
  end.

Fixpoint parseValue (fuel : nat) (s : string) : option (json * string) :=
  match fuel with
  | O => None
  | S fuel' =>
      match skipWs s with
      | EmptyString => None
      | String c r as s' =>
          if isChar 123 c then
            match skipWs r with
            | String c1 r1 as s1 =>
                if isChar 125 c1 then Some (JObj [], r1)
                else match parseMembers fuel' s1 with
                     | Some (kvs, rest) => Some (JObj kvs, rest)
                     | None => None
                     end
            | EmptyString => None
            end
          else if isChar 91 c then
            match skipWs r with
            | String c1 r1 as s1 =>
                if isChar 93 c1 then Some (JArr [], r1)
                else match parseElems fuel' s1 with
                     | Some (vs, rest) => Some (JArr vs, rest)
                     | None => None
                     end
            | EmptyString => None
            end
          else if isChar 34 c then
            match parseStringBody r with
            | Some (str, rest) => Some (JStr str, rest)
            | None => None
            end
          else if isChar 116 c then
            (fun rest => (JBool true, rest)) <$> dropPrefix "true" s'
          else if isChar 102 c then
            (fun rest => (JBool false, rest)) <$> dropPrefix "false" s'
          else if isChar 110 c then
            (fun rest => (JNull, rest)) <$> dropPrefix "null" s'
          else
            match parseNumber s' with
            | Some (lex, rest) => Some (JNum lex, rest)
            | None => None
            end
      end
  end
with parseElems (fuel : nat) (s : string) : option (list json * string) :=
  match fuel with
  | O => None
  | S fuel' =>
      match parseValue fuel' s with
      | None => None
      | Some (v, r) =>
          match skipWs r with
          | String c r1 =>
              if isChar 93 c then Some ([v], r1)
              else if isChar 44 c then
                match parseElems fuel' r1 with
                | Some (vs, rest) => Some (v :: vs, rest)
                | None => None
                end
              else None
          | EmptyString => None
          end
      end
  end
with parseMembers (fuel : nat) (s : string)
  : option (list (string * json) * string) :=
  match fuel with
  | O => None
  | S fuel' =>
      match skipWs s with
      | String q r =>
          if isChar 34 q then
            match parseStringBody r with
            | None => None
            | Some (k, r1) =>
                match skipWs r1 with
                | String colon r2 =>
                    if isChar 58 colon then
                      match parseValue fuel' r2 with
                      | None => None
                      | Some (v, r3) =>
                          match skipWs r3 with
                          | String c r4 =>
                              if isChar 125 c then Some ([(k, v)], r4)
                              else if isChar 44 c then
                                match parseMembers fuel' r4 with
                                | Some (kvs, rest) => Some ((k, v) :: kvs, rest)
                                | None => None
                                end
                              else None
                          | EmptyString => None
                          end
                      end
                    else None
                | EmptyString => None
                end
            end
          else None
      | EmptyString => None
      end
  end.

Definition parse (s : string) : option json :=
  match parseValue (2 * String.length s + 2) s with
  | Some (v, rest) => if isEmpty (skipWs rest) then Some v else None
  | None => None
  end.

(** *** Dates in the [YYYY-MM-DDTHH:mm:ss.sssZ] format *)

Definition digitVal (c : ascii) : option Z :=
  if isDigit c then Some (Z.of_N (N_of_ascii c) - 48) else None.

Fixpoint digitsVal (acc : Z) (cs : list ascii) : option Z :=
  match cs with
  | [] => Some acc
  | c :: r =>
      match digitVal c with
      | Some d => digitsVal (10 * acc + d) r
      | None => None
      end
  end.

Definition isLeap (y : Z) : bool :=
  ((y mod 4 =? 0) && negb (y mod 100 =? 0)) || (y mod 400 =? 0).

Definition daysInMonth (y m : Z) : Z :=
  if m =? 2 then (if isLeap y then 29 else 28)
  else if (m =? 4) || (m =? 6) || (m =? 9) || (m =? 11) then 30
  else 31.

(** Days since 1970-01-01 of a proleptic Gregorian date. *)
Definition daysFromCivil (y m d : Z) : Z :=
  let y' := if m <=? 2 then y - 1 else y in
  let era := y' / 400 in
  let yoe := y' - era * 400 in
  let doy := (153 * (if 2 <? m then m - 3 else m + 9) + 2) / 5 + d - 1 in
  let doe := yoe * 365 + yoe / 4 - yoe / 100 + doy in
  era * 146097 + doe - 719468.

Definition civilFromDays (days : Z) : Z * Z * Z :=
  let z := days + 719468 in
  let era := z / 146097 in
  let doe := z - era * 146097 in
  let yoe := (doe - doe / 1460 + doe / 36524 - doe / 146096) / 365 in
  let y := yoe + era * 400 in
  let doy := doe - (365 * yoe + yoe / 4 - yoe / 100) in
  let mp := (5 * doy + 2) / 153 in
  let d := doy - (153 * mp + 2) / 5 + 1 in
  let m := if mp <? 10 then mp + 3 else mp - 9 in
  (if m <=? 2 then y + 1 else y, m, d).

Definition dateParse (s : string) : option Z :=
  match list_ascii_of_string s with
  | [y1; y2; y3; y4; s1; m1; m2; s2; d1; d2; t; h1; h2; s3; i1; i2; s4;
     c1; c2; s5; f1; f2; f3; z] =>
      if isChar 45 s1 && isChar 45 s2 && isChar 84 t && isChar 58 s3
         && isChar 58 s4 && isChar 46 s5 && isChar 90 z
      then
        match digitsVal 0 [y1; y2; y3; y4], digitsVal 0 [m1; m2],
              digitsVal 0 [d1; d2], digitsVal 0 [h1; h2],
              digitsVal 0 [i1; i2], digitsVal 0 [c1; c2],
              digitsVal 0 [f1; f2; f3] with
        | Some y, Some m, Some d, Some h, Some mi, Some sec, Some ms =>
            if (1 <=? m) && (m <=? 12) && (1 <=? d) && (d <=? daysInMonth y m)
               && (h <=? 23) && (mi <=? 59) && (sec <=? 59)
            then Some (daysFromCivil y m d * 86400000 + h * 3600000
                       + mi * 60000 + sec * 1000 + ms)
            else None
        | _, _, _, _, _, _, _ => None
        end
      else None
  | _ => None
  end.

Fixpoint zeros (n : nat) : string :=
  match n with
  | O => EmptyString
  | S n' => String "0"%char (zeros n')
  end.

(** [String(n).padStart(width, '0')] for [0 <= n]. *)
Definition pad (width : nat) (n : Z) : string :=
  let s := Number_toString n in
  zeros (width - String.length s) +:+ s.

Definition yearString (y : Z) : string :=
  if (0 <=? y) && (y <=? 9999) then pad 4 y
  else (if y <? 0 then "-" else "+") +:+ pad 6 (Z.abs y).

Definition toISOString (t : Z) : string :=
  let days := t / 86400000 in
  let r := t mod 86400000 in
  let '(y, m, d) := civilFromDays days in
  yearString y +:+
  String "-"%char (pad 2 m +:+ "-" +:+ pad 2 d +:+ "T" +:+ pad 2 (r / 3600000)
    +:+ ":" +:+ pad 2 (r mod 3600000 / 60000)
    +:+ ":" +:+ pad 2 (r mod 60000 / 1000)
    +:+ "." +:+ pad 3 (r mod 1000) +:+ "Z").

Lemma toISOString_nonempty (t : Z) : toISOString t <> EmptyString.
Proof.
  unfold toISOString.
  destruct (civilFromDays (t / 86400000)) as [[y m] d].
  destruct (yearString y); simpl; discriminate.
Qed.

(** Comparison by code units. *)
Definition localeCompare (a b : string) : Z :=
  match String.compare a b with
  | Lt => -1
  | Eq => 0
  | Gt => 1
  end.

(** Node's [base64ByteLength]. *)
Definition byteLengthBase64 (s : string) : Z :=
  let len := String.length s in
  let isPad (i : nat) :=
    match String.get i s with
    | Some c => isChar 61 c
    | None => false
    end in
  let bytes := if isPad (len - 1)%nat then (len - 1)%nat else len in
  let bytes :=
    if (1 <? bytes)%nat && isPad (bytes - 1)%nat then (bytes - 1)%nat else bytes in
  Z.of_nat (bytes * 3) / 4.

(** Helpers to write file contents: [dq] turns every apostrophe into a
    double quote, [joinLines] is [lines.join('\n')]. *)
Definition dq (s : string) : string :=
  string_of_list_ascii
    (map (fun c => if Ascii.eqb c "'"%char then ascii_of_N 34 else c)
         (list_ascii_of_string s)).

Definition nl : string := String LF EmptyString.

Fixpoint joinLines (l : list string) : string :=
  match l with
  | [] => EmptyString
  | x :: r =>
      match r with
      | [] => x
      | _ :: _ => x +:+ nl +:+ joinLines r
      end
  end.

Fixpoint repeatString (n : nat) (s : string) : string :=
  match n with
  | O => EmptyString
  | S k => s +:+ repeatString k s
  end.

#[export] Instance runtime : Runtime := {|
  JSON_parse := parse;
  Date_parse := dateParse;
  Date_toISOString := toISOString;
  Date_toISOString_nonempty := toISOString_nonempty;
  String_localeCompare := localeCompare;
  Buffer_byteLength_base64 := byteLengthBase64
|}.

End Node.

(* ===================================================================== *)
(** ** Protocol constants                                                 *)
(* ===================================================================== *)

Module Protocol.

Inductive ErrorCode : Type :=
| ParseError | InvalidRequest | MethodNotFound | InvalidParams
| InternalError | ServerError
| SessionNotFound | SessionAlreadyExists | SessionExpired
| NotInitialized | AlreadyInitialized | Unauthorized | ToolNotFound
| ApprovalDenied | UserInputTimeout | GenUIActionFailed.

(** The numeric value of each enum member. *)
Definition ErrorCode_value (c : ErrorCode) : Z :=
  match c with
  | ParseError => -32700
  | InvalidRequest => -32600
  | MethodNotFound => -32601
  | InvalidParams => -32602
  | InternalError => -32603
  | ServerError => -32000
  | SessionNotFound => -32001
  | SessionAlreadyExists => -32002
  | SessionExpired => -32003
  | NotInitialized => -32004
  | AlreadyInitialized => -32005
  | Unauthorized => -32006
  | ToolNotFound => -32007
  | ApprovalDenied => -32008
  | UserInputTimeout => -32009
  | GenUIActionFailed => -32010
  end.

End Protocol.

(* ===================================================================== *)
(** ** ACP error classes                                                  *)
(* ===================================================================== *)

Module Errors.

Definition JSONRPC_PARSE_ERROR : Z := -32700.
Definition JSONRPC_INVALID_REQUEST : Z := -32600.
Definition JSONRPC_METHOD_NOT_FOUND : Z := -32601.
Definition JSONRPC_INVALID_PARAMS : Z := -32602.
Definition JSONRPC_INTERNAL_ERROR : Z := -32603.
Definition JSONRPC_SERVER_ERROR_MIN : Z := -32099.
Definition JSONRPC_SERVER_ERROR_MAX : Z := -32000.

Definition ACP_AUTH_REQUIRED : Z := -32001.

(** An [ACPError] instance: the class name, the [code], the [message] and
    the optional [data]. *)
Record ACPError : Type := mkACPError {
  name : string;
  code : Z;
  message : string;
  data : option json
}.

(** [error.toJSON()]: [{code, message}] plus [data] when it is defined. *)
Definition toJSON (e : ACPError) : list (string * json) :=
  let result :=
    [("code", JNum (Number_toString (code e))); ("message", JStr (message e))] in
  match data e with
  | Some d => result ++ [("data", d)]
  | None => result
  end.

(** An [AuthRequiredError] instance: the [ACPError] part and the extra
    [authMethods] field. *)
Record AuthRequiredErrorObj : Type := mkAuthRequiredError {
  base : ACPError;
  authMethods : list json
}.

(** [new AuthRequiredError(message, authMethods)]: the super constructor
    is called with [ACP_AUTH_REQUIRED] and [{ authMethods }]. *)
Definition AuthRequiredError (message : string) (methods : list json)
  : AuthRequiredErrorObj :=
  mkAuthRequiredError
    (mkACPError "AuthRequiredError" ACP_AUTH_REQUIRED message
                (Some (JObj [("authMethods", JArr methods)])))
    methods.

(** [new AuthRequiredError()], both parameters at their defaults. *)
Definition AuthRequiredError_default : AuthRequiredErrorObj :=
  AuthRequiredError "Authentication required" [].

(** C8 (code defect).  Every [AuthRequiredError] carries the code
    -32001, which is also the value of [ErrorCode.SessionNotFound]: the
    two codes collide. *)
Theorem auth_required_collides_with_session_not_found
  (message : string) (methods : list json) :
  code (base (AuthRequiredError message methods)) = -32001
  /\ Protocol.ErrorCode_value Protocol.SessionNotFound = -32001
  /\ code (base (AuthRequiredError message methods))
     = Protocol.ErrorCode_value Protocol.SessionNotFound.
Proof. repeat split. Qed.

(** Within the enumeration itself the codes are pairwise distinct. *)
Lemma ErrorCode_value_inj (a b : Protocol.ErrorCode) :
  Protocol.ErrorCode_value a = Protocol.ErrorCode_value b -> a = b.
Proof. destruct a, b; simpl; intros H; try reflexivity; discriminate H. Qed.

End Errors.

(* ===================================================================== *)
(** ** Prompt translation (src/acp/translate/prompt.ts)                   *)
(* ===================================================================== *)

Module Prompt.

Record PiImage : Type := mkPiImage {
  img_type : string;
  img_mimeType : string;
  img_data : string
}.

(** The ACP [ContentBlock] union, by its [type] discriminant.  The
    [resource] payload is read through [any] by the source, so it is kept
    as a possibly absent JSON value; [OtherBlock] is any block whose
    [type] is none of the five named ones. *)
Inductive ContentBlock : Type :=
| TextBlock (text : string)
| ResourceLinkBlock (uri : string)
| ImageBlock (mimeType : string) (data : string)
| ResourceBlock (resource : option json)
| AudioBlock (mimeType : string) (data : string)
| OtherBlock (type : string).

Record PiMessage : Type := mkPiMessage {
  message : string;
  images : list PiImage
}.

Section WithRuntime.
Context {R : Runtime}.

(** The text appended for a [resource] block. *)
Definition resourceText (r : option json) : string :=
  let uri :=
    match asString (prop r "uri") with
    | Some u => u
    | None => "(unknown)"
    end in
  match asString (prop r "text") with
  | Some text =>
      let mime :=
        match asString (prop r "mimeType") with
        | Some m => m
        | None => "text/plain"
        end in
      String LF "[Embedded Context] " +:+ uri +:+ " (" +:+ mime +:+ ")"
        +:+ String LF text
  | None =>
      match asString (prop r "blob") with
      | Some blob =>
          let mime :=
            match asString (prop r "mimeType") with
            | Some m => m
            | None => "application/octet-stream"
            end in
          let bytes := Buffer_byteLength_base64 blob in
          String LF "[Embedded Context] " +:+ uri +:+ " (" +:+ mime +:+ ", "
            +:+ Number_toString bytes +:+ " bytes)"
      | None => String LF "[Embedded Context] " +:+ uri
      end
  end.

(** The text appended for an [audio] block. *)
Definition audioText (mimeType data : string) : string :=
  let bytes := Buffer_byteLength_base64 data in
  String LF "[Audio] (" +:+ mimeType +:+ ", " +:+ Number_toString bytes
    +:+ " bytes) not supported by pi-acp".

(** One iteration of the [for (const b of blocks)] loop: the [switch] on
    [b.type], acting on the two accumulators. *)
Definition step (acc : PiMessage) (b : ContentBlock) : PiMessage :=
  match b with
  | TextBlock text => mkPiMessage (message acc +:+ text) (images acc)
  | ResourceLinkBlock uri =>
      mkPiMessage (message acc +:+ (String LF "[Context] " +:+ uri)) (images acc)
  | ImageBlock mimeType data =>
      mkPiMessage (message acc) (images acc ++ [mkPiImage "image" mimeType data])
  | ResourceBlock r => mkPiMessage (message acc +:+ resourceText r) (images acc)
  | AudioBlock mimeType data =>
      mkPiMessage (message acc +:+ audioText mimeType data) (images acc)
  | OtherBlock _ => acc
  end.

Definition promptToPiMessage (blocks : list ContentBlock) : PiMessage :=
  fold_left step blocks (mkPiMessage EmptyString []).

(** What one block contributes to the message text, in the words of the
    specification. *)
Definition textContribution (b : ContentBlock) : string :=
  match b with
  | TextBlock text => text
  | ResourceLinkBlock uri => String LF "[Context] " +:+ uri
  | ImageBlock _ _ => EmptyString
  | ResourceBlock r => resourceText r
  | AudioBlock mimeType data => audioText mimeType data
  | OtherBlock _ => EmptyString
  end.

(** What one block contributes to the image list. *)
Definition imageContribution (b : ContentBlock) : list PiImage :=
  match b with
  | ImageBlock mimeType data => [mkPiImage "image" mimeType data]
  | _ => []
  end.

Fixpoint concatStrings (l : list string) : string :=
  match l with
  | [] => EmptyString
  | x :: r => x +:+ concatStrings r
  end.

(** The loop, started from any accumulator, appends the contributions of
    the blocks in order. *)
Lemma fold_step_contributions (blocks : list ContentBlock) (acc : PiMessage) :
  fold_left step blocks acc
  = mkPiMessage (message acc +:+ concatStrings (map textContribution blocks))
                (images acc ++ flat_map imageContribution blocks).
Proof.
  revert acc. induction blocks as [|b blocks IH]; intros [m imgs].
  - simpl. rewrite sapp_empty_r, app_nil_r. reflexivity.
  - cbn [fold_left map flat_map concatStrings]. rewrite IH.
    destruct b; cbn [step message images textContribution imageContribution];
      rewrite ?sapp_nil, ?sapp_assoc, ?app_nil_l, <- ?app_assoc; reflexivity.
Qed.

(** Translating a concatenation of block lists concatenates the
    translations. *)
Lemma promptToPiMessage_app (a b : list ContentBlock) :
  promptToPiMessage (a ++ b)
  = mkPiMessage (message (promptToPiMessage a) +:+ message (promptToPiMessage b))
                (images (promptToPiMessage a) ++ images (promptToPiMessage b)).
Proof.
  unfold promptToPiMessage. rewrite !fold_step_contributions.
  cbn [message images]. rewrite !sapp_nil, !app_nil_l.
  rewrite map_app, flat_map_app. f_equal.
  induction (map textContribution a) as [|x l IH]; [reflexivity|].
  cbn [app concatStrings]. rewrite IH. apply sapp_assoc.
Qed.

(** C7.  The result of [promptToPiMessage] is determined by the block
    list: the message is the concatenation, in input order, of what each
    block contributes, and the image list is the images of the [image]
    blocks in input order.  A [text] block contributes its text, a
    [resource_link] block exactly the marker [LF "[Context] " uri], an
    [image] block nothing to the text and one image (mime type and data
    as given) to the list, and a block of an unrecognized kind nothing to
    either. *)
Theorem promptToPiMessage_contributions (blocks : list ContentBlock) :
  message (promptToPiMessage blocks) = concatStrings (map textContribution blocks)
  /\ images (promptToPiMessage blocks) = flat_map imageContribution blocks
  /\ (forall text, textContribution (TextBlock text) = text
                   /\ imageContribution (TextBlock text) = [])
  /\ (forall uri,
        textContribution (ResourceLinkBlock uri) = String LF "[Context] " +:+ uri
        /\ imageContribution (ResourceLinkBlock uri) = [])
  /\ (forall mimeType data,
        textContribution (ImageBlock mimeType data) = EmptyString
        /\ imageContribution (ImageBlock mimeType data)
           = [mkPiImage "image" mimeType data])
  /\ (forall kind,
        textContribution (OtherBlock kind) = EmptyString
        /\ imageContribution (OtherBlock kind) = []).
Proof.
  unfold promptToPiMessage. rewrite fold_step_contributions.
  cbn [message images]. rewrite sapp_nil, app_nil_l.
  repeat split; reflexivity.
Qed.

End WithRuntime.

(** The unit tests of the translation, on the reference runtime. *)
Example promptToPiMessage_text_and_links :
  promptToPiMessage (R := Node.runtime)
    [TextBlock "Hello"; ResourceLinkBlock "file:///tmp/foo.txt"; TextBlock " world"]
  = mkPiMessage ("Hello" +:+ String LF "[Context] file:///tmp/foo.txt world") [].
Proof. vm_compute. reflexivity. Qed.

Example promptToPiMessage_image :
  promptToPiMessage (R := Node.runtime)
    [TextBlock "see"; ImageBlock "image/png" "YWJj"]
  = mkPiMessage "see" [mkPiImage "image" "image/png" "YWJj"].
Proof. vm_compute. reflexivity. Qed.

Example promptToPiMessage_blob :
  promptToPiMessage (R := Node.runtime)
    [ResourceBlock (Some (JObj [("uri", JStr "file:///tmp/a.bin");
                                ("mimeType", JStr "application/octet-stream");
                                ("blob", JStr "eHl6")]))]
  = mkPiMessage
      (String LF "[Embedded Context] file:///tmp/a.bin (application/octet-stream, 3 bytes)")
      [].
Proof. vm_compute. reflexivity. Qed.

Example promptToPiMessage_audio :
  promptToPiMessage (R := Node.runtime) [AudioBlock "audio/wav" "YWJj"]
  = mkPiMessage (String LF "[Audio] (audio/wav, 3 bytes) not supported by pi-acp") [].
Proof. vm_compute. reflexivity. Qed.

End Prompt.

(* ===================================================================== *)
(** ** The session directory (src/acp/pi-sessions.ts)                     *)
(* ===================================================================== *)

Module PiSessions.

Record PiSessionListItem : Type := mkItem {
  sessionId : string;
  cwd : string;
  title : option string;
  updatedAt : option string;
  sessionFile : string
}.

Definition DEFAULT_TAIL_BYTES : Z := 256 * 1024.
Definition DEFAULT_HEAD_BYTES : Z := 64 * 1024.

(** *** The file system, as far as the listing reads it *)

Record Stats : Type := mkStats { mtime : Z }.

(** A [.jsonl] file found by [walkJsonlFiles]: its path, its contents and
    what [statSync] returns ([None]: it throws).  The reported size is the
    length of the contents.  Opening and reading a walked file succeed. *)
Record File : Type := mkFile {
  path : string;
  data : string;
  stat : option Stats
}.

Definition size (f : File) : Z := Z.of_nat (String.length (data f)).

(** [readSync(fd, buf, 0, len, pos)] followed by
    [buf.subarray(0, n).toString('utf-8')]: the bytes actually read, at
    most [len] of them, starting at offset [pos]. *)
Definition readSync (f : File) (len pos : Z) : string :=
  takeZ len (dropZ pos (data f)).

(** A JavaScript falsy test on [string | null]. *)
Definition falsy (o : option string) : bool :=
  match o with
  | Some s => isEmpty s
  | None => true
  end.

Definition readFirstLine (f : File) : option string :=
  let s := readSync f DEFAULT_HEAD_BYTES 0 in
  let n := Z.of_nat (String.length s) in
  if n <=? 0 then None
  else match indexOfLF s with
       | None => Some (trim s)
       | Some idx => Some (trim (slice0 idx s))
       end.

(** [readTail(path, tailBytes)]; [None] when [statSync] throws. *)
Definition readTailOf (f : File) (tailBytes : Z) : option string :=
  match stat f with
  | None => None
  | Some _ =>
      let start := Z.max 0 (size f - tailBytes) in
      let len := size f - start in
      Some (readSync f len start)
  end.

Definition readTail (f : File) : option string :=
  readTailOf f DEFAULT_TAIL_BYTES.

Section WithRuntime.
Context {R : Runtime}.

Definition parseSessionHeader (firstLine : string) : option (string * string) :=
  match JSON_parse firstLine with
  | None => None
  | Some obj =>
      if negb (isStr (prop (Some obj) "type") "session") then None
      else
        let sessionId := asString (prop (Some obj) "id") in
        let cwd := asString (prop (Some obj) "cwd") in
        if falsy sessionId || falsy cwd then None
        else match sessionId, cwd with
             | Some i, Some c => Some (i, c)
             | _, _ => None
             end
  end.

(** The test that [pickTitleFromTail] and [scanSessionInfoNameFromFile]
    apply to a trimmed, non-empty line (the same [try] block occurs three
    times in the source): the trimmed name of a [session_info] record. *)
Definition sessionInfoName (line : string) : option string :=
  match JSON_parse line with
  | None => None
  | Some obj =>
      if isStr (prop (Some obj) "type") "session_info" then
        match asString (prop (Some obj) "name") with
        | Some name => if isEmpty (trim name) then None else Some (trim name)
        | None => None
        end
      else None
  end.

(** [for (let i = lines.length - 1; i >= 0; i--)] with a body that skips
    blank lines and returns from the first line on which [body] yields a
    value; [k] is [i + 1]. *)
Fixpoint scanBackward (body : string -> option string) (lines : list string)
  (k : nat) : option string :=
  match k with
  | O => None
  | S i =>
      let line := trim (nth i lines EmptyString) in
      if isEmpty line then scanBackward body lines i
      else match body line with
           | Some r => Some r
           | None => scanBackward body lines i
           end
  end.

Definition pickTitleFromTail (tail : string) : option string :=
  let lines := splitLines tail in
  scanBackward sessionInfoName lines (length lines).

(** *** scanSessionInfoNameFromFile *)

(** The body of [for (const line0 of lines)]. *)
Definition rememberName (lastName : option string) (line0 : string)
  : option string :=
  let line := trim line0 in
  if isEmpty line then lastName
  else match sessionInfoName line with
       | Some n => Some n
       | None => lastName
       end.

(** The [while (true)] loop over chunks of [bufLen] bytes.  The state is
    [(offset, leftover, lastName)]; the result is [(leftover, lastName)]
    at the [break], or [None] when [fuel] iterations were not enough. *)
Fixpoint scanLoop (f : File) (bufLen : Z) (fuel : nat) (offset : Z)
  (leftover : string) (lastName : option string)
  : option (string * option string) :=
  match fuel with
  | O => None
  | S fuel' =>
      let read := readSync f bufLen offset in
      let n := Z.of_nat (String.length read) in
      if n <=? 0 then Some (leftover, lastName)
      else
        let offset' := offset + n in
        let chunk := leftover +:+ read in
        let lines := splitLines chunk in
        let leftover' := List.last lines EmptyString in
        let lines' := removelast lines in
        scanLoop f bufLen fuel' offset' leftover'
                 (fold_left rememberName lines' lastName)
  end.

Definition scanWith (f : File) (bufLen : Z) : option string :=
  match scanLoop f bufLen (S (String.length (data f))) 0 EmptyString None with
  | None => None
  | Some (leftover, lastName) => rememberName lastName leftover
  end.

Definition scanSessionInfoNameFromFile (f : File) : option string :=
  scanWith f (256 * 1024).

(** *** pickUpdatedAtFromTail *)

(** [new Date(ts)] and, when the time value is finite, [toISOString()]. *)
Definition isoOf (ts : option string) : option string :=
  match ts with
  | None => None
  | Some s =>
      if isEmpty s then None
      else match Date_parse s with
           | Some t => Some (Date_toISOString t)
           | None => None
           end
  end.

(** Body of the first loop: only [message] records count. *)
Definition messageStamp (line : string) : option string :=
  match JSON_parse line with
  | None => None
  | Some obj =>
      if negb (isStr (prop (Some obj) "type") "message") then None
      else isoOf (asString (prop (Some obj) "timestamp"))
  end.

(** Body of the second loop: any record with a timestamp. *)
Definition anyStamp (line : string) : option string :=
  match JSON_parse line with
  | None => None
  | Some obj => isoOf (asString (prop (Some obj) "timestamp"))
  end.

Definition pickUpdatedAtFromTail (tail : string) : option string :=
  let lines := splitLines tail in
  match scanBackward messageStamp lines (length lines) with
  | Some r => Some r
  | None => scanBackward anyStamp lines (length lines)
  end.

(** *** pickFallbackTitleFromHead *)

(** [content.find(c => c?.type === 'text' && typeof c?.text === 'string')] *)
Fixpoint findTextPart (content : list json) : option json :=
  match content with
  | [] => None
  | c :: rest =>
      if isStr (prop (Some c) "type") "text"
         && bool_decide (is_Some (asString (prop (Some c) "text")))
      then Some c
      else findTextPart rest
  end.

(** The [try] block of the loop: the title a line yields, if any. *)
Definition userMessageTitle (line : string) : option string :=
  match JSON_parse line with
  | None => None
  | Some obj =>
      let msg := prop (Some obj) "message" in
      if isStr (prop (Some obj) "type") "message" && isStr (prop msg "role") "user"
      then
        match prop msg "content" with
        | Some (JStr content) => Some (slice0 80 content)
        | Some (JArr content) =>
            match asString (prop (findTextPart content) "text") with
            | Some text => if isEmpty text then None else Some (slice0 80 text)
            | None => None
            end
        | _ => None
        end
      else None
  end.

(** [for (const line0 of lines)]; [total] is [lines.length] of the whole
    array, which the [break] test reads. *)
Fixpoint fallbackLoop (total : nat) (lines : list string) : option string :=
  match lines with
  | [] => None
  | line0 :: rest =>
      let line := trim line0 in
      if isEmpty line then fallbackLoop total rest
      else match userMessageTitle line with
           | Some t => Some t
           | None =>
               if (2000 <? Z.of_nat total) then None
               else fallbackLoop total rest
           end
  end.

Definition pickFallbackTitleFromHead (f : File) : option string :=
  let raw := data f in
  let lines := splitLines raw in
  fallbackLoop (length lines) lines.

(** *** listPiSessions *)

(** The body of [for (const file of files)]: the item pushed for [file],
    or [None] when the iteration ends in [continue]. *)
Definition sessionItem (file : File) : option PiSessionListItem :=
  match readFirstLine file with
  | None => None
  | Some first =>
      if isEmpty first then None
      else match parseSessionHeader first with
           | None => None
           | Some (sid, dir) =>
               let '(title0, updatedAt0) :=
                 match readTail file with
                 | Some tail => (pickTitleFromTail tail, pickUpdatedAtFromTail tail)
                 | None => (None, None)
                 end in
               let title1 :=
                 if falsy title0 then scanSessionInfoNameFromFile file
                 else title0 in
               let updatedAt1 :=
                 if falsy updatedAt0 then
                   match stat file with
                   | Some st => Some (Date_toISOString (mtime st))
                   | None => None
                   end
                 else updatedAt0 in
               let title2 :=
                 if falsy title1 then pickFallbackTitleFromHead file
                 else title1 in
               Some (mkItem sid dir title2 updatedAt1 (path file))
           end
  end.

(** The comparator passed to [items.sort]. *)
Definition compareItems (a b : PiSessionListItem) : Z :=
  let aa := default EmptyString (updatedAt a) in
  let bb := default EmptyString (updatedAt b) in
  String_localeCompare bb aa.

(** [Array.prototype.sort] is stable; it is modelled by insertion from the
    left, an element going after every element that does not compare
    greater than it. *)
Fixpoint insertItem (x : PiSessionListItem) (l : list PiSessionListItem)
  : list PiSessionListItem :=
  match l with
  | [] => [x]
  | y :: r => if compareItems y x <=? 0 then y :: insertItem x r else x :: y :: r
  end.

Definition sortItems (items : list PiSessionListItem) : list PiSessionListItem :=
  fold_left (fun acc x => insertItem x acc) items [].

(** [listPiSessions()], given the files that [walkJsonlFiles] collected. *)
Definition listPiSessions (files : list File) : list PiSessionListItem :=
  sortItems (omap sessionItem files).

(** [findPiSessionFile(sessionId)] *)
Definition findPiSessionFile (files : list File) (sid : string) : option string :=
  sessionFile <$> List.find (fun s => String.eqb (sessionId s) sid) (listPiSessions files).

End WithRuntime.

(** *** Notions the statements below are written in *)

Section Facts.
Context {R : Runtime}.

(** What the loop body [body] makes of a raw line: nothing for a blank
    line, else [body] of the trimmed line. *)
Definition lineValue (body : string -> option string) (line0 : string)
  : option string :=
  let line := trim line0 in
  if isEmpty line then None else body line.

(** The value of the last line, in list order, on which [body] yields
    one. *)
Definition lastValue (body : string -> option string) (lines : list string)
  : option string :=
  fold_left
    (fun acc line0 =>
       match lineValue body line0 with
       | Some r => Some r
       | None => acc
       end)
    lines None.

(** The record a raw line holds, if it parses. *)
Definition recordOf (line0 : string) : option json :=
  let line := trim line0 in
  if isEmpty line then None else JSON_parse line.

(** The time value of a record's [timestamp], if it has a parseable one. *)
Definition timestampOf (obj : json) : option Z :=
  match asString (prop (Some obj) "timestamp") with
  | Some s => if isEmpty s then None else Date_parse s
  | None => None
  end.

Definition isMessage (obj : json) : bool :=
  isStr (prop (Some obj) "type") "message".

(** A line holds a [message] record with a parseable timestamp [t]. *)
Definition messageAt (line0 : string) (t : Z) : Prop :=
  exists obj, recordOf line0 = Some obj /\ isMessage obj = true
              /\ timestampOf obj = Some t.

(** A line holds a record of any type with a parseable timestamp [t]. *)
Definition stampedAt (line0 : string) (t : Z) : Prop :=
  exists obj, recordOf line0 = Some obj /\ timestampOf obj = Some t.

(** A line holds a [session_info] record whose [name] is the string
    [name]. *)
Definition sessionInfoAt (line0 : string) (name : string) : Prop :=
  exists obj, recordOf line0 = Some obj
              /\ prop (Some obj) "type" = Some (JStr "session_info")
              /\ prop (Some obj) "name" = Some (JStr name).

(** The first line of the 64KB head window, trimmed. *)
Definition firstLine (f : File) : string :=
  trim (hd EmptyString (splitLines (readSync f DEFAULT_HEAD_BYTES 0))).

(** The first line of a file is a [{type:"session"}] header. *)
Definition hasSessionHeader (f : File) : Prop :=
  exists obj, JSON_parse (firstLine f) = Some obj
              /\ prop (Some obj) "type" = Some (JStr "session").

(** Where the tail window starts, and the text between the last line
    break before the window and that start (empty when the window starts
    on a line boundary). *)
Definition tailStart (f : File) : Z := Z.max 0 (size f - DEFAULT_TAIL_BYTES).

(** The tail window of a file, as a part of its contents: the last
    [DEFAULT_TAIL_BYTES] characters of [data f], or all of a shorter
    file. *)
Definition tailWindow (f : File) : string := dropZ (tailStart f) (data f).



(** *** Helper lemmas: loops as folds *)

Lemma isStr_true (v : option json) (lit : string) :
  isStr v lit = true <-> v = Some (JStr lit).
Proof.
  unfold isStr. destruct v as [[]|]; try (split; [discriminate|congruence]).
  rewrite String.eqb_eq. split; congruence.
Qed.

Lemma rememberName_lineValue (acc : option string) (line0 : string) :
  rememberName acc line0 =
  match lineValue sessionInfoName line0 with
  | Some r => Some r
  | None => acc
  end.
Proof.
  unfold rememberName, lineValue. destruct (isEmpty (trim line0)); reflexivity.
Qed.

Lemma fold_rememberName (lines : list string) (acc : option string) :
  fold_left rememberName lines acc =
  fold_left (fun acc line0 =>
               match lineValue sessionInfoName line0 with
               | Some r => Some r
               | None => acc
               end) lines acc.
Proof.
  revert acc. induction lines as [|x l IH]; intros acc; simpl; [reflexivity|].
  rewrite rememberName_lineValue. apply IH.
Qed.

Section Folds.
Variable body : string -> option string.

Let stepv := fun (acc : option string) (line0 : string) =>
  match lineValue body line0 with
  | Some r => Some r
  | None => acc
  end.

Lemma fold_acc (lines : list string) (acc : option string) :
  fold_left stepv lines acc =
  match fold_left stepv lines None with
  | Some r => Some r
  | None => acc
  end.
Proof.
  revert acc. induction lines as [|x l IH]; intros acc; simpl; [reflexivity|].
  rewrite IH. rewrite (IH (stepv None x)).
  destruct (fold_left stepv l None); [reflexivity|].
  unfold stepv. destruct (lineValue body x); reflexivity.
Qed.

Lemma lastValue_app (l1 l2 : list string) :
  lastValue body (l1 ++ l2) =
  match lastValue body l2 with
  | Some r => Some r
  | None => lastValue body l1
  end.
Proof.
  unfold lastValue. rewrite fold_left_app. apply (fold_acc l2).
Qed.

Lemma lastValue_cons (x : string) (l : list string) :
  lastValue body (x :: l) =
  match lastValue body l with
  | Some r => Some r
  | None => lineValue body x
  end.
Proof.
  change (x :: l) with ([x] ++ l). rewrite lastValue_app.
  destruct (lastValue body l); [reflexivity|].
  unfold lastValue. simpl. destruct (lineValue body x); reflexivity.
Qed.

Lemma lastValue_none (l : list string) :
  (forall x, In x l -> lineValue body x = None) -> lastValue body l = None.
Proof.
  induction l as [|x l IH]; intros H; [reflexivity|].
  rewrite lastValue_cons, IH, H; [reflexivity|left; reflexivity|].
  intros y Hy. apply H. right. exact Hy.
Qed.

Lemma lastValue_found (pre post : list string) (x r : string) :
  lineValue body x = Some r ->
  (forall y, In y post -> lineValue body y = None) ->
  lastValue body (pre ++ x :: post) = Some r.
Proof.
  intros Hx Hpost.
  rewrite lastValue_app, lastValue_cons, (lastValue_none post Hpost), Hx.
  reflexivity.
Qed.

(** Conversely, a value comes from some last line. *)
Lemma lastValue_inv (l : list string) (r : string) :
  lastValue body l = Some r ->
  exists pre x post, l = pre ++ x :: post /\ lineValue body x = Some r
                     /\ (forall y, In y post -> lineValue body y = None).
Proof.
  induction l as [|x l IH]; intros H; [discriminate|].
  rewrite lastValue_cons in H.
  destruct (lastValue body l) as [r'|] eqn:E.
  - destruct (IH H) as (pre & y & post & -> & Hy & Hpost).
    exists (x :: pre), y, post. split; [reflexivity|]. split; assumption.
  - exists [], x, l. split; [reflexivity|]. split; [exact H|].
    clear IH H. induction l as [|z l IHl]; intros y Hy; [destruct Hy|].
    rewrite lastValue_cons in E.
    destruct (lastValue body l) eqn:E2; [discriminate|].
    destruct Hy as [<-|Hy]; [exact E|]. apply IHl; [reflexivity|exact Hy].
Qed.

Lemma lineValue_stripCR (x : string) : lineValue body (stripCR x) = lineValue body x.
Proof. unfold lineValue. rewrite trim_stripCR. reflexivity. Qed.

(** [lastValue] only looks at trimmed lines. *)
Lemma lastValue_trim_ext (l1 l2 : list string) :
  map trim l1 = map trim l2 -> lastValue body l1 = lastValue body l2.
Proof.
  revert l2. induction l1 as [|x l1 IH]; intros [|y l2] H; simpl in H;
    try discriminate; [reflexivity|].
  injection H as Hx Hl. rewrite !lastValue_cons, (IH l2 Hl).
  unfold lineValue. rewrite Hx. reflexivity.
Qed.

Lemma lastValue_splitLines (s : string) :
  lastValue body (splitLines s) = lastValue body (splitLF s).
Proof. apply lastValue_trim_ext, map_trim_splitLines. Qed.

Lemma scanBackward_prefix (l l' : list string) (k : nat) :
  (k <= length l)%nat ->
  scanBackward body (l ++ l') k = scanBackward body l k.
Proof.
  induction k as [|i IH]; intros Hk; simpl; [reflexivity|].
  rewrite app_nth1 by lia. rewrite IH by lia. reflexivity.
Qed.

(** The backward loop returns the value of the last line that has one. *)
Lemma scanBackward_lastValue (l : list string) :
  scanBackward body l (length l) = lastValue body l.
Proof.
  induction l as [|x l IH] using rev_ind; [reflexivity|].
  rewrite length_app, Nat.add_comm. simpl.
  rewrite app_nth2 by lia. rewrite Nat.sub_diag. simpl.
  rewrite scanBackward_prefix by lia. rewrite IH.
  rewrite lastValue_app, lastValue_cons. simpl.
  unfold lineValue. destruct (isEmpty (trim x)); [reflexivity|].
  destruct (body (trim x)); reflexivity.
Qed.

End Folds.

(** *** The chunked scan reads the file line by line *)

Lemma sapp_length (a b : string) :
  String.length (a +:+ b) = (String.length a + String.length b)%nat.
Proof. induction a as [|c r IH]; sapp; simpl; [reflexivity|rewrite IH; reflexivity]. Qed.

Lemma sliceFrom_app_length (p q : string) : sliceFrom (String.length p) (p +:+ q) = q.
Proof. induction p as [|c r IH]; sapp; simpl; [reflexivity|exact IH]. Qed.

Lemma slice0_app_length (p q : string) : slice0 (String.length p) (p +:+ q) = p.
Proof.
  induction p as [|c r IH]; sapp; simpl; [destruct q; reflexivity|rewrite IH; reflexivity].
Qed.

Lemma fold_rememberName_stripCR (l : list string) (acc : option string) :
  fold_left rememberName (map stripCR l) acc = fold_left rememberName l acc.
Proof.
  revert acc. induction l as [|x l IH]; intros acc; simpl; [reflexivity|].
  rewrite IH. f_equal. unfold rememberName. rewrite trim_stripCR. reflexivity.
Qed.

Lemma removelast_app_ne {A} (l1 l2 : list A) :
  l2 <> [] -> removelast (l1 ++ l2) = l1 ++ removelast l2.
Proof. intros H. apply removelast_app. exact H. Qed.

Lemma last_app_ne {A} (l1 l2 : list A) (d : A) :
  l2 <> [] -> List.last (l1 ++ l2) d = List.last l2 d.
Proof.
  intros H. induction l1 as [|x l1 IH]; [reflexivity|].
  simpl app. rewrite last_cons_ne; [exact IH|].
  destruct l1; simpl; [exact H|discriminate].
Qed.

(** Loop invariant: with the bytes [p] consumed, [leftover] is the
    unfinished last line of [p] and [lastName] the name remembered over
    the complete lines of [p]. *)
Lemma scanLoop_invariant (f : File) (bufLen : Z) (fuel : nat) (p rest : string) :
  0 < bufLen ->
  data f = p +:+ rest ->
  (String.length rest < fuel)%nat ->
  scanLoop f bufLen fuel (Z.of_nat (String.length p))
           (List.last (splitLF p) EmptyString)
           (fold_left rememberName (removelast (splitLF p)) None)
  = Some (List.last (splitLF (data f)) EmptyString,
          fold_left rememberName (removelast (splitLF (data f))) None).
Proof.
  intros Hbuf. revert p rest.
  induction fuel as [|fuel IH]; intros p rest Hdata Hfuel; [lia|].
  simpl scanLoop.
  assert (Hread : readSync f bufLen (Z.of_nat (String.length p))
                  = slice0 (Z.to_nat bufLen) rest).
  { unfold readSync. rewrite takeZ_slice0, dropZ_sliceFrom.
    rewrite Nat2Z.id, Hdata, sliceFrom_app_length. reflexivity. }
  rewrite Hread.
  destruct rest as [|c rest'].
  - (* end of file *)
    rewrite sapp_empty_r in Hdata. subst p.
    destruct (Z.to_nat bufLen); reflexivity.
  - set (read := slice0 (Z.to_nat bufLen) (String c rest')).
    assert (Hlen : (1 <= String.length read)%nat).
    { unfold read. rewrite slice0_length. simpl String.length. lia. }
    destruct (Z.of_nat (String.length read) <=? 0) eqn:E; [apply Z.leb_le in E; lia|].
    set (rest2 := sliceFrom (Z.to_nat bufLen) (String c rest')).
    assert (Hsplit : String c rest' = read +:+ rest2)
      by (symmetry; apply slice0_sliceFrom).
    assert (Hp : splitLF (p +:+ read)
                 = removelast (splitLF p)
                   ++ splitLF (List.last (splitLF p) EmptyString +:+ read))
      by apply splitLF_resume.
    pose proof (splitLF_nonempty (List.last (splitLF p) EmptyString +:+ read)) as Hne.
    specialize (IH (p +:+ read) rest2).
    rewrite sapp_length, Nat2Z.inj_add in IH.
    rewrite Hp, (last_app_ne _ _ _ Hne), (removelast_app_ne _ _ Hne) in IH.
    rewrite fold_left_app in IH.
    rewrite last_splitLines, removelast_splitLines, fold_rememberName_stripCR.
    apply IH.
    + rewrite Hdata, Hsplit. apply sapp_assoc.
    + unfold rest2. rewrite sliceFrom_length. simpl String.length in *.
      assert (1 <= Z.to_nat bufLen)%nat by lia. lia.
Qed.

(** The loop reaches its [break] within the fuel it is given. *)
Lemma scanLoop_terminates (f : File) (bufLen : Z) :
  0 < bufLen ->
  exists r, scanLoop f bufLen (S (String.length (data f))) 0 EmptyString None = Some r.
Proof.
  intros Hbuf. eexists.
  exact (scanLoop_invariant f bufLen (S (String.length (data f)))
           EmptyString (data f) Hbuf eq_refl ltac:(lia)).
Qed.

(** The scan returns the name of the last rename record of the file,
    whatever the buffer size. *)
Lemma scanWith_lastValue (f : File) (bufLen : Z) :
  0 < bufLen ->
  scanWith f bufLen = lastValue sessionInfoName (splitLines (data f)).
Proof.
  intros Hbuf. unfold scanWith.
  assert (H : scanLoop f bufLen (S (String.length (data f))) 0 EmptyString None
              = Some (List.last (splitLF (data f)) EmptyString,
                      fold_left rememberName (removelast (splitLF (data f))) None)).
  { exact (scanLoop_invariant f bufLen (S (String.length (data f)))
             EmptyString (data f) Hbuf eq_refl ltac:(lia)). }
  rewrite H.
  rewrite lastValue_splitLines. unfold lastValue. rewrite <- fold_rememberName.
  rewrite (app_removelast_last EmptyString (splitLF_nonempty (data f))) at 3.
  rewrite fold_left_app. reflexivity.
Qed.

Lemma scanSessionInfoNameFromFile_lastValue (f : File) :
  scanSessionInfoNameFromFile f = lastValue sessionInfoName (splitLines (data f)).
Proof. apply scanWith_lastValue. reflexivity. Qed.

Lemma pickTitleFromTail_lastValue (tail : string) :
  pickTitleFromTail tail = lastValue sessionInfoName (splitLines tail).
Proof. apply scanBackward_lastValue. Qed.

Lemma pickUpdatedAtFromTail_lastValue (tail : string) :
  pickUpdatedAtFromTail tail =
  match lastValue messageStamp (splitLines tail) with
  | Some r => Some r
  | None => lastValue anyStamp (splitLines tail)
  end.
Proof. unfold pickUpdatedAtFromTail. rewrite !scanBackward_lastValue. reflexivity. Qed.

(** *** Loop bodies in the vocabulary of records *)

Lemma isStr_false (v : option json) (lit : string) :
  isStr v lit = false <-> v <> Some (JStr lit).
Proof.
  rewrite <- isStr_true. destruct (isStr v lit); split; congruence.
Qed.

Lemma asString_Some (v : option json) (s : string) :
  asString v = Some s <-> v = Some (JStr s).
Proof. destruct v as [[]|]; simpl; split; congruence. Qed.

Lemma sessionInfoName_line_Some (l x : string) :
  lineValue sessionInfoName l = Some x <->
  exists name, sessionInfoAt l name /\ trim name <> EmptyString /\ x = trim name.
Proof.
  unfold lineValue, sessionInfoName, sessionInfoAt, recordOf.
  destruct (isEmpty (trim l)); [split; [discriminate|intros (n & (o & H & _) & _); discriminate]|].
  destruct (JSON_parse (trim l)) as [obj|];
    [|split; [discriminate|intros (n & (o & H & _) & _); discriminate]].
  destruct (isStr (prop (Some obj) "type") "session_info") eqn:Et.
  - apply isStr_true in Et.
    destruct (asString (prop (Some obj) "name")) as [name|] eqn:En.
    + apply asString_Some in En.
      destruct (isEmpty (trim name)) eqn:Ee.
      * apply isEmpty_true in Ee. split; [discriminate|].
        intros (n & (o & Ho & _ & Hn) & Hne & _). congruence.
      * apply isEmpty_false in Ee. split.
        -- intros [= <-]. exists name. split; [|split; [exact Ee|reflexivity]].
           exists obj. split; [reflexivity|split; assumption].
        -- intros (n & (o & Ho & _ & Hn) & _ & ->). congruence.
    + split; [discriminate|].
      intros (n & (o & Ho & _ & Hn) & _). injection Ho as <-.
      rewrite Hn in En. discriminate.
  - apply isStr_false in Et. split; [discriminate|].
    intros (n & (o & Ho & Ht & _) & _). congruence.
Qed.


Lemma sessionInfoName_nonempty (l x : string) :
  lineValue sessionInfoName l = Some x -> isEmpty x = false.
Proof.
  intros H. apply sessionInfoName_line_Some in H as (name & _ & Hne & ->).
  apply isEmpty_false. exact Hne.
Qed.

Lemma isoOf_Some (ts : option string) (r : string) :
  isoOf ts = Some r <->
  exists s t, ts = Some s /\ isEmpty s = false /\ Date_parse s = Some t
              /\ r = Date_toISOString t.
Proof.
  unfold isoOf. destruct ts as [s|]; [|split; [discriminate|intros (?&?&?&_); discriminate]].
  destruct (isEmpty s) eqn:Es.
  - split; [discriminate|]. intros (s' & t & [= <-] & He & _). congruence.
  - destruct (Date_parse s) as [t|] eqn:Ed.
    + split.
      * intros [= <-]. exists s, t. auto.
      * intros (s' & t' & [= <-] & _ & Hd & ->). congruence.
    + split; [discriminate|]. intros (s' & t' & [= <-] & _ & Hd & _). congruence.
Qed.

Lemma timestampOf_isoOf (obj : json) (r : string) :
  isoOf (asString (prop (Some obj) "timestamp")) = Some r <->
  exists t, timestampOf obj = Some t /\ r = Date_toISOString t.
Proof.
  rewrite isoOf_Some. unfold timestampOf.
  destruct (asString (prop (Some obj) "timestamp")) as [s|].
  - split.
    + intros (s' & t & [= <-] & He & Hd & ->). exists t. rewrite He. auto.
    + intros (t & H & ->). destruct (isEmpty s) eqn:He; [discriminate|].
      exists s, t. auto.
  - split; [intros (?&?&?&_); discriminate|intros (?&?&_); discriminate].
Qed.

Lemma messageStamp_line_Some (l r : string) :
  lineValue messageStamp l = Some r <->
  exists t, messageAt l t /\ r = Date_toISOString t.
Proof.
  unfold lineValue, messageStamp, messageAt, recordOf, isMessage.
  destruct (isEmpty (trim l)); [split; [discriminate|intros (t & (o & H & _) & _); discriminate]|].
  destruct (JSON_parse (trim l)) as [obj|];
    [|split; [discriminate|intros (t & (o & H & _) & _); discriminate]].
  destruct (isStr (prop (Some obj) "type") "message") eqn:Et; cbn [negb].
  - rewrite timestampOf_isoOf. split.
    + intros (t & Ht & ->). exists t. split; [|reflexivity].
      exists obj. auto.
    + intros (t & (o & [= <-] & _ & Ht) & ->). exists t. auto.
  - split; [discriminate|]. intros (t & (o & [= <-] & Hm & _) & _). congruence.
Qed.

Lemma messageStamp_line_None (l : string) :
  lineValue messageStamp l = None <-> forall t, ~ messageAt l t.
Proof.
  split.
  - intros H t Hat.
    assert (lineValue messageStamp l = Some (Date_toISOString t)) as H'
      by (apply messageStamp_line_Some; exists t; auto).
    congruence.
  - intros H. destruct (lineValue messageStamp l) as [x|] eqn:E; [|reflexivity].
    apply messageStamp_line_Some in E as (t & Hat & _). destruct (H t Hat).
Qed.

Lemma anyStamp_line_Some (l r : string) :
  lineValue anyStamp l = Some r <->
  exists t, stampedAt l t /\ r = Date_toISOString t.
Proof.
  unfold lineValue, anyStamp, stampedAt, recordOf.
  destruct (isEmpty (trim l)); [split; [discriminate|intros (t & (o & H & _) & _); discriminate]|].
  destruct (JSON_parse (trim l)) as [obj|];
    [|split; [discriminate|intros (t & (o & H & _) & _); discriminate]].
  rewrite timestampOf_isoOf. split.
  - intros (t & Ht & ->). exists t. split; [|reflexivity]. exists obj. auto.
  - intros (t & (o & [= <-] & Ht) & ->). exists t. auto.
Qed.

Lemma anyStamp_line_None (l : string) :
  lineValue anyStamp l = None <-> forall t, ~ stampedAt l t.
Proof.
  split.
  - intros H t Hat.
    assert (lineValue anyStamp l = Some (Date_toISOString t)) as H'
      by (apply anyStamp_line_Some; exists t; auto).
    congruence.
  - intros H. destruct (lineValue anyStamp l) as [x|] eqn:E; [|reflexivity].
    apply anyStamp_line_Some in E as (t & Hat & _). destruct (H t Hat).
Qed.

Lemma iso_not_falsy (body : string -> option string) (l : list string) (r : string) :
  (forall x y, lineValue body x = Some y -> exists t, y = Date_toISOString t) ->
  lastValue body l = Some r -> falsy (Some r) = false.
Proof.
  intros Hb H. apply lastValue_inv in H as (pre & x & post & _ & Hx & _).
  destruct (Hb x r Hx) as (t & ->). simpl. apply isEmpty_false.
  apply Date_toISOString_nonempty.
Qed.

(** *** The listing entry of one file *)

(** The title and the timestamp that [sessionItem] computes, on their
    own. *)
Definition titleOf (f : File) : option string :=
  let title0 :=
    match readTail f with
    | Some tail => pickTitleFromTail tail
    | None => None
    end in
  let title1 := if falsy title0 then scanSessionInfoNameFromFile f else title0 in
  if falsy title1 then pickFallbackTitleFromHead f else title1.

Definition updatedAtOf (f : File) : option string :=
  let updatedAt0 :=
    match readTail f with
    | Some tail => pickUpdatedAtFromTail tail
    | None => None
    end in
  if falsy updatedAt0 then
    match stat f with
    | Some st => Some (Date_toISOString (mtime st))
    | None => None
    end
  else updatedAt0.

Lemma sessionItem_inv (f : File) (e : PiSessionListItem) :
  sessionItem f = Some e ->
  title e = titleOf f /\ updatedAt e = updatedAtOf f /\ sessionFile e = path f
  /\ exists first, readFirstLine f = Some first /\ isEmpty first = false
                   /\ parseSessionHeader first = Some (sessionId e, cwd e).
Proof.
  unfold sessionItem, titleOf, updatedAtOf.
  destruct (readFirstLine f) as [first|]; [|discriminate].
  destruct (isEmpty first) eqn:Ef; [discriminate|].
  destruct (parseSessionHeader first) as [[sid dir]|] eqn:Eh; [|discriminate].
  destruct (readTail f) as [tail|]; intros H;
    apply (f_equal (fun o => match o with Some x => x | None => e end)) in H;
    cbv beta iota in H; subst e;
    cbn [title updatedAt sessionFile sessionId cwd];
    (split; [reflexivity|split; [reflexivity|split; [reflexivity|]]]);
    exists first; auto.
Qed.

Lemma lineValue_hd_splitLines (body : string -> option string) (s : string) :
  lineValue body (hd EmptyString (splitLines s))
  = lineValue body (hd EmptyString (splitLF s)).
Proof.
  pose proof (map_trim_splitLines s) as H.
  pose proof (splitLines_nonempty s) as H1. pose proof (splitLF_nonempty s) as H2.
  destruct (splitLines s) as [|a la]; [congruence|].
  destruct (splitLF s) as [|b lb]; [congruence|].
  simpl in H. injection H as Hab _. unfold lineValue. simpl. rewrite Hab. reflexivity.
Qed.

Lemma readTail_Some (f : File) (tail : string) :
  readTail f = Some tail -> tail = sliceFrom (Z.to_nat (tailStart f)) (data f).
Proof.
  unfold readTail, readTailOf, tailStart. destruct (stat f); [|discriminate].
  intros H. apply (f_equal (fun o => match o with Some x => x | None => tail end)) in H.
  cbv beta iota in H. subst tail.
  unfold readSync. rewrite takeZ_slice0, dropZ_sliceFrom.
  apply slice0_all. rewrite sliceFrom_length.
  unfold size, DEFAULT_TAIL_BYTES. lia.
Qed.

Lemma readTail_stat (f : File) (st : Stats) :
  stat f = Some st -> exists tail, readTail f = Some tail.
Proof. unfold readTail, readTailOf. intros ->. eauto. Qed.

(** [readTail] of a file whose [stat] succeeds returns the tail window of
    its contents. *)
Lemma readTail_tailWindow (f : File) (st : Stats) :
  stat f = Some st -> readTail f = Some (tailWindow f).
Proof.
  intros Hst. destruct (readTail_stat f st Hst) as (tail & Htail).
  rewrite Htail. f_equal. unfold tailWindow. rewrite dropZ_sliceFrom.
  apply readTail_Some. exact Htail.
Qed.

(** The tail window is a suffix of the contents, of length
    [min (size f) DEFAULT_TAIL_BYTES]. *)
Lemma tailWindow_suffix (f : File) :
  data f = takeZ (tailStart f) (data f) +:+ tailWindow f
  /\ Z.of_nat (String.length (tailWindow f)) = Z.min (size f) DEFAULT_TAIL_BYTES.
Proof.
  unfold tailWindow. split.
  - generalize (tailStart f). induction (data f) as [|c r IH]; intros n.
    + reflexivity.
    + cbn [takeZ dropZ]. destruct (0 <? n).
      * rewrite sapp_cons, <- IH. reflexivity.
      * rewrite sapp_nil. reflexivity.
  - rewrite dropZ_sliceFrom, sliceFrom_length. unfold tailStart, size.
    assert (Hk : 0 < DEFAULT_TAIL_BYTES) by (unfold DEFAULT_TAIL_BYTES; lia).
    generalize dependent DEFAULT_TAIL_BYTES. intros k Hk. lia.
Qed.

Lemma readFirstLine_firstLine (f : File) (first : string) :
  readFirstLine f = Some first -> first = firstLine f.
Proof.
  unfold readFirstLine, firstLine.
  set (s := readSync f DEFAULT_HEAD_BYTES 0).
  destruct (Z.of_nat (String.length s) <=? 0); [discriminate|].
  pose proof (firstLine_splitLF s) as H.
  pose proof (lineValue_hd_splitLines (fun x => Some x) s) as Hhd.
  assert (Ht : trim (hd EmptyString (splitLines s)) = trim (hd EmptyString (splitLF s))).
  { pose proof (map_trim_splitLines s) as Hm.
    pose proof (splitLines_nonempty s) as H1. pose proof (splitLF_nonempty s) as H2.
    destruct (splitLines s) as [|a la]; [congruence|].
    destruct (splitLF s) as [|b lb]; [congruence|].
    simpl in Hm. injection Hm as Hab _. exact Hab. }
  rewrite Ht, <- H. destruct (indexOfLF s); intros [= <-]; reflexivity.
Qed.

Lemma parseSessionHeader_Some (first sid dir : string) :
  parseSessionHeader first = Some (sid, dir) ->
  exists obj, JSON_parse first = Some obj
              /\ prop (Some obj) "type" = Some (JStr "session").
Proof.
  unfold parseSessionHeader. destruct (JSON_parse first) as [obj|]; [|discriminate].
  destruct (isStr (prop (Some obj) "type") "session") eqn:E; [|discriminate].
  intros _. exists obj. split; [reflexivity|]. apply isStr_true. exact E.
Qed.

Lemma sessionItem_header (f : File) (e : PiSessionListItem) :
  sessionItem f = Some e -> hasSessionHeader f.
Proof.
  intros H. apply sessionItem_inv in H as (_ & _ & _ & first & Hf & _ & Hh).
  apply readFirstLine_firstLine in Hf. subst first.
  exact (parseSessionHeader_Some _ _ _ Hh).
Qed.


(** The three tiers of the title, without any proviso: the last rename
    record among the lines of the tail window (the first of which may be
    the remainder of a cut line), else the last one of the whole file,
    else the fallback from the head. *)
Lemma titleOf_tiers (f : File) :
  titleOf f =
  match match readTail f with
        | Some tail => lastValue sessionInfoName (splitLines tail)
        | None => None
        end with
  | Some x => Some x
  | None =>
      match lastValue sessionInfoName (splitLines (data f)) with
      | Some x => Some x
      | None => pickFallbackTitleFromHead f
      end
  end.
Proof.
  unfold titleOf. rewrite scanSessionInfoNameFromFile_lastValue.
  assert (Hn : forall l x, lastValue sessionInfoName l = Some x -> falsy (Some x) = false).
  { intros l x Hx. destruct (lastValue_inv _ _ _ Hx) as (pre & y & post & _ & Hy & _).
    exact (sessionInfoName_nonempty _ _ Hy). }
  destruct (readTail f) as [tail|].
  - rewrite pickTitleFromTail_lastValue.
    destruct (lastValue sessionInfoName (splitLines tail)) as [x|] eqn:E1.
    + rewrite (Hn _ _ E1). rewrite (Hn _ _ E1). reflexivity.
    + cbn [falsy].
      destruct (lastValue sessionInfoName (splitLines (data f))) as [x|] eqn:E2;
        [rewrite (Hn _ _ E2)|]; reflexivity.
  - cbn [falsy].
    destruct (lastValue sessionInfoName (splitLines (data f))) as [x|] eqn:E2;
      [rewrite (Hn _ _ E2)|]; reflexivity.
Qed.

(** When the tail window holds no rename record, the full scan recovers
    the last one of the file. *)
Lemma title_recovered_by_full_scan (f : File) (e : PiSessionListItem)
  (tail x : string) :
  sessionItem f = Some e ->
  readTail f = Some tail ->
  lastValue sessionInfoName (splitLines tail) = None ->
  lastValue sessionInfoName (splitLines (data f)) = Some x ->
  title e = Some x.
Proof.
  intros He Htail Hnone Hx.
  destruct (sessionItem_inv f e He) as (Ht & _).
  rewrite Ht, titleOf_tiers, Htail, Hnone, Hx. reflexivity.
Qed.


Lemma updatedAtOf_cases (f : File) (st : Stats) (tail : string) :
  stat f = Some st ->
  readTail f = Some tail ->
  updatedAtOf f =
  match lastValue messageStamp (splitLines tail) with
  | Some r => Some r
  | None =>
      match lastValue anyStamp (splitLines tail) with
      | Some r => Some r
      | None => Some (Date_toISOString (mtime st))
      end
  end.
Proof.
  intros Hst Ht. unfold updatedAtOf. rewrite Ht, Hst, pickUpdatedAtFromTail_lastValue.
  destruct (lastValue messageStamp (splitLines tail)) as [r|] eqn:E1.
  - rewrite (iso_not_falsy messageStamp (splitLines tail) r); [reflexivity| |exact E1].
    intros x y Hxy. apply messageStamp_line_Some in Hxy as (t & _ & ->). eauto.
  - destruct (lastValue anyStamp (splitLines tail)) as [r|] eqn:E2; [|reflexivity].
    rewrite (iso_not_falsy anyStamp (splitLines tail) r); [reflexivity| |exact E2].
    intros x y Hxy. apply anyStamp_line_Some in Hxy as (t & _ & ->). eauto.
Qed.

(** *** Sorting keeps the items *)

Lemma insertItem_perm (x : PiSessionListItem) (l : list PiSessionListItem) :
  Permutation (insertItem x l) (x :: l).
Proof.
  induction l as [|y l IH]; simpl; [reflexivity|].
  destruct (compareItems y x <=? 0); [|reflexivity].
  rewrite IH. apply perm_swap.
Qed.

Lemma sortItems_perm (l : list PiSessionListItem) : Permutation (sortItems l) l.
Proof.
  unfold sortItems.
  assert (H : forall acc, Permutation (fold_left (fun acc x => insertItem x acc) l acc)
                                      (acc ++ l)).
  { induction l as [|x l IH]; intros acc; simpl.
    - rewrite app_nil_r. reflexivity.
    - rewrite IH, insertItem_perm.
      change (x :: acc) with ([x] ++ acc).
      rewrite (Permutation_app_comm [x] acc), <- app_assoc. reflexivity. }
  apply (H []).
Qed.

Lemma In_listPiSessions (files : list File) (it : PiSessionListItem) :
  In it (listPiSessions files) <-> exists f, In f files /\ sessionItem f = Some it.
Proof.
  unfold listPiSessions. split.
  - intros H. apply (Permutation_in _ (sortItems_perm _)) in H.
    apply list_elem_of_In, list_elem_of_omap in H as (f & Hf & Hs).
    exists f. split; [apply list_elem_of_In; exact Hf|exact Hs].
  - intros (f & Hf & Hs).
    apply (Permutation_in _ (Permutation_sym (sortItems_perm _))).
    apply list_elem_of_In, list_elem_of_omap. exists f.
    split; [apply list_elem_of_In; exact Hf|exact Hs].
Qed.

(** *** The listing claims *)

(** C2.  For a listed session file whose [stat] succeeds, with the tail
    window taken as the last [DEFAULT_TAIL_BYTES] characters of the
    contents of the file: [updatedAt] is the ISO rendering of the
    timestamp of the last [message] record of the tail window that has a
    parseable timestamp, whatever later records of other types carry; if
    no [message] record of the window has one, of the last record of any
    type that has one; and if no record has one, of the file's
    modification time. *)
Theorem updatedAt_prefers_last_message
  (f : File) (e : PiSessionListItem) (st : Stats) :
  sessionItem f = Some e ->
  stat f = Some st ->
  (forall pre l post t,
      splitLines (tailWindow f) = pre ++ l :: post ->
      messageAt l t ->
      (forall l' t', In l' post -> ~ messageAt l' t') ->
      updatedAt e = Some (Date_toISOString t))
  /\ ((forall l t, In l (splitLines (tailWindow f)) -> ~ messageAt l t) ->
      forall pre l post t,
        splitLines (tailWindow f) = pre ++ l :: post ->
        stampedAt l t ->
        (forall l' t', In l' post -> ~ stampedAt l' t') ->
        updatedAt e = Some (Date_toISOString t))
  /\ ((forall l t, In l (splitLines (tailWindow f)) -> ~ stampedAt l t) ->
      updatedAt e = Some (Date_toISOString (mtime st))).
Proof.
  intros He Hst.
  pose proof (readTail_tailWindow f st Hst) as Htail.
  destruct (sessionItem_inv f e He) as (_ & Hu & _).
  rewrite Hu, (updatedAtOf_cases f st (tailWindow f) Hst Htail).
  generalize dependent (tailWindow f). intros tail _.
  split; [|split].
  - intros pre l post t Hsplit Hl Hpost.
    rewrite Hsplit, (lastValue_found messageStamp pre post l (Date_toISOString t)).
    + reflexivity.
    + apply messageStamp_line_Some. exists t. auto.
    + intros y Hy. apply messageStamp_line_None. intros t'. exact (Hpost y t' Hy).
  - intros Hnone pre l post t Hsplit Hl Hpost.
    rewrite (lastValue_none messageStamp (splitLines tail)).
    + rewrite Hsplit, (lastValue_found anyStamp pre post l (Date_toISOString t)).
      * reflexivity.
      * apply anyStamp_line_Some. exists t. auto.
      * intros y Hy. apply anyStamp_line_None. intros t'. exact (Hpost y t' Hy).
    + intros y Hy. apply messageStamp_line_None. intros t'. exact (Hnone y t' Hy).
  - intros Hnone.
    assert (Hm : forall l t, In l (splitLines tail) -> ~ messageAt l t).
    { intros l t Hl (obj & Hr & _ & Ht). apply (Hnone l t Hl). exists obj. auto. }
    rewrite (lastValue_none messageStamp (splitLines tail)).
    + rewrite (lastValue_none anyStamp (splitLines tail)); [reflexivity|].
      intros y Hy. apply anyStamp_line_None. intros t'. exact (Hnone y t' Hy).
    + intros y Hy. apply messageStamp_line_None. intros t'. exact (Hm y t' Hy).
Qed.


(** C5.  Every entry of the listing comes from one of the files, carries
    that file's path, and that file's first line (within the 64KB head
    window) parses as a JSON object of type [session]; a file whose first
    line does not parse so yields no entry, and no entry of the listing
    carries its path when paths are unique. *)
Theorem listing_only_has_session_headers (files : list File) :
  (forall it, In it (listPiSessions files) ->
     exists f, In f files /\ sessionItem f = Some it
               /\ sessionFile it = path f /\ hasSessionHeader f)
  /\ (forall f, In f files -> ~ hasSessionHeader f ->
        sessionItem f = None
        /\ ((forall g, In g files -> path g = path f -> g = f) ->
            forall it, In it (listPiSessions files) -> sessionFile it <> path f)).
Proof.
  split.
  - intros it Hit. apply In_listPiSessions in Hit as (f & Hf & Hs).
    exists f. split; [exact Hf|]. split; [exact Hs|].
    split; [exact (proj1 (proj2 (proj2 (sessionItem_inv f it Hs))))|].
    exact (sessionItem_header f it Hs).
  - intros f Hf Hno.
    assert (Hnone : sessionItem f = None).
    { destruct (sessionItem f) as [e|] eqn:E; [|reflexivity].
      destruct (Hno (sessionItem_header f e E)). }
    split; [exact Hnone|].
    intros Huniq it Hit Hpath.
    apply In_listPiSessions in Hit as (g & Hg & Hs).
    pose proof (proj1 (proj2 (proj2 (sessionItem_inv g it Hs)))) as Hp.
    assert (g = f) by (apply Huniq; [exact Hg|congruence]).
    subst g. congruence.
Qed.

(** The fallback scan, when the file has more than 2000 lines, looks at
    the first non-blank line only. *)
Lemma fallbackLoop_long_file (total : nat) (lines : list string) :
  2000 < Z.of_nat total ->
  fallbackLoop total lines
  = match List.find (fun l => negb (isEmpty (trim l))) lines with
    | Some l => userMessageTitle (trim l)
    | None => None
    end.
Proof.
  intros Hlong. induction lines as [|x l IH]; simpl; [reflexivity|].
  destruct (isEmpty (trim x)); simpl; [exact IH|].
  destruct (userMessageTitle (trim x)); [reflexivity|].
  apply Z.ltb_lt in Hlong. rewrite Hlong. reflexivity.
Qed.

(** With at most 2000 lines it returns the title of the first line that
    yields one. *)
Lemma fallbackLoop_short_file (total : nat) (pre post : list string) (l t : string) :
  Z.of_nat total <= 2000 ->
  userMessageTitle (trim l) = Some t ->
  isEmpty (trim l) = false ->
  (forall x, In x pre -> isEmpty (trim x) = true \/ userMessageTitle (trim x) = None) ->
  fallbackLoop total (pre ++ l :: post) = Some t.
Proof.
  intros Hshort Hl Hne Hpre. induction pre as [|x pre IH]; simpl.
  - rewrite Hne, Hl. reflexivity.
  - assert (Hrest : forall y, In y pre ->
                      isEmpty (trim y) = true \/ userMessageTitle (trim y) = None)
      by (intros y Hy; apply Hpre; right; exact Hy).
    destruct (isEmpty (trim x)) eqn:Ex; [exact (IH Hrest)|].
    destruct (Hpre x (or_introl eq_refl)) as [H|H]; [congruence|].
    rewrite H. apply Z.ltb_ge in Hshort. rewrite Hshort. exact (IH Hrest).
Qed.

End Facts.

(** *** The claims on concrete files *)

#[local] Existing Instance Node.runtime.

Definition header1 : string :=
  Node.dq "{'type':'session','version':3,'id':'sess-1','timestamp':'2026-01-01T00:00:00.000Z','cwd':'/tmp/project'}".

Definition message1 : string :=
  Node.dq "{'type':'message','id':'a1b2c3d4','parentId':null,'timestamp':'2026-01-01T00:00:02.000Z','message':{'role':'user','content':'hi'}}".

Definition rename1 : string :=
  Node.dq "{'type':'session_info','id':'b1b2c3d4','parentId':'a1b2c3d4','timestamp':'2026-01-01T00:00:10.000Z','name':'named'}".

Definition stats1 : Stats := mkStats 1767225700000.

(** The file of the test "updatedAt prefers last message timestamp over
    later non-message entries". *)
Definition file1 : File :=
  mkFile "/sessions/--p--/s.jsonl"
         (Node.joinLines [header1; message1; rename1] +:+ Node.nl)
         (Some stats1).

Definition item1 : PiSessionListItem :=
  mkItem "sess-1" "/tmp/project" (Some "named")
         (Some "2026-01-01T00:00:02.000Z") "/sessions/--p--/s.jsonl".

Lemma sessionItem_file1 : sessionItem file1 = Some item1.
Proof. vm_compute. reflexivity. Qed.

Lemma updatedAt_prefers_last_message_witness :
  exists e,
    sessionItem file1 = Some e
    /\ stat file1 = Some stats1
    /\ splitLines (tailWindow file1) = [header1] ++ message1 :: [rename1; EmptyString]
    /\ messageAt message1 1767225602000
    /\ stampedAt rename1 1767225610000
    /\ updatedAt e = Some (Date_toISOString 1767225602000)
    /\ Date_toISOString 1767225602000 = "2026-01-01T00:00:02.000Z".
Proof.
  exists item1.
  assert (Hm : messageAt message1 1767225602000).
  { eexists. split; [vm_compute; reflexivity|]. split; vm_compute; reflexivity. }
  assert (Hsplit : splitLines (tailWindow file1)
                   = [header1] ++ message1 :: [rename1; EmptyString]).
  { vm_compute. reflexivity. }
  split; [exact sessionItem_file1|]. split; [reflexivity|].
  split; [exact Hsplit|]. split; [exact Hm|].
  assert (Hr : stampedAt rename1 1767225610000).
  { eexists. split; [vm_compute; reflexivity|]. vm_compute. reflexivity. }
  split; [exact Hr|].
  split; [|vm_compute; reflexivity].
  refine (proj1 (updatedAt_prefers_last_message file1 item1 stats1
                   sessionItem_file1 eq_refl)
            [header1] message1 [rename1; EmptyString] 1767225602000 Hsplit Hm _).
  intros l' t' Hin. revert t'. apply messageStamp_line_None.
  destruct Hin as [<-|[<-|[]]]; vm_compute; reflexivity.
Defined.

(** A file whose only rename record has a name with surrounding blanks. *)
Definition rename2 : string :=
  Node.dq "{'type':'session_info','id':'i1','parentId':null,'timestamp':'2026-01-01T00:00:01.000Z','name':' B '}".

Definition file2 : File :=
  mkFile "/sessions/--p--/t.jsonl"
         (Node.joinLines [header1; rename2] +:+ Node.nl)
         (Some stats1).

Definition item2 : PiSessionListItem :=
  mkItem "sess-1" "/tmp/project" (Some "B")
         (Some "2026-01-01T00:00:01.000Z") "/sessions/--p--/t.jsonl".



(** A file whose first line is not a session header. *)
Definition file3 : File :=
  mkFile "/sessions/--p--/notes.jsonl"
         (Node.joinLines [message1; rename1] +:+ Node.nl)
         (Some stats1).

Lemma file3_no_header : ~ hasSessionHeader file3.
Proof.
  intros (obj & Hparse & Htype). vm_compute in Hparse.
  injection Hparse as <-. vm_compute in Htype. discriminate.
Qed.

Lemma listing_only_has_session_headers_witness :
  sessionItem file3 = None
  /\ forall it, In it (listPiSessions [file1; file3]) ->
                sessionFile it <> "/sessions/--p--/notes.jsonl".
Proof.
  destruct (proj2 (listing_only_has_session_headers [file1; file3]) file3
              (or_intror (or_introl eq_refl)) file3_no_header) as [Hnone Hex].
  split; [exact Hnone|].
  apply Hex. intros g [<-|[<-|[]]] Hp; [vm_compute in Hp; discriminate|reflexivity].
Defined.

(** The listing of the two files holds the entry of [file1] only. *)
Lemma listPiSessions_example : listPiSessions [file3; file1] = [item1].
Proof. vm_compute. reflexivity. Qed.

(** A session of 2001 lines: the header, the first user message, and
    1999 records of a kind the listing does not interpret. *)
Definition label1 : string :=
  Node.dq "{'type':'label','timestamp':'2026-01-01T00:00:03.000Z'}".

Definition file4 : File :=
  mkFile "/sessions/--p--/long.jsonl"
         (Node.joinLines (header1 :: message1 :: repeat label1 1999))
         (Some stats1).

(** The same session one line shorter. *)
Definition file5 : File :=
  mkFile "/sessions/--p--/short.jsonl"
         (Node.joinLines (header1 :: message1 :: repeat label1 1998))
         (Some stats1).

(** C4 (code defect).  [file4] has no rename record and its first user
    message, ["hi"], is on its second line; the fallback stops after the
    header because the file has more than 2000 lines, so the entry has no
    title.  With 2000 lines ([file5]) the title is ["hi"]. *)
Theorem fallback_title_missed_on_long_file :
  length (splitLines (data file4)) = 2001%nat
  /\ userMessageTitle (nth 1 (splitLines (data file4)) EmptyString) = Some "hi"
  /\ (title <$> sessionItem file4) = Some None
  /\ (title <$> sessionItem file5) = Some (Some "hi").
Proof.
  split; [vm_compute; reflexivity|].
  split; [vm_compute; reflexivity|].
  split; vm_compute; reflexivity.
Qed.

End PiSessions.

(* ===================================================================== *)
(** ** The transport manager (src/server/ws.ts)                           *)
(* ===================================================================== *)

Module Ws.

Definition MAX_CONNECTIONS : Z := 10.
Definition IDLE_TIMEOUT_MS : Z := 5 * 60 * 1000.
Definition PING_INTERVAL_MS : Z := 30000.
Definition PONG_TIMEOUT_MS : Z := 10000.
Definition RATE_LIMIT_MESSAGES : Z := 100.
Definition RATE_LIMIT_WINDOW_MS : Z := 60000.

(** Object identities: a [WebSocket] and a timer handle. *)
Definition WebSocket : Type := nat.
Definition Timeout : Type := nat.

Record ConnectionMeta : Type := mkMeta {
  id : string;
  connectedAt : Z;
  lastActivity : Z;
  messageCount : Z;
  messageWindowStart : Z;
  pingTimeout : option Timeout;
  isAlive : bool
}.

(** What the manager observes of a socket: the arguments of the first
    [ws.close(code, reason)] that reached it ([None] while it is open),
    the number of pings sent, and whether [ws.ping()] throws. *)
Record Socket : Type := mkSocket {
  closedWith : option (Z * string);
  pings : nat;
  pingThrows : bool
}.

Inductive StreamState : Type := Readable | Closed | Errored.

(** The controller of the readable side of a connection's stream: the
    chunks enqueued for the bridge, and the state of the stream. *)
Record Controller : Type := mkController {
  queue : list json;
  streamState : StreamState
}.

(** The module state.  [metas] holds the [ConnectionMeta] object created
    for each socket; the event handlers of a socket and the entry of the
    [connections] map share that one object, so a handler updates it
    whether or not the socket is still registered.  [connections] lists
    the keys of the map in insertion order.  [timers] are the armed pong
    timeouts, each with the socket its callback closes over. *)
Record State : Type := mkState {
  metas : gmap WebSocket ConnectionMeta;
  connections : list WebSocket;
  sockets : gmap WebSocket Socket;
  controllers : gmap WebSocket Controller;
  timers : gmap Timeout WebSocket;
  nextTimeout : Timeout;
  pingInterval : bool;
  idleCheckInterval : bool
}.

(** How a handler ends: it returns, or an exception escapes it. *)
Inductive Outcome : Type :=
| Returned (st : State)
| Threw (st : State).

Definition stateOf (o : Outcome) : State :=
  match o with
  | Returned st => st
  | Threw st => st
  end.

Definition withMetas (st : State) (m : gmap WebSocket ConnectionMeta) : State :=
  mkState m (connections st) (sockets st) (controllers st) (timers st)
          (nextTimeout st) (pingInterval st) (idleCheckInterval st).

Definition withConnections (st : State) (c : list WebSocket) : State :=
  mkState (metas st) c (sockets st) (controllers st) (timers st)
          (nextTimeout st) (pingInterval st) (idleCheckInterval st).

Definition withSockets (st : State) (s : gmap WebSocket Socket) : State :=
  mkState (metas st) (connections st) s (controllers st) (timers st)
          (nextTimeout st) (pingInterval st) (idleCheckInterval st).

Definition withControllers (st : State) (c : gmap WebSocket Controller) : State :=
  mkState (metas st) (connections st) (sockets st) c (timers st)
          (nextTimeout st) (pingInterval st) (idleCheckInterval st).

Definition withTimers (st : State) (t : gmap Timeout WebSocket) (next : Timeout)
  : State :=
  mkState (metas st) (connections st) (sockets st) (controllers st) t
          next (pingInterval st) (idleCheckInterval st).

(** [connections.has(ws)], [connections.get(ws)], [connections.delete(ws)]
    and [connections.set(ws, meta)] for the meta object of [ws]. *)
Definition hasConnection (ws : WebSocket) (st : State) : bool :=
  bool_decide (ws ∈ connections st).

Definition getConnection (ws : WebSocket) (st : State) : option ConnectionMeta :=
  if hasConnection ws st then metas st !! ws else None.

Definition deleteConnection (ws : WebSocket) (st : State) : State :=
  withConnections st (base.filter (fun w => w <> ws) (connections st)).

Definition setConnection (ws : WebSocket) (st : State) : State :=
  if hasConnection ws st then st else withConnections st (connections st ++ [ws]).

(** [clearTimeout(t)] *)
Definition clearTimeout (t : Timeout) (st : State) : State :=
  withTimers st (delete t (timers st)) (nextTimeout st).

(** [ws.close(code, reason)]: the first call decides how the socket
    closes.  With a valid code on an accepted socket it does not throw. *)
Definition wsClose (ws : WebSocket) (code : Z) (reason : string) (st : State)
  : State :=
  match sockets st !! ws with
  | Some sock =>
      match closedWith sock with
      | Some _ => st
      | None =>
          withSockets st
            (<[ws := mkSocket (Some (code, reason)) (pings sock) (pingThrows sock)]>
               (sockets st))
      end
  | None => st
  end.

Definition closeConnection (ws : WebSocket) (code : Z) (reason : string)
  (st : State) : State :=
  let st1 :=
    match getConnection ws st with
    | Some meta =>
        match pingTimeout meta with
        | Some t => clearTimeout t st
        | None => st
        end
    | None => st
    end in
  let st2 := deleteConnection ws st1 in
  wsClose ws code reason st2.

(** [isRateLimited(meta)] at time [now]: the verdict and the mutated
    meta object. *)
Definition isRateLimited (meta : ConnectionMeta) (now : Z) : bool * ConnectionMeta :=
  let windowStart := messageWindowStart meta in
  let timeInWindow := now - windowStart in
  if RATE_LIMIT_WINDOW_MS <? timeInWindow then
    (false,
     mkMeta (id meta) (connectedAt meta) (lastActivity meta) 1 now
            (pingTimeout meta) (isAlive meta))
  else
    let count := messageCount meta + 1 in
    (RATE_LIMIT_MESSAGES <? count,
     mkMeta (id meta) (connectedAt meta) (lastActivity meta) count
            (messageWindowStart meta) (pingTimeout meta) (isAlive meta)).

(** [controller.close()]: a TypeError unless the stream is readable. *)
Definition controllerClose (ws : WebSocket) (st : State) : Outcome :=
  match controllers st !! ws with
  | Some c =>
      match streamState c with
      | Readable =>
          Returned (withControllers st
                      (<[ws := mkController (queue c) Closed]> (controllers st)))
      | _ => Threw st
      end
  | None => Threw st
  end.

(** [controller.enqueue(msg)] inside the handler's [try]: the TypeError
    of a stream that is not readable is swallowed. *)
Definition tryEnqueue (ws : WebSocket) (msg : json) (st : State) : State :=
  match controllers st !! ws with
  | Some c =>
      match streamState c with
      | Readable =>
          withControllers st
            (<[ws := mkController (queue c ++ [msg]) Readable]> (controllers st))
      | _ => st
      end
  | None => st
  end.

(** [controller.error(err)] *)
Definition controllerError (ws : WebSocket) (st : State) : State :=
  match controllers st !! ws with
  | Some c =>
      match streamState c with
      | Readable =>
          withControllers st
            (<[ws := mkController (queue c) Errored]> (controllers st))
      | _ => st
      end
  | None => st
  end.

Definition cleanupConnection (ws : WebSocket) (st : State) : State :=
  let st1 :=
    match getConnection ws st with
    | Some meta =>
        match pingTimeout meta with
        | Some t => clearTimeout t st
        | None => st
        end
    | None => st
    end in
  deleteConnection ws st1.

Section WithRuntime.
Context {R : Runtime}.

(** [msg && (msg.type === 'ping' || msg.type === 'pong')]; for [null]
    the conjunction is falsy, as it is for every value without a [type]. *)
Definition isControl (msg : json) : bool :=
  isStr (prop (Some msg) "type") "ping" || isStr (prop (Some msg) "type") "pong".

(** The ['message'] listener that [wsToStream] installs on [ws], run at
    time [now] on the frame text [data]. *)
Definition onMessage (ws : WebSocket) (now : Z) (data : string) (st : State)
  : Outcome :=
  match metas st !! ws with
  | None => Returned st
  | Some meta =>
      let meta1 :=
        mkMeta (id meta) (connectedAt meta) now (messageCount meta)
               (messageWindowStart meta) (pingTimeout meta) (isAlive meta) in
      let '(limited, meta2) := isRateLimited meta1 now in
      let st1 := withMetas st (<[ws := meta2]> (metas st)) in
      if limited then
        controllerClose ws (closeConnection ws 1008 "Rate limit exceeded" st1)
      else
        match JSON_parse data with
        | None => Returned st1
        | Some msg =>
            if isControl msg then Returned st1
            else Returned (tryEnqueue ws msg st1)
        end
  end.

End WithRuntime.

(** The ['close'] listener. *)
Definition onClose (ws : WebSocket) (st : State) : Outcome :=
  controllerClose ws (cleanupConnection ws st).

(** The ['error'] listener. *)
Definition onError (ws : WebSocket) (st : State) : Outcome :=
  Returned (controllerError ws st).

(** The ['pong'] listener. *)
Definition onPong (ws : WebSocket) (now : Z) (st : State) : Outcome :=
  match metas st !! ws with
  | None => Returned st
  | Some meta =>
      let st1 :=
        match pingTimeout meta with
        | Some t => clearTimeout t st
        | None => st
        end in
      Returned
        (withMetas st1
           (<[ws := mkMeta (id meta) (connectedAt meta) now (messageCount meta)
                           (messageWindowStart meta) None true]> (metas st1)))
  end.

(** [onConnection(ws, req)] for a socket [ws] that was just accepted;
    [connId] is the generated connection id. *)
Definition onConnection (ws : WebSocket) (connId : string) (now : Z) (st : State)
  : Outcome :=
  let st0 := withSockets st (<[ws := mkSocket None 0 false]> (sockets st)) in
  if MAX_CONNECTIONS <=? Z.of_nat (length (connections st0)) then
    Returned (wsClose ws 1013 "Server overloaded" st0)
  else
    let meta := mkMeta connId now now 0 now None true in
    let st1 := setConnection ws (withMetas st0 (<[ws := meta]> (metas st0))) in
    Returned (withControllers st1
                (<[ws := mkController [] Readable]> (controllers st1))).

(** The callback of the pong timeout armed for [ws]. *)
Definition pongTimeoutCallback (ws : WebSocket) (st : State) : Outcome :=
  if hasConnection ws st then Returned (closeConnection ws 1001 "Pong timeout" st)
  else Returned st.

(** The timer [t] fires: a cleared timer does not, an armed one runs its
    callback once. *)
Definition pongTimeoutFires (t : Timeout) (st : State) : Outcome :=
  match timers st !! t with
  | None => Returned st
  | Some ws => pongTimeoutCallback ws (clearTimeout t st)
  end.

(** One iteration of the heartbeat loop, for the entry of [ws].  The
    iteration of a [Map] skips an entry deleted before it is reached. *)
Definition heartbeatOne (st : State) (ws : WebSocket) : State :=
  match getConnection ws st with
  | None => st
  | Some meta =>
      if negb (isAlive meta) then closeConnection ws 1001 "Ping timeout" st
      else
        let meta1 :=
          mkMeta (id meta) (connectedAt meta) (lastActivity meta)
                 (messageCount meta) (messageWindowStart meta)
                 (pingTimeout meta) false in
        let st1 := withMetas st (<[ws := meta1]> (metas st)) in
        match sockets st1 !! ws with
        | Some sock =>
            if pingThrows sock then closeConnection ws 1011 "Ping failed" st1
            else
              let st2 :=
                withSockets st1
                  (<[ws := mkSocket (closedWith sock) (S (pings sock)) false]>
                     (sockets st1)) in
              let t := nextTimeout st2 in
              let meta2 :=
                mkMeta (id meta) (connectedAt meta) (lastActivity meta)
                       (messageCount meta) (messageWindowStart meta)
                       (Some t) false in
              withMetas (withTimers st2 (<[t := ws]> (timers st2)) (S t))
                        (<[ws := meta2]> (metas st2))
        | None => closeConnection ws 1011 "Ping failed" st1
        end
  end.

(** The callback of [pingInterval]. *)
Definition heartbeatTick (st : State) : State :=
  fold_left heartbeatOne (connections st) st.

(** One iteration of the idle check. *)
Definition idleOne (now : Z) (st : State) (ws : WebSocket) : State :=
  match getConnection ws st with
  | None => st
  | Some meta =>
      let idleTime := now - lastActivity meta in
      if IDLE_TIMEOUT_MS <? idleTime then closeConnection ws 1001 "Idle timeout" st
      else st
  end.

(** The callback of [idleCheckInterval], run at time [now]. *)
Definition idleCheckTick (now : Z) (st : State) : State :=
  fold_left (idleOne now) (connections st) st.

Definition startHeartbeat (st : State) : State :=
  mkState (metas st) (connections st) (sockets st) (controllers st) (timers st)
          (nextTimeout st) true (idleCheckInterval st).

Definition startIdleCheck (st : State) : State :=
  mkState (metas st) (connections st) (sockets st) (controllers st) (timers st)
          (nextTimeout st) (pingInterval st) true.

Definition shutdownOne (st : State) (ws : WebSocket) : State :=
  if hasConnection ws st then closeConnection ws 1001 "Server shutting down" st else st.

(** [gracefulShutdown(signal)] up to the closing of the connections; the
    listener shutdown and the forced exit are outside the model. *)
Definition gracefulShutdown (st : State) : State :=
  let st1 :=
    mkState (metas st) (connections st) (sockets st) (controllers st) (timers st)
            (nextTimeout st) false false in
  fold_left shutdownOne (connections st1) st1.

(** The state of the module when it is loaded. *)
Definition initialState : State :=
  mkState ∅ [] ∅ ∅ ∅ O false false.

(** *** What closing a connection changes *)

Lemma sockets_clearTimeout (t : Timeout) (st : State) :
  sockets (clearTimeout t st) = sockets st.
Proof. reflexivity. Qed.

Lemma closeConnection_sockets (ws : WebSocket) (code : Z) (reason : string) (st : State) :
  sockets (closeConnection ws code reason st) = sockets (wsClose ws code reason st).
Proof.
  unfold closeConnection, wsClose.
  destruct (getConnection ws st) as [meta|]; [destruct (pingTimeout meta)|]; simpl;
    (destruct (sockets st !! ws) as [sock|]; [destruct (closedWith sock)|]); reflexivity.
Qed.

Lemma closeConnection_connections (ws : WebSocket) (code : Z) (reason : string)
  (st : State) :
  connections (closeConnection ws code reason st)
  = base.filter (fun w => w <> ws) (connections st).
Proof.
  unfold closeConnection, wsClose.
  destruct (getConnection ws st) as [meta|]; [destruct (pingTimeout meta)|]; simpl;
    (destruct (sockets st !! ws) as [sock|]; [destruct (closedWith sock)|]); reflexivity.
Qed.

Lemma closeConnection_controllers (ws : WebSocket) (code : Z) (reason : string)
  (st : State) :
  controllers (closeConnection ws code reason st) = controllers st.
Proof.
  unfold closeConnection, wsClose.
  destruct (getConnection ws st) as [meta|]; [destruct (pingTimeout meta)|]; simpl;
    (destruct (sockets st !! ws) as [sock|]; [destruct (closedWith sock)|]); reflexivity.
Qed.

Lemma closeConnection_metas (ws : WebSocket) (code : Z) (reason : string) (st : State) :
  metas (closeConnection ws code reason st) = metas st.
Proof.
  unfold closeConnection, wsClose.
  destruct (getConnection ws st) as [meta|]; [destruct (pingTimeout meta)|]; simpl;
    (destruct (sockets st !! ws) as [sock|]; [destruct (closedWith sock)|]); reflexivity.
Qed.

Lemma closeConnection_unregisters (ws : WebSocket) (code : Z) (reason : string)
  (st : State) :
  ws ∉ connections (closeConnection ws code reason st).
Proof.
  rewrite closeConnection_connections. intros H.
  apply list_elem_of_filter in H as [H _]. congruence.
Qed.

Lemma wsClose_open (ws : WebSocket) (code : Z) (reason : string) (st : State)
  (sock : Socket) :
  sockets st !! ws = Some sock ->
  closedWith sock = None ->
  sockets (wsClose ws code reason st) !! ws
  = Some (mkSocket (Some (code, reason)) (pings sock) (pingThrows sock)).
Proof.
  intros Hs Ho. unfold wsClose. rewrite Hs, Ho. simpl. apply lookup_insert_eq.
Qed.

Lemma wsClose_other (ws w : WebSocket) (code : Z) (reason : string) (st : State) :
  w <> ws ->
  sockets (wsClose ws code reason st) !! w = sockets st !! w.
Proof.
  intros Hne. unfold wsClose.
  destruct (sockets st !! ws) as [sock|]; [destruct (closedWith sock)|];
    try reflexivity.
  simpl. apply lookup_insert_ne. congruence.
Qed.

Lemma controllerClose_sockets (ws : WebSocket) (st : State) :
  sockets (stateOf (controllerClose ws st)) = sockets st.
Proof.
  unfold controllerClose.
  destruct (controllers st !! ws) as [c|]; [destruct (streamState c)|]; reflexivity.
Qed.

Lemma controllerClose_connections (ws : WebSocket) (st : State) :
  connections (stateOf (controllerClose ws st)) = connections st.
Proof.
  unfold controllerClose.
  destruct (controllers st !! ws) as [c|]; [destruct (streamState c)|]; reflexivity.
Qed.

Lemma controllerClose_queue (ws : WebSocket) (st : State) (c : Controller) :
  controllers st !! ws = Some c ->
  exists c', controllers (stateOf (controllerClose ws st)) !! ws = Some c'
             /\ queue c' = queue c.
Proof.
  intros Hc. unfold controllerClose. rewrite Hc.
  destruct (streamState c); simpl.
  - eexists. split; [apply lookup_insert_eq|reflexivity].
  - exists c. auto.
  - exists c. auto.
Qed.

Lemma tryEnqueue_sockets (ws : WebSocket) (msg : json) (st : State) :
  sockets (tryEnqueue ws msg st) = sockets st.
Proof.
  unfold tryEnqueue.
  destruct (controllers st !! ws) as [c|]; [destruct (streamState c)|]; reflexivity.
Qed.

Lemma tryEnqueue_connections (ws : WebSocket) (msg : json) (st : State) :
  connections (tryEnqueue ws msg st) = connections st.
Proof.
  unfold tryEnqueue.
  destruct (controllers st !! ws) as [c|]; [destruct (streamState c)|]; reflexivity.
Qed.

Lemma tryEnqueue_metas (ws : WebSocket) (msg : json) (st : State) :
  metas (tryEnqueue ws msg st) = metas st.
Proof.
  unfold tryEnqueue.
  destruct (controllers st !! ws) as [c|]; [destruct (streamState c)|]; reflexivity.
Qed.

(** *** Close calls, by the condition that issues them *)

Inductive Condition : Type :=
| RateLimit | Overloaded | IdleTimeout | PingTimeout | PongTimeout
| Shutdown | PingFailed.

(** The arguments of [ws.close] at the call site of each condition. *)
Definition closeCall (c : Condition) : Z * string :=
  match c with
  | RateLimit => (1008, "Rate limit exceeded")
  | Overloaded => (1013, "Server overloaded")
  | IdleTimeout => (1001, "Idle timeout")
  | PingTimeout => (1001, "Ping timeout")
  | PongTimeout => (1001, "Pong timeout")
  | Shutdown => (1001, "Server shutting down")
  | PingFailed => (1011, "Ping failed")
  end.

(** Every close recorded in [s'] was already recorded in [s] or is the
    close call of one of the conditions [cs]. *)
Definition closesAs (cs : list Condition) (s s' : gmap WebSocket Socket) : Prop :=
  forall ws sock' call,
    s' !! ws = Some sock' ->
    closedWith sock' = Some call ->
    (exists sock, s !! ws = Some sock /\ closedWith sock = Some call)
    \/ (exists c, In c cs /\ call = closeCall c).

Lemma closesAs_refl (cs : list Condition) (s : gmap WebSocket Socket) :
  closesAs cs s s.
Proof. intros ws sock' call Hs Hc. left. eauto. Qed.

Lemma closesAs_trans (cs : list Condition) (s1 s2 s3 : gmap WebSocket Socket) :
  closesAs cs s1 s2 -> closesAs cs s2 s3 -> closesAs cs s1 s3.
Proof.
  intros H12 H23 ws sock' call Hs Hc.
  destruct (H23 ws sock' call Hs Hc) as [(sock & Hs2 & Hc2)|H]; [|right; exact H].
  exact (H12 ws sock call Hs2 Hc2).
Qed.

Lemma closesAs_mono (cs cs' : list Condition) (s s' : gmap WebSocket Socket) :
  (forall c, In c cs -> In c cs') -> closesAs cs s s' -> closesAs cs' s s'.
Proof.
  intros Hsub H ws sock' call Hs Hc.
  destruct (H ws sock' call Hs Hc) as [H1|(c & Hin & ->)]; [left; exact H1|].
  right. exists c. auto.
Qed.

Lemma closesAs_wsClose (c : Condition) (ws : WebSocket) (st : State) :
  closesAs [c] (sockets st)
           (sockets (wsClose ws (fst (closeCall c)) (snd (closeCall c)) st)).
Proof.
  intros w sock' call Hs Hc. unfold wsClose in Hs.
  destruct (sockets st !! ws) as [sock|] eqn:E; [|left; eauto].
  destruct (closedWith sock) eqn:Eo; [left; eauto|].
  simpl in Hs. destruct (decide (w = ws)) as [->|Hne].
  - rewrite lookup_insert_eq in Hs. injection Hs as <-. simpl in Hc.
    injection Hc as <-. right. exists c. split; [left; reflexivity|].
    destruct (closeCall c); reflexivity.
  - rewrite lookup_insert_ne in Hs by congruence. left. eauto.
Qed.

Lemma closesAs_closeConnection (c : Condition) (ws : WebSocket) (st : State) :
  closesAs [c] (sockets st)
           (sockets (closeConnection ws (fst (closeCall c)) (snd (closeCall c)) st)).
Proof. rewrite closeConnection_sockets. apply closesAs_wsClose. Qed.

Lemma closesAs_fold (cs : list Condition) (step : State -> WebSocket -> State)
  (l : list WebSocket) (st : State) :
  (forall s w, closesAs cs (sockets s) (sockets (step s w))) ->
  closesAs cs (sockets st) (sockets (fold_left step l st)).
Proof.
  intros Hstep. revert st. induction l as [|w l IH]; intros st; simpl.
  - apply closesAs_refl.
  - eapply closesAs_trans; [apply Hstep|apply IH].
Qed.

Lemma closeCall_inj (c1 c2 : Condition) : closeCall c1 = closeCall c2 -> c1 = c2.
Proof. destruct c1, c2; simpl; intros H; try reflexivity; discriminate H. Qed.

Lemma closesAs_idleOne (now : Z) (st : State) (ws : WebSocket) :
  closesAs [IdleTimeout] (sockets st) (sockets (idleOne now st ws)).
Proof.
  unfold idleOne. destruct (getConnection ws st) as [meta|]; [|apply closesAs_refl].
  destruct (IDLE_TIMEOUT_MS <? now - lastActivity meta); [|apply closesAs_refl].
  apply (closesAs_closeConnection IdleTimeout).
Qed.

Lemma closesAs_shutdownOne (st : State) (ws : WebSocket) :
  closesAs [Shutdown] (sockets st) (sockets (shutdownOne st ws)).
Proof.
  unfold shutdownOne. destruct (hasConnection ws st); [|apply closesAs_refl].
  apply (closesAs_closeConnection Shutdown).
Qed.

Lemma closesAs_heartbeatOne (st : State) (ws : WebSocket) :
  closesAs [PingTimeout; PingFailed] (sockets st) (sockets (heartbeatOne st ws)).
Proof.
  unfold heartbeatOne. destruct (getConnection ws st) as [meta|]; [|apply closesAs_refl].
  destruct (negb (isAlive meta)).
  - eapply closesAs_mono; [|apply (closesAs_closeConnection PingTimeout)].
    intros c [<-|[]]. left. reflexivity.
  - set (st1 := withMetas st _).
    change (sockets st) with (sockets st1).
    destruct (sockets st1 !! ws) as [sock|] eqn:Es.
    + destruct (pingThrows sock).
      * eapply closesAs_mono; [|apply (closesAs_closeConnection PingFailed)].
        intros c [<-|[]]. right. left. reflexivity.
      * simpl. intros w sock' call Hs Hc.
        destruct (decide (w = ws)) as [->|Hne].
        -- rewrite lookup_insert_eq in Hs. injection Hs as <-. simpl in Hc.
           left. exists sock. auto.
        -- rewrite lookup_insert_ne in Hs by congruence. left. eauto.
    + eapply closesAs_mono; [|apply (closesAs_closeConnection PingFailed)].
      intros c [<-|[]]. right. left. reflexivity.
Qed.

(** *** The message listener *)

Section MessageFacts.
Context {R : Runtime}.

(** A frame that parses to a JSON value whose [type] is ['ping'] or
    ['pong']. *)
Definition controlFrame (data : string) : Prop :=
  exists msg, JSON_parse data = Some msg /\ isControl msg = true.

(** The meta object after [meta.lastActivity = new Date()]. *)
Definition touch (meta : ConnectionMeta) (now : Z) : ConnectionMeta :=
  mkMeta (id meta) (connectedAt meta) now (messageCount meta)
         (messageWindowStart meta) (pingTimeout meta) (isAlive meta).

(** Feeding the frames [(now, data)], in order, to the listener of [ws]. *)
Definition deliver (ws : WebSocket) (frames : list (Z * string)) (st : State)
  : State :=
  fold_left (fun st f => stateOf (onMessage ws (fst f) (snd f) st)) frames st.

Lemma onMessage_unfold (ws : WebSocket) (now : Z) (data : string) (st : State)
  (meta : ConnectionMeta) :
  metas st !! ws = Some meta ->
  onMessage ws now data st =
  let st1 := withMetas st (<[ws := snd (isRateLimited (touch meta now) now)]> (metas st)) in
  if fst (isRateLimited (touch meta now) now) then
    controllerClose ws (closeConnection ws 1008 "Rate limit exceeded" st1)
  else
    match JSON_parse data with
    | None => Returned st1
    | Some msg =>
        if isControl msg then Returned st1 else Returned (tryEnqueue ws msg st1)
    end.
Proof.
  intros Hm. unfold onMessage. rewrite Hm. fold (touch meta now).
  destruct (isRateLimited (touch meta now) now) as [limited meta2]. reflexivity.
Qed.


Lemma isRateLimited_count (meta : ConnectionMeta) (now : Z) :
  now - messageWindowStart meta <= RATE_LIMIT_WINDOW_MS ->
  isRateLimited meta now
  = (RATE_LIMIT_MESSAGES <? messageCount meta + 1,
     mkMeta (id meta) (connectedAt meta) (lastActivity meta) (messageCount meta + 1)
            (messageWindowStart meta) (pingTimeout meta) (isAlive meta)).
Proof.
  intros H. unfold isRateLimited. apply Z.ltb_ge in H. rewrite H. reflexivity.
Qed.

(** A frame over the limit: the connection is closed for policy
    violation and nothing is enqueued. *)
Lemma onMessage_over_limit (ws : WebSocket) (now : Z) (data : string) (st : State)
  (meta : ConnectionMeta) :
  metas st !! ws = Some meta ->
  now - messageWindowStart meta <= RATE_LIMIT_WINDOW_MS ->
  RATE_LIMIT_MESSAGES < messageCount meta + 1 ->
  (ws ∉ connections (stateOf (onMessage ws now data st)))
  /\ (forall sock, sockets st !! ws = Some sock -> closedWith sock = None ->
        exists sock', sockets (stateOf (onMessage ws now data st)) !! ws = Some sock'
                      /\ closedWith sock' = Some (1008, "Rate limit exceeded"))
  /\ (forall c, controllers st !! ws = Some c ->
        exists c', controllers (stateOf (onMessage ws now data st)) !! ws = Some c'
                   /\ queue c' = queue c).
Proof.
  intros Hm Hwin Hlim. rewrite (onMessage_unfold ws now data st meta Hm).
  rewrite (isRateLimited_count (touch meta now) now Hwin).
  cbn [fst snd touch messageCount]. apply Z.ltb_lt in Hlim. rewrite Hlim.
  cbv zeta. set (st1 := withMetas st _).
  split; [|split].
  - rewrite controllerClose_connections. apply closeConnection_unregisters.
  - intros sock Hs Ho. rewrite controllerClose_sockets, closeConnection_sockets.
    eexists. split; [apply (wsClose_open ws _ _ st1 sock Hs Ho)|reflexivity].
  - intros c Hc. apply controllerClose_queue.
    rewrite closeConnection_controllers. exact Hc.
Qed.

(** A control frame under the limit only updates the meta object. *)
Lemma onMessage_control_counted (ws : WebSocket) (now : Z) (data : string)
  (st : State) (meta : ConnectionMeta) :
  metas st !! ws = Some meta ->
  controlFrame data ->
  now - messageWindowStart meta <= RATE_LIMIT_WINDOW_MS ->
  messageCount meta + 1 <= RATE_LIMIT_MESSAGES ->
  onMessage ws now data st
  = Returned (withMetas st
                (<[ws := mkMeta (id meta) (connectedAt meta) now
                                (messageCount meta + 1) (messageWindowStart meta)
                                (pingTimeout meta) (isAlive meta)]> (metas st))).
Proof.
  intros Hm (msg & Hp & Hc) Hwin Hlim.
  rewrite (onMessage_unfold ws now data st meta Hm).
  rewrite (isRateLimited_count (touch meta now) now Hwin).
  cbn [fst snd touch messageCount messageWindowStart id connectedAt lastActivity
       pingTimeout isAlive].
  apply Z.ltb_ge in Hlim. rewrite Hlim, Hp, Hc. reflexivity.
Qed.

(** Control frames inside the window, as long as the limit is not
    exceeded, are counted and leave sockets, registry and streams alone. *)
Lemma deliver_control_counted (ws : WebSocket) (frames : list (Z * string)) :
  forall (st : State) (meta : ConnectionMeta),
    metas st !! ws = Some meta ->
    (forall f, In f frames ->
       controlFrame (snd f) /\ fst f - messageWindowStart meta <= RATE_LIMIT_WINDOW_MS) ->
    messageCount meta + Z.of_nat (length frames) <= RATE_LIMIT_MESSAGES ->
    exists meta',
      metas (deliver ws frames st) !! ws = Some meta'
      /\ messageCount meta' = messageCount meta + Z.of_nat (length frames)
      /\ messageWindowStart meta' = messageWindowStart meta
      /\ sockets (deliver ws frames st) = sockets st
      /\ connections (deliver ws frames st) = connections st
      /\ controllers (deliver ws frames st) = controllers st.
Proof.
  induction frames as [|[now data] frames IH]; intros st meta Hm Hall Hlim.
  - exists meta. simpl. rewrite Z.add_0_r. repeat split; auto.
  - destruct (Hall (now, data) (or_introl eq_refl)) as [Hc Hw]. simpl in Hc, Hw.
    cbn [length] in Hlim. rewrite Nat2Z.inj_succ in Hlim.
    unfold deliver. cbn [fold_left fst snd].
    rewrite (onMessage_control_counted ws now data st meta Hm Hc Hw) by lia.
    cbn [stateOf]. set (meta1 := mkMeta _ _ _ _ _ _ _). set (st1 := withMetas st _).
    destruct (IH st1 meta1) as (meta' & H1 & H2 & H3 & H4 & H5 & H6).
    + apply lookup_insert_eq.
    + intros f Hf. apply Hall. right. exact Hf.
    + unfold meta1. simpl. lia.
    + exists meta'. fold (deliver ws frames st1).
      split; [exact H1|]. split; [rewrite H2; unfold meta1; cbn [length messageCount];
                                   rewrite Nat2Z.inj_succ; lia|].
      split; [rewrite H3; reflexivity|]. auto.
Qed.

End MessageFacts.

Section Claims.
Context {R : Runtime}.

Lemma controllerClose_metas (ws : WebSocket) (st : State) :
  metas (stateOf (controllerClose ws st)) = metas st.
Proof.
  unfold controllerClose.
  destruct (controllers st !! ws) as [c|]; [destruct (streamState c)|]; reflexivity.
Qed.

Lemma onMessage_metas (ws : WebSocket) (now : Z) (data : string) (st : State)
  (meta : ConnectionMeta) :
  metas st !! ws = Some meta ->
  metas (stateOf (onMessage ws now data st)) !! ws
  = Some (snd (isRateLimited (touch meta now) now)).
Proof.
  intros Hm. rewrite (onMessage_unfold ws now data st meta Hm). cbv zeta.
  destruct (fst (isRateLimited (touch meta now) now)).
  - rewrite controllerClose_metas, closeConnection_metas. apply lookup_insert_eq.
  - destruct (JSON_parse data) as [msg|]; [destruct (isControl msg)|];
      cbn [stateOf]; rewrite ?tryEnqueue_metas; apply lookup_insert_eq.
Qed.

Lemma onMessage_control_queue (ws : WebSocket) (now : Z) (data : string)
  (st : State) (meta : ConnectionMeta) (c : Controller) :
  metas st !! ws = Some meta ->
  controlFrame data ->
  controllers st !! ws = Some c ->
  exists c', controllers (stateOf (onMessage ws now data st)) !! ws = Some c'
             /\ queue c' = queue c.
Proof.
  intros Hm (msg & Hp & Hc) Hctl.
  rewrite (onMessage_unfold ws now data st meta Hm). cbv zeta.
  destruct (fst (isRateLimited (touch meta now) now)).
  - apply controllerClose_queue. rewrite closeConnection_controllers. exact Hctl.
  - rewrite Hp, Hc. exists c. auto.
Qed.


(** C10.  A frame that parses to a JSON value of type ['ping'] or
    ['pong'] refreshes the last-activity time and is counted in the rate
    window like any other frame, and it is never enqueued; so a run of
    such frames inside one window that takes the counter past the limit
    closes an open socket with code 1008 although the bridge's inbound
    queue is exactly what it was before the run. *)
Theorem control_frames_are_rate_limited (ws : WebSocket) (st : State)
  (meta : ConnectionMeta) :
  metas st !! ws = Some meta ->
  (forall now data,
      controlFrame data ->
      (exists meta',
          metas (stateOf (onMessage ws now data st)) !! ws = Some meta'
          /\ lastActivity meta' = now
          /\ messageCount meta'
             = if RATE_LIMIT_WINDOW_MS <? now - messageWindowStart meta then 1
               else messageCount meta + 1)
      /\ (forall c, controllers st !! ws = Some c ->
            exists c',
              controllers (stateOf (onMessage ws now data st)) !! ws = Some c'
              /\ queue c' = queue c))
  /\ (forall frames sock c,
        (forall f, In f frames ->
           controlFrame (snd f)
           /\ fst f - messageWindowStart meta <= RATE_LIMIT_WINDOW_MS) ->
        messageCount meta <= RATE_LIMIT_MESSAGES ->
        messageCount meta + Z.of_nat (length frames) = RATE_LIMIT_MESSAGES + 1 ->
        sockets st !! ws = Some sock -> closedWith sock = None ->
        controllers st !! ws = Some c ->
        (exists sock', sockets (deliver ws frames st) !! ws = Some sock'
                       /\ closedWith sock' = Some (1008, "Rate limit exceeded"))
        /\ (exists c', controllers (deliver ws frames st) !! ws = Some c'
                       /\ queue c' = queue c)
        /\ (ws ∉ connections (deliver ws frames st))).
Proof.
  intros Hm. split.
  - intros now data Hc. split.
    + eexists. split; [apply (onMessage_metas ws now data st meta Hm)|].
      unfold isRateLimited, touch. cbn [messageWindowStart messageCount].
      destruct (RATE_LIMIT_WINDOW_MS <? now - messageWindowStart meta);
        split; reflexivity.
    + intros c Hctl. exact (onMessage_control_queue ws now data st meta c Hm Hc Hctl).
  - intros frames sock c Hall Hle Hlen Hs Ho Hctl.
    assert (Hne : frames <> []) by (intros ->; simpl in Hlen; lia).
    destruct (exists_last Hne) as (init & [now data] & ->).
    rewrite length_app, Nat2Z.inj_add in Hlen. cbn [length] in Hlen.
    unfold deliver. rewrite fold_left_app. fold (deliver ws init st).
    cbn [fold_left fst snd].
    destruct (deliver_control_counted ws init st meta Hm) as
      (meta' & H1 & H2 & H3 & H4 & H5 & H6).
    { intros f Hf. apply Hall, in_or_app. left. exact Hf. }
    { lia. }
    destruct (Hall (now, data)) as [_ Hw]; [apply in_or_app; right; left; reflexivity|].
    cbn [fst] in Hw. rewrite <- H3 in Hw.
    destruct (onMessage_over_limit ws now data (deliver ws init st) meta' H1 Hw)
      as (Hu & Hsock & Hq); [lia|].
    split; [|split].
    + apply (Hsock sock); [rewrite H4; exact Hs|exact Ho].
    + apply Hq. rewrite H6. exact Hctl.
    + exact Hu.
Qed.

(** C9.  The callback of a pong timeout whose socket is no longer in the
    registry returns normally and leaves the whole state, hence every
    socket and the registry, unchanged; and when an armed timer of such a
    socket fires, all that changes is that the timer is no longer armed. *)
Theorem pong_timeout_after_removal_is_noop (ws : WebSocket) (st : State) :
  ws ∉ connections st ->
  pongTimeoutCallback ws st = Returned st
  /\ (forall t, timers st !! t = Some ws ->
        exists st', pongTimeoutFires t st = Returned st'
                    /\ sockets st' = sockets st
                    /\ connections st' = connections st
                    /\ metas st' = metas st
                    /\ controllers st' = controllers st).
Proof.
  intros Hnot. split.
  - unfold pongTimeoutCallback, hasConnection.
    rewrite bool_decide_eq_false_2 by exact Hnot. reflexivity.
  - intros t Ht. exists (clearTimeout t st).
    unfold pongTimeoutFires, pongTimeoutCallback, hasConnection. rewrite Ht.
    cbn [connections clearTimeout withTimers].
    rewrite bool_decide_eq_false_2 by exact Hnot. repeat split; reflexivity.
Qed.

(** Removing a connection also disarms its pong timer, so after the idle
    check has closed [ws] neither the callback nor the timer can act. *)
Lemma closeConnection_clears_timer (ws : WebSocket) (code : Z) (reason : string)
  (st : State) (meta : ConnectionMeta) (t : Timeout) :
  getConnection ws st = Some meta ->
  pingTimeout meta = Some t ->
  timers (closeConnection ws code reason st) !! t = None.
Proof.
  intros Hg Ht. unfold closeConnection. rewrite Hg, Ht. unfold wsClose.
  cbn [sockets deleteConnection withConnections clearTimeout withTimers].
  destruct (sockets st !! ws) as [sock|]; [destruct (closedWith sock)|];
    cbn [timers withSockets]; apply lookup_delete_eq.
Qed.

(** C1 (as amended).  Each closing path issues the close call of its
    condition and no other: the message listener that of the rate limit
    (1008), admission that of the overloaded server (1013), the idle check
    that of the idle timeout, the heartbeat those of the ping timeout and
    of a failed ping (1011), the pong-timeout callback that of the pong
    timeout, and the shutdown that of the shutdown.  Idle timeout, ping
    timeout, pong timeout and shutdown, and only they, close with code
    1001; the rate-limit and overload codes differ from each other and
    from 1001; and the call as a whole, code and reason, determines the
    condition. *)
Theorem close_calls_by_condition :
  (forall ws now data st,
      closesAs [RateLimit] (sockets st) (sockets (stateOf (onMessage ws now data st))))
  /\ (forall ws connId now st,
        closesAs [Overloaded] (<[ws := mkSocket None 0 false]> (sockets st))
                 (sockets (stateOf (onConnection ws connId now st))))
  /\ (forall now st, closesAs [IdleTimeout] (sockets st) (sockets (idleCheckTick now st)))
  /\ (forall st,
        closesAs [PingTimeout; PingFailed] (sockets st) (sockets (heartbeatTick st)))
  /\ (forall ws st,
        closesAs [PongTimeout] (sockets st) (sockets (stateOf (pongTimeoutCallback ws st))))
  /\ (forall st, closesAs [Shutdown] (sockets st) (sockets (gracefulShutdown st)))
  /\ (forall c, fst (closeCall c) = 1001
                <-> In c [IdleTimeout; PingTimeout; PongTimeout; Shutdown])
  /\ fst (closeCall RateLimit) = 1008
  /\ fst (closeCall Overloaded) = 1013
  /\ (forall c1 c2, closeCall c1 = closeCall c2 -> c1 = c2).
Proof.
  split; [|split; [|split; [|split; [|split; [|split; [|split; [|split; [|split]]]]]]]].
  - intros ws now data st. unfold onMessage.
    destruct (metas st !! ws) as [meta|]; [|apply closesAs_refl].
    destruct (isRateLimited _ now) as [limited meta2].
    set (st1 := withMetas st _). change (sockets st) with (sockets st1).
    destruct limited.
    + rewrite controllerClose_sockets. apply (closesAs_closeConnection RateLimit).
    + destruct (JSON_parse data) as [msg|]; [destruct (isControl msg)|];
        cbn [stateOf]; rewrite ?tryEnqueue_sockets; apply closesAs_refl.
  - intros ws connId now st. unfold onConnection.
    set (st0 := withSockets st _).
    change (<[ws := mkSocket None 0 false]> (sockets st)) with (sockets st0).
    destruct (MAX_CONNECTIONS <=? Z.of_nat (length (connections st0))).
    + apply (closesAs_wsClose Overloaded).
    + cbn [stateOf]. unfold setConnection. destruct (hasConnection ws _); apply closesAs_refl.
  - intros now st. apply closesAs_fold. intros s w. apply closesAs_idleOne.
  - intros st. apply closesAs_fold. intros s w. apply closesAs_heartbeatOne.
  - intros ws st. unfold pongTimeoutCallback.
    destruct (hasConnection ws st); [|apply closesAs_refl].
    apply (closesAs_closeConnection PongTimeout).
  - intros st. unfold gracefulShutdown.
    apply (closesAs_fold [Shutdown] shutdownOne (connections st)
             (mkState (metas st) (connections st) (sockets st) (controllers st)
                      (timers st) (nextTimeout st) false false)).
    intros s w. apply closesAs_shutdownOne.
  - intros c. destruct c; simpl; split; intros H; try discriminate H; try tauto;
      repeat (destruct H as [H|H]; try discriminate H); try destruct H.
  - reflexivity.
  - reflexivity.
  - exact closeCall_inj.
Qed.

End Claims.

(** *** The claims on concrete runs *)

#[local] Existing Instance Node.runtime.

Definition ws1 : WebSocket := 1%nat.

(** One connection, accepted at time 0. *)
Definition connected : State :=
  stateOf (onConnection ws1 "conn_1" 0 initialState).

Definition meta0 : ConnectionMeta := mkMeta "conn_1" 0 0 0 0 None true.

Lemma connected_meta : metas connected !! ws1 = Some meta0.
Proof. vm_compute. reflexivity. Qed.

(** The same connection after 100 messages in its first window. *)
Definition meta100 : ConnectionMeta := mkMeta "conn_1" 0 1000 100 0 None true.

Definition busy : State :=
  mkState {[ws1 := meta100]} [ws1] {[ws1 := mkSocket None 0 false]}
          {[ws1 := mkController [] Readable]} ∅ O true true.

Definition promptFrame : string :=
  Node.dq "{'jsonrpc':'2.0','id':7,'method':'session/prompt'}".

Definition pingFrame : string := Node.dq "{'type':'ping'}".


(** The 101st message of the window closes the socket and is dropped;
    the first message after the window is delivered. *)
Example message_over_limit_is_dropped :
  sockets (stateOf (onMessage ws1 2000 promptFrame busy)) !! ws1
  = Some (mkSocket (Some (1008, "Rate limit exceeded")) 0 false)
  /\ (queue <$> controllers (stateOf (onMessage ws1 2000 promptFrame busy)) !! ws1)
     = Some [].
Proof. split; vm_compute; reflexivity. Qed.

Example message_after_window_is_delivered :
  (messageCount <$> metas (stateOf (onMessage ws1 70000 promptFrame busy)) !! ws1)
  = Some 1
  /\ (length <$> (queue <$> controllers (stateOf (onMessage ws1 70000 promptFrame busy)) !! ws1))
     = Some 1%nat
  /\ (closedWith <$> sockets (stateOf (onMessage ws1 70000 promptFrame busy)) !! ws1)
     = Some None.
Proof. repeat split; vm_compute; reflexivity. Qed.

Lemma pingFrame_control : controlFrame pingFrame.
Proof. eexists. split; vm_compute; reflexivity. Qed.

Lemma control_frames_are_rate_limited_witness :
  exists sock',
    sockets (deliver ws1 (repeat (1000, pingFrame) 101) connected) !! ws1 = Some sock'
    /\ closedWith sock' = Some (1008, "Rate limit exceeded").
Proof.
  refine (proj1 (proj2 (control_frames_are_rate_limited ws1 connected meta0 _)
                       (repeat (1000, pingFrame) 101)
                       (mkSocket None 0 false) (mkController [] Readable)
                       _ _ _ _ _ _)).
  - vm_compute. reflexivity.
  - intros f Hf. apply repeat_spec in Hf. subst f. split.
    + exact pingFrame_control.
    + vm_compute. discriminate.
  - vm_compute. discriminate.
  - vm_compute. reflexivity.
  - vm_compute. reflexivity.
  - reflexivity.
  - vm_compute. reflexivity.
Defined.

(** 101 JSON pings inside one window: the socket is closed for policy
    violation and the bridge has received nothing. *)
Example pings_alone_trigger_the_rate_limit :
  sockets (deliver ws1 (repeat (1000, pingFrame) 101) connected) !! ws1
  = Some (mkSocket (Some (1008, "Rate limit exceeded")) 0 false)
  /\ (queue <$> controllers (deliver ws1 (repeat (1000, pingFrame) 101) connected) !! ws1)
     = Some []
  /\ connections (deliver ws1 (repeat (1000, pingFrame) 101) connected) = [].
Proof. repeat split; vm_compute; reflexivity. Qed.

(** The connection after a heartbeat at which it was alive: the pong
    timer 0 is armed.  Then the idle check, 400 seconds after the last
    activity, removes the connection. *)
Definition probed : State := heartbeatTick connected.

Definition evicted : State := idleCheckTick 400000 probed.

Lemma evicted_unregistered : ws1 ∉ connections evicted.
Proof. apply (bool_decide_unpack _). vm_compute. exact I. Defined.

Lemma pong_timeout_after_removal_is_noop_witness :
  pongTimeoutCallback ws1 evicted = Returned evicted.
Proof.
  exact (proj1 (pong_timeout_after_removal_is_noop ws1 evicted evicted_unregistered)).
Defined.

Example pong_timer_disarmed_by_idle_check :
  timers probed !! O = Some ws1
  /\ timers evicted !! O = None
  /\ pongTimeoutFires O evicted = Returned evicted.
Proof. repeat split; vm_compute; reflexivity. Qed.

(** C1 as stated fails: the idle check and the shutdown close the same
    connection with the same code, 1001. *)
Lemma idle_and_shutdown_share_close_code :
  (closedWith <$> sockets (idleCheckTick 400000 connected) !! ws1)
  = Some (Some (1001, "Idle timeout"))
  /\ (closedWith <$> sockets (gracefulShutdown connected) !! ws1)
     = Some (Some (1001, "Server shutting down"))
  /\ fst (closeCall IdleTimeout) = fst (closeCall Shutdown).
Proof. repeat split; vm_compute; reflexivity. Qed.

(** The other two conditions that share the code. *)
Example ping_and_pong_timeout_share_close_code :
  (closedWith <$> sockets (heartbeatTick probed) !! ws1)
  = Some (Some (1001, "Ping timeout"))
  /\ (closedWith <$> sockets (stateOf (pongTimeoutFires O probed)) !! ws1)
     = Some (Some (1001, "Pong timeout")).
Proof. repeat split; vm_compute; reflexivity. Qed.

(** Admission: the eleventh concurrent connection is rejected with 1013
    and the registry keeps its ten entries. *)
Definition full : State :=
  fold_left (fun st w => stateOf (onConnection w "conn" 0 st)) (seq 1 10) initialState.

Example eleventh_connection_rejected :
  connections (stateOf (onConnection 11%nat "conn" 5 full)) = seq 1 10
  /\ (closedWith <$> sockets (stateOf (onConnection 11%nat "conn" 5 full)) !! 11%nat)
     = Some (Some (1013, "Server overloaded")).
Proof. repeat split; vm_compute; reflexivity. Qed.

End Ws.

(* ===================================================================== *)
(** ** The session directory, continued                                   *)
(* ===================================================================== *)

Module Directory.

Import PiSessions.

Section WithRuntime.
Context {R : Runtime}.

(** The first line of [f] is a session header naming [sid] and [dir]:
    it is not blank and parses to an object of type [session] whose [id]
    and [cwd] are these non-empty strings. *)
Definition headerOf (f : File) (sid dir : string) : Prop :=
  firstLine f <> EmptyString
  /\ exists obj,
       JSON_parse (firstLine f) = Some obj
       /\ prop (Some obj) "type" = Some (JStr "session")
       /\ prop (Some obj) "id" = Some (JStr sid)
       /\ prop (Some obj) "cwd" = Some (JStr dir)
       /\ sid <> EmptyString /\ dir <> EmptyString.

Lemma readFirstLine_cases (f : File) :
  readFirstLine f = if isEmpty (data f) then None else Some (firstLine f).
Proof.
  destruct (readFirstLine f) as [first|] eqn:E.
  - rewrite (readFirstLine_firstLine f first E) in *.
    destruct (data f) as [|c r] eqn:Ed; [|reflexivity].
    unfold readFirstLine, readSync in E. rewrite Ed in E. discriminate E.
  - destruct (data f) as [|c r] eqn:Ed; [reflexivity|].
    unfold readFirstLine, readSync in E. rewrite Ed in E.
    change (takeZ DEFAULT_HEAD_BYTES (dropZ 0 (String c r)))
      with (String c (takeZ (DEFAULT_HEAD_BYTES - 1) r)) in E.
    cbn [String.length] in E.
    destruct (Z.of_nat (S (String.length (takeZ (DEFAULT_HEAD_BYTES - 1) r))) <=? 0)
      eqn:E0; [apply Z.leb_le in E0; lia|].
    destruct (indexOfLF (String c (takeZ (DEFAULT_HEAD_BYTES - 1) r))); discriminate E.
Qed.

Lemma parseSessionHeader_iff (first sid dir : string) :
  parseSessionHeader first = Some (sid, dir) <->
  exists obj,
    JSON_parse first = Some obj
    /\ prop (Some obj) "type" = Some (JStr "session")
    /\ prop (Some obj) "id" = Some (JStr sid)
    /\ prop (Some obj) "cwd" = Some (JStr dir)
    /\ sid <> EmptyString /\ dir <> EmptyString.
Proof.
  unfold parseSessionHeader. destruct (JSON_parse first) as [obj|].
  2:{ split; [discriminate|intros (o & H & _); discriminate]. }
  destruct (isStr (prop (Some obj) "type") "session") eqn:Et; cbn [negb].
  2:{ apply isStr_false in Et. split; [discriminate|].
      intros (o & [= <-] & Ht & _). congruence. }
  apply isStr_true in Et.
  destruct (asString (prop (Some obj) "id")) as [i|] eqn:Ei.
  2:{ cbn [falsy orb]. split; [discriminate|].
      intros (o & [= <-] & _ & Hi & _). rewrite Hi in Ei. discriminate. }
  destruct (asString (prop (Some obj) "cwd")) as [c|] eqn:Ec.
  2:{ cbn [falsy]. rewrite orb_true_r. split; [discriminate|].
      intros (o & [= <-] & _ & _ & Hc & _). rewrite Hc in Ec. discriminate. }
  apply asString_Some in Ei, Ec. cbn [falsy].
  destruct (isEmpty i) eqn:Eei; cbn [orb].
  { apply isEmpty_true in Eei. split; [discriminate|].
    intros (o & [= <-] & _ & Hi & _ & Hne & _). congruence. }
  destruct (isEmpty c) eqn:Eec.
  { apply isEmpty_true in Eec. split; [discriminate|].
    intros (o & [= <-] & _ & _ & Hc & _ & Hne). congruence. }
  apply isEmpty_false in Eei, Eec. split.
  - intros [= <- <-]. exists obj. auto 10.
  - intros (o & [= <-] & _ & Hi & Hc & _). congruence.
Qed.

(** A file is listed exactly when its first line is a session header
    with a non-empty string [id] and [cwd]; the entry then carries that
    [id], that [cwd] and the path of the file.  A header without [cwd],
    with an empty [id], or with a number for [id] yields no entry. *)
Theorem listed_iff_session_header (f : File) :
  (forall e, sessionItem f = Some e ->
     headerOf f (sessionId e) (cwd e) /\ sessionFile e = path f)
  /\ (forall sid dir, headerOf f sid dir ->
        exists e, sessionItem f = Some e /\ sessionId e = sid /\ cwd e = dir).
Proof.
  split.
  - intros e He.
    destruct (sessionItem_inv f e He) as (_ & _ & Hp & first & Hf & Hne & Hh).
    pose proof (readFirstLine_firstLine f first Hf) as ->.
    split; [|exact Hp]. split; [apply isEmpty_false; exact Hne|].
    apply parseSessionHeader_iff. exact Hh.
  - intros sid dir (Hne & Hobj).
    apply parseSessionHeader_iff in Hobj.
    assert (Hd : isEmpty (data f) = false).
    { destruct (data f) eqn:Ed; [|reflexivity]. exfalso. apply Hne.
      unfold firstLine, readSync. rewrite Ed. reflexivity. }
    unfold sessionItem. rewrite readFirstLine_cases, Hd.
    apply isEmpty_false in Hne. rewrite Hne, Hobj.
    destruct (readTail f); eexists; (split; [reflexivity|split; reflexivity]).
Qed.

(** The listing holds the paths of exactly the files that yield an
    entry, each as often as the walk found it: sorting neither drops nor
    duplicates an entry. *)
Theorem listing_paths_are_valid_files (files : list File) :
  Permutation (map sessionFile (listPiSessions files))
              (map path (List.filter (fun f => bool_decide (is_Some (sessionItem f))) files))
  /\ (length (listPiSessions files) <= length files)%nat.
Proof.
  assert (Hp : Permutation (listPiSessions files) (omap sessionItem files))
    by apply sortItems_perm.
  split.
  - rewrite Hp. clear Hp. induction files as [|f files IH]; [reflexivity|].
    cbn [omap list_omap List.filter].
    destruct (sessionItem f) as [e|] eqn:E.
    + rewrite bool_decide_eq_true_2 by eauto. cbn [map].
      rewrite (proj1 (proj2 (proj2 (sessionItem_inv f e E)))).
      apply perm_skip. exact IH.
    + rewrite bool_decide_eq_false_2 by (intros [x Hx]; discriminate). exact IH.
  - rewrite (Permutation_length Hp). clear Hp.
    induction files as [|f files IH]; [reflexivity|].
    cbn [omap list_omap]. destruct (sessionItem f); cbn [length]; lia.
Qed.

(** The sort key of an entry: [updatedAt ?? '']. *)
Definition sortKey (e : PiSessionListItem) : string :=
  default EmptyString (updatedAt e).

Lemma insertItem_sorted (x : PiSessionListItem) (l : list PiSessionListItem) :
  (forall a b, 0 < String_localeCompare a b -> String_localeCompare b a <= 0) ->
  (forall a b c, String_localeCompare a b <= 0 -> String_localeCompare b c <= 0 ->
                 String_localeCompare a c <= 0) ->
  StronglySorted (fun a b => String_localeCompare (sortKey b) (sortKey a) <= 0) l ->
  StronglySorted (fun a b => String_localeCompare (sortKey b) (sortKey a) <= 0)
                 (insertItem x l).
Proof.
  intros Htot Htrans Hs. induction Hs as [|y l Hs IH Hy]; cbn [insertItem].
  - constructor; constructor.
  - fold (sortKey y). unfold compareItems. fold (sortKey x) (sortKey y).
    destruct (String_localeCompare (sortKey x) (sortKey y) <=? 0) eqn:E.
    + apply Z.leb_le in E. constructor; [exact IH|].
      apply Forall_forall. intros z Hz.
      apply (Permutation_in _ (insertItem_perm x l)) in Hz.
      destruct Hz as [<-|Hz]; [exact E|].
      rewrite Forall_forall in Hy. apply Hy. exact Hz.
    + apply Z.leb_gt in E. apply Htot in E.
      constructor; [constructor; assumption|].
      constructor; [exact E|].
      apply Forall_forall. intros z Hz. rewrite Forall_forall in Hy.
      exact (Htrans _ _ _ (Hy z Hz) E).
Qed.

(** When [localeCompare] orders strings (it is total and transitive),
    the listing is in descending order of [updatedAt ?? '']: no entry is
    followed, at any distance, by one whose key compares greater. *)
Theorem listing_sorted_most_recent_first (files : list File) :
  (forall a b, 0 < String_localeCompare a b -> String_localeCompare b a <= 0) ->
  (forall a b c, String_localeCompare a b <= 0 -> String_localeCompare b c <= 0 ->
                 String_localeCompare a c <= 0) ->
  StronglySorted (fun a b => String_localeCompare (sortKey b) (sortKey a) <= 0)
                 (listPiSessions files).
Proof.
  intros Htot Htrans. unfold listPiSessions, sortItems.
  assert (H : forall acc,
             StronglySorted (fun a b => String_localeCompare (sortKey b) (sortKey a) <= 0) acc ->
             StronglySorted (fun a b => String_localeCompare (sortKey b) (sortKey a) <= 0)
               (fold_left (fun acc x => insertItem x acc) (omap sessionItem files) acc)).
  { induction (omap sessionItem files) as [|x l IH]; intros acc Hacc; cbn [fold_left].
    - exact Hacc.
    - apply IH. apply insertItem_sorted; assumption. }
  apply H. constructor.
Qed.

End WithRuntime.

Section MoreFacts.
Context {R : Runtime}.

(** [findPiSessionFile] finds a path exactly when some file yields an
    entry with the requested id, and the path it returns is the path of
    such a file. *)
Theorem findPiSessionFile_finds_listed_session (files : list File) (sid : string) :
  (forall p, findPiSessionFile files sid = Some p ->
     exists f e, In f files /\ sessionItem f = Some e
                 /\ sessionId e = sid /\ path f = p)
  /\ (findPiSessionFile files sid = None <->
      forall f e, In f files -> sessionItem f = Some e -> sessionId e <> sid).
Proof.
  unfold findPiSessionFile. split.
  - intros p Hp.
    destruct (List.find _ (listPiSessions files)) as [e|] eqn:E; [|discriminate].
    cbn in Hp. injection Hp as <-.
    apply find_some in E as [Hin Heq]. apply String.eqb_eq in Heq.
    apply In_listPiSessions in Hin as (f & Hf & Hs).
    exists f, e. split; [exact Hf|]. split; [exact Hs|]. split; [exact Heq|].
    symmetry. exact (proj1 (proj2 (proj2 (sessionItem_inv f e Hs)))).
  - destruct (List.find _ (listPiSessions files)) as [e|] eqn:E; cbn; split.
    + discriminate.
    + intros H. exfalso. apply find_some in E as [Hin Heq].
      apply String.eqb_eq in Heq.
      apply In_listPiSessions in Hin as (f & Hf & Hs). exact (H f e Hf Hs Heq).
    + intros _ f e Hf Hs Heq.
      pose proof (find_none _ _ E e) as Hn. cbv beta in Hn.
      rewrite (proj2 (String.eqb_eq _ _) Heq) in Hn.
      assert (In e (listPiSessions files)) by (apply In_listPiSessions; eauto).
      specialize (Hn H). discriminate.
    + reflexivity.
Qed.


Lemma userMessageTitle_length (line t : string) :
  userMessageTitle line = Some t -> (String.length t <= 80)%nat.
Proof.
  unfold userMessageTitle. destruct (JSON_parse line) as [obj|]; [|discriminate].
  destruct (_ && _); [|discriminate].
  destruct (prop (prop (Some obj) "message") "content") as [[|b|n|c|parts|m]|];
    try discriminate.
  - intros H. assert (E : slice0 80 c = t) by congruence.
    rewrite <- E, slice0_length. lia.
  - destruct (asString _) as [text|]; [|discriminate].
    destruct (isEmpty text); [discriminate|].
    intros H. assert (E : slice0 80 text = t) by congruence.
    rewrite <- E, slice0_length. lia.
Qed.

Lemma fallbackLoop_from_line (total : nat) (lines : list string) (t : string) :
  fallbackLoop total lines = Some t ->
  exists l, In l lines /\ trim l <> EmptyString /\ userMessageTitle (trim l) = Some t.
Proof.
  induction lines as [|x lines IH]; cbn [fallbackLoop]; [discriminate|].
  destruct (isEmpty (trim x)) eqn:Ex.
  - intros H. destruct (IH H) as (l & Hl & Hr). exists l. split; [right; exact Hl|exact Hr].
  - destruct (userMessageTitle (trim x)) as [t'|] eqn:Et.
    + intros [= <-]. exists x. split; [left; reflexivity|].
      split; [apply isEmpty_false; exact Ex|exact Et].
    + destruct (2000 <? Z.of_nat total); [discriminate|].
      intros H. destruct (IH H) as (l & Hl & Hr).
      exists l. split; [right; exact Hl|exact Hr].
Qed.

(** A fallback title is at most 80 characters long and is what one
    non-blank line of the file yields as its user-message text. *)
Theorem fallback_title_at_most_80 (f : File) (t : string) :
  pickFallbackTitleFromHead f = Some t ->
  (String.length t <= 80)%nat
  /\ exists l, In l (splitLines (data f)) /\ trim l <> EmptyString
               /\ userMessageTitle (trim l) = Some t.
Proof.
  unfold pickFallbackTitleFromHead. intros H.
  destruct (fallbackLoop_from_line _ _ _ H) as (l & Hl & Hne & Ht).
  split; [exact (userMessageTitle_length _ _ Ht)|]. eauto.
Qed.

(** In a file of at most 2000 lines the fallback title is the text of
    the first line that yields one: blank lines and lines that yield
    none before it are passed over. *)
Theorem fallback_title_first_user_message (f : File) (pre post : list string)
  (l t : string) :
  (length (splitLines (data f)) <= 2000)%nat ->
  splitLines (data f) = pre ++ l :: post ->
  trim l <> EmptyString ->
  userMessageTitle (trim l) = Some t ->
  (forall x, In x pre -> trim x = EmptyString \/ userMessageTitle (trim x) = None) ->
  pickFallbackTitleFromHead f = Some t.
Proof.
  intros Hlen Hsplit Hne Ht Hpre. unfold pickFallbackTitleFromHead.
  rewrite Hsplit at 2.
  apply (fallbackLoop_short_file _ pre post l t); [lia|exact Ht| |].
  - apply isEmpty_false. exact Hne.
  - intros x Hx. destruct (Hpre x Hx) as [H|H]; [left; apply isEmpty_true; exact H|].
    right. exact H.
Qed.

(** [updatedAt] of an entry is [null] exactly when [statSync] fails on
    the file; otherwise it is a non-empty string. *)
Theorem updatedAt_null_iff_stat_fails (f : File) (e : PiSessionListItem) :
  sessionItem f = Some e ->
  (updatedAt e = None <-> stat f = None)
  /\ (forall u, updatedAt e = Some u -> u <> EmptyString).
Proof.
  intros He. destruct (sessionItem_inv f e He) as (_ & Hu & _). rewrite Hu.
  destruct (stat f) as [st|] eqn:Est.
  - destruct (readTail_stat f st Est) as (tail & Htail).
    rewrite (updatedAtOf_cases f st tail Est Htail).
    assert (Hiso : forall body r,
              (forall x y, lineValue body x = Some y -> exists t, y = Date_toISOString t) ->
              lastValue body (splitLines tail) = Some r -> r <> EmptyString).
    { intros body r Hb Hr. apply isEmpty_false.
      exact (iso_not_falsy body (splitLines tail) r Hb Hr). }
    assert (Hm : forall x y, lineValue messageStamp x = Some y ->
                             exists t, y = Date_toISOString t).
    { intros x y Hxy. apply messageStamp_line_Some in Hxy as (t & _ & ->). eauto. }
    assert (Ha : forall x y, lineValue anyStamp x = Some y ->
                             exists t, y = Date_toISOString t).
    { intros x y Hxy. apply anyStamp_line_Some in Hxy as (t & _ & ->). eauto. }
    destruct (lastValue messageStamp (splitLines tail)) as [r|] eqn:E1.
    + split; [split; discriminate|]. intros u [= <-]. exact (Hiso _ _ Hm E1).
    + destruct (lastValue anyStamp (splitLines tail)) as [r|] eqn:E2.
      * split; [split; discriminate|]. intros u [= <-]. exact (Hiso _ _ Ha E2).
      * split; [split; discriminate|]. intros u [= <-].
        apply Date_toISOString_nonempty.
  - unfold updatedAtOf, readTail, readTailOf. rewrite Est. cbn [falsy].
    split; [split; reflexivity|discriminate].
Qed.


End MoreFacts.

(** *** walkJsonlFiles *)

(** [s.endsWith(suffix)] *)
Definition endsWith (s suffix : string) : bool :=
  let n := String.length s in
  let m := String.length suffix in
  if (n <? m)%nat then false else String.eqb (sliceFrom (n - m) s) suffix.

(** What [readdirSync(dir, { withFileTypes: true })] reports of an entry:
    a directory (with its own entries, or [None] when reading it
    throws), a regular file, or an entry that is neither. *)
Inductive Dirent : Type :=
| DirEntry (name : string) (entries : option (list Dirent))
| FileEntry (name : string)
| OtherEntry (name : string).

Section Walk.

(** [path.join] of a directory path and an entry name. *)
Variable join : string -> string -> string.

(** The body of [for (const e of entries)] in [walkJsonlFiles(dir, out)],
    the recursive call included: [out] after the entry [e] of [dir]. *)
Fixpoint walkEntry (dir : string) (e : Dirent) (out : list string) {struct e}
  : list string :=
  match e with
  | DirEntry name sub =>
      let p := join dir name in
      match sub with
      | None => out
      | Some entries =>
          (fix loop (es : list Dirent) (out : list string) {struct es} : list string :=
             match es with
             | [] => out
             | e' :: rest => loop rest (walkEntry p e' out)
             end) entries out
      end
  | FileEntry name =>
      if endsWith name ".jsonl" then out ++ [join dir name] else out
  | OtherEntry _ => out
  end.

(** [walkJsonlFiles(dir, out)] where [readdirSync(dir)] gives [entries]
    ([None]: it throws, and the walk returns at once). *)
Definition walkJsonlFiles (dir : string) (entries : option (list Dirent))
  (out : list string) : list string :=
  match entries with
  | None => out
  | Some es => fold_left (fun out e => walkEntry dir e out) es out
  end.

(** A regular file named [name] lies in the readable directory [d],
    reached from the directory [dir] with entries [es] through readable
    directories only. *)
Inductive FileAt : string -> list Dirent -> string -> string -> Prop :=
| FileAt_here (dir : string) (es : list Dirent) (name : string) :
    In (FileEntry name) es -> FileAt dir es dir name
| FileAt_below (dir : string) (es : list Dirent) (sub : string)
    (subs : list Dirent) (d name : string) :
    In (DirEntry sub (Some subs)) es ->
    FileAt (join dir sub) subs d name ->
    FileAt dir es d name.

Lemma walkEntry_dir (dir name : string) (es : list Dirent) (out : list string) :
  walkEntry dir (DirEntry name (Some es)) out
  = fold_left (fun out e => walkEntry (join dir name) e out) es out.
Proof.
  cbn [walkEntry]. revert out. induction es as [|e es IH]; intros out; [reflexivity|].
  exact (IH (walkEntry (join dir name) e out)).
Qed.

(** The walk only appends to [out]. *)
Lemma walkEntry_appends (e : Dirent) :
  forall dir out, walkEntry dir e out = out ++ walkEntry dir e [].
Proof.
  revert e. fix IH 1. intros [name [es|]|name|name] dir out.
  - rewrite !walkEntry_dir. generalize (join dir name) as p. intros p.
    assert (H : forall acc, fold_left (fun out e => walkEntry p e out) es (out ++ acc)
                            = out ++ fold_left (fun out e => walkEntry p e out) es acc).
    { induction es as [|e es IHes]; intros acc; [reflexivity|].
      cbn [fold_left]. rewrite (IH e p (out ++ acc)), (IH e p acc).
      rewrite <- app_assoc. apply IHes. }
    specialize (H []). rewrite app_nil_r in H. exact H.
  - cbn. rewrite app_nil_r. reflexivity.
  - cbn. destruct (endsWith name ".jsonl"); [reflexivity|].
    rewrite app_nil_r. reflexivity.
  - cbn. rewrite app_nil_r. reflexivity.
Qed.

Lemma walk_fold_appends (p : string) (es : list Dirent) (out : list string) :
  fold_left (fun out e => walkEntry p e out) es out
  = out ++ flat_map (fun e => walkEntry p e []) es.
Proof.
  revert out. induction es as [|e es IH]; intros out; cbn [fold_left flat_map].
  - rewrite app_nil_r. reflexivity.
  - rewrite IH, (walkEntry_appends e p out), <- app_assoc. reflexivity.
Qed.

(** What the entry [e] of [dir] contributes: its own path when it is a
    [.jsonl] file, the [.jsonl] files below it when it is a readable
    directory. *)
Definition contributes (e : Dirent) (dir p : string) : Prop :=
  (exists name, e = FileEntry name /\ endsWith name ".jsonl" = true
                /\ p = join dir name)
  \/ (exists sub subs d name,
        e = DirEntry sub (Some subs) /\ FileAt (join dir sub) subs d name
        /\ endsWith name ".jsonl" = true /\ p = join d name).

Lemma contributes_list (es : list Dirent) (q p : string) :
  (forall e, In e es -> forall dir p, In p (walkEntry dir e []) <-> contributes e dir p) ->
  (exists e, In e es /\ In p (walkEntry q e [])) <->
  (exists d name, FileAt q es d name /\ endsWith name ".jsonl" = true
                  /\ p = join d name).
Proof.
  intros Hes. split.
  - intros (e & He & Hp). apply (Hes e He) in Hp.
    destruct Hp as [(name & -> & Hn & ->)|(s & ss & d & name & -> & Hf & Hn & ->)].
    + exists q, name. split; [constructor; exact He|auto].
    + exists d, name. split; [eapply FileAt_below; eassumption|auto].
  - intros (d & name & Hf & Hn & ->). inversion Hf; subst.
    + exists (FileEntry name). split; [assumption|].
      apply Hes; [assumption|]. left. eauto.
    + exists (DirEntry sub (Some subs)). split; [assumption|].
      apply Hes; [assumption|]. right. exists sub, subs, d, name. auto.
Qed.

Fixpoint dsize (e : Dirent) : nat :=
  match e with
  | DirEntry _ (Some es) =>
      S ((fix sum (es : list Dirent) : nat :=
            match es with
            | [] => O
            | e' :: rest => (dsize e' + sum rest)%nat
            end) es)
  | _ => 1%nat
  end.

Lemma dsize_entry (name : string) (es : list Dirent) (e : Dirent) :
  In e es -> (dsize e < dsize (DirEntry name (Some es)))%nat.
Proof.
  cbn [dsize]. induction es as [|e0 es IH]; intros Hin; [destruct Hin|].
  destruct Hin as [->|Hin]; [lia|]. specialize (IH Hin). lia.
Qed.

Lemma walkEntry_collects (e : Dirent) (dir p : string) :
  In p (walkEntry dir e []) <-> contributes e dir p.
Proof.
  remember (dsize e) as n eqn:En.
  assert (Hn : (dsize e <= n)%nat) by lia. clear En.
  revert e dir p Hn. induction n as [|n IH]; intros e dir p Hn.
  - destruct e as [name [es|]|name|name]; cbn [dsize] in Hn; lia.
  - destruct e as [sub [es|]|name|name].
    + rewrite walkEntry_dir, walk_fold_appends. cbn [app]. rewrite in_flat_map.
      rewrite (contributes_list es (join dir sub) p).
      * unfold contributes. split.
        -- intros (d & name & Hf & He & ->). right. exists sub, es, d, name. auto.
        -- intros [(name & H & _)|(s & ss & d & name & H & Hf & He & ->)]; [discriminate|].
           injection H as <- <-. eauto.
      * intros e He dir' p'. apply IH.
        pose proof (dsize_entry sub es e He). lia.
    + cbn. unfold contributes. split; [intros []|].
      intros [(name & H & _)|(s & ss & d & name & H & _)]; discriminate.
    + cbn. unfold contributes. destruct (endsWith name ".jsonl") eqn:E; cbn.
      * split.
        -- intros [<-|[]]. left. eauto.
        -- intros [(n0 & H & _ & ->)|(s & ss & d & n0 & H & _)]; [|discriminate].
           injection H as <-. left. reflexivity.
      * split; [intros []|].
        intros [(n0 & H & Hn0 & _)|(s & ss & d & n0 & H & _)]; [|discriminate].
        injection H as <-. congruence.
    + cbn. unfold contributes. split; [intros []|].
      intros [(n0 & H & _)|(s & ss & d & n0 & H & _)]; discriminate.
Qed.

(** The walk keeps what [out] held, in order, and appends exactly the
    paths [join d name] of the regular files whose name ends in [.jsonl]
    and that lie in [dir] or in a directory below it reached through
    readable directories: an unreadable directory contributes nothing,
    and neither does an entry that is not a regular file. *)
Theorem walkJsonlFiles_collects (dir : string) (entries : option (list Dirent))
  (out : list string) :
  walkJsonlFiles dir entries out = out ++ walkJsonlFiles dir entries []
  /\ (forall p,
        In p (walkJsonlFiles dir entries []) <->
        exists es d name,
          entries = Some es /\ FileAt dir es d name
          /\ endsWith name ".jsonl" = true /\ p = join d name).
Proof.
  destruct entries as [es|]; cbn [walkJsonlFiles].
  - split.
    + rewrite (walk_fold_appends dir es out), (walk_fold_appends dir es []). reflexivity.
    + intros p. rewrite walk_fold_appends. cbn [app]. rewrite in_flat_map.
      rewrite (contributes_list es dir p (fun e _ d q => walkEntry_collects e d q)).
      split.
      * intros (d & name & H). exists es, d, name. tauto.
      * intros (es' & d & name & H & H'). injection H as <-. eauto.
  - split; [rewrite app_nil_r; reflexivity|].
    intros p. split; [intros []|]. intros (es & d & name & H & _). discriminate.
Qed.

End Walk.

(** *** The reference runtime orders strings *)

Lemma string_compare_trans (a b c : string) :
  String.compare a b <> Gt -> String.compare b c <> Gt -> String.compare a c <> Gt.
Proof.
  revert b c. induction a as [|x a IH]; intros [|y b] [|z c]; cbn [String.compare];
    try congruence.
  unfold Ascii.compare.
  destruct (N.compare_spec (N_of_ascii x) (N_of_ascii y)) as [Hxy|Hxy|Hxy];
    destruct (N.compare_spec (N_of_ascii y) (N_of_ascii z)) as [Hyz|Hyz|Hyz];
    destruct (N.compare_spec (N_of_ascii x) (N_of_ascii z)) as [Hxz|Hxz|Hxz];
    try congruence; try lia.
  apply IH.
Qed.

Lemma localeCompare_swap (a b : string) :
  0 < Node.localeCompare a b -> Node.localeCompare b a <= 0.
Proof.
  unfold Node.localeCompare. rewrite (String.compare_antisym a b).
  destruct (String.compare b a); cbn; lia.
Qed.

Lemma localeCompare_trans (a b c : string) :
  Node.localeCompare a b <= 0 -> Node.localeCompare b c <= 0 ->
  Node.localeCompare a c <= 0.
Proof.
  unfold Node.localeCompare. intros Hab Hbc.
  pose proof (string_compare_trans a b c) as H.
  destruct (String.compare a b); try lia;
    destruct (String.compare b c); try lia;
    destruct (String.compare a c); try lia; exfalso; apply H; congruence.
Qed.

(** *** The extensions on concrete inputs *)

#[local] Existing Instance Node.runtime.

(** Headers that are not accepted: no [cwd], an empty [id], a number
    for [id]. *)
Example incomplete_headers_are_not_listed :
  sessionItem (mkFile "/s/a.jsonl" (Node.dq "{'type':'session','id':'s1'}") None) = None
  /\ sessionItem (mkFile "/s/b.jsonl"
                    (Node.dq "{'type':'session','id':'','cwd':'/tmp'}") None) = None
  /\ sessionItem (mkFile "/s/c.jsonl"
                    (Node.dq "{'type':'session','id':7,'cwd':'/tmp'}") None) = None
  /\ sessionItem (mkFile "/s/d.jsonl" EmptyString None) = None.
Proof. repeat split; vm_compute; reflexivity. Qed.

Lemma listing_sorted_most_recent_first_witness :
  StronglySorted
    (fun a b => String_localeCompare (sortKey b) (sortKey a) <= 0)
    (listPiSessions [file2; file3; file1]).
Proof.
  exact (listing_sorted_most_recent_first [file2; file3; file1]
           localeCompare_swap localeCompare_trans).
Defined.

Example listing_most_recent_first :
  listPiSessions [file2; file3; file1] = [item1; item2]
  /\ findPiSessionFile [file2; file3; file1] "sess-1" = Some "/sessions/--p--/s.jsonl"
  /\ findPiSessionFile [file2; file3; file1] "sess-9" = None.
Proof. repeat split; vm_compute; reflexivity. Qed.


Example scan_with_small_chunks :
  scanWith file2 1 = Some "B" /\ scanWith file2 7 = Some "B"
  /\ scanWith file1 64 = Some "named" /\ scanWith file3 5 = Some "named".
Proof. repeat split; vm_compute; reflexivity. Qed.

(** A session without rename record whose first user message is 100
    characters long. *)
Definition message100 : string :=
  Node.dq "{'type':'message','id':'m1','parentId':null,'timestamp':'2026-01-01T00:00:02.000Z','message':{'role':'user','content':'"
  +:+ Node.repeatString 100 "x" +:+ Node.dq "'}}".

Definition file6 : File :=
  mkFile "/sessions/--p--/u.jsonl" (Node.joinLines [header1; message100] +:+ Node.nl) None.

Lemma file6_fallback : pickFallbackTitleFromHead file6 = Some (Node.repeatString 80 "x").
Proof. vm_compute. reflexivity. Qed.

Lemma fallback_title_at_most_80_witness :
  (String.length (Node.repeatString 80 "x") <= 80)%nat.
Proof.
  exact (proj1 (fallback_title_at_most_80 file6 (Node.repeatString 80 "x") file6_fallback)).
Defined.

(** A session whose header is followed by a blank line, an assistant
    message and then the first user message, with block content. *)
Definition reply2 : string :=
  Node.dq "{'type':'message','id':'m0','message':{'role':'assistant','content':[{'type':'text','text':'Hi there!'}]}}".

Definition message2 : string :=
  Node.dq "{'type':'message','id':'m1','message':{'role':'user','content':[{'type':'image','data':'YWJj'},{'type':'text','text':'hello'}]}}".

Definition file7 : File :=
  mkFile "/sessions/--p--/v.jsonl"
         (Node.joinLines [header1; "  "; reply2; message2] +:+ Node.nl) None.

Lemma fallback_title_first_user_message_witness :
  pickFallbackTitleFromHead file7 = Some "hello".
Proof.
  refine (fallback_title_first_user_message file7 [header1; "  "; reply2] [EmptyString]
            message2 "hello" _ _ _ _ _).
  - vm_compute. lia.
  - vm_compute. reflexivity.
  - vm_compute. discriminate.
  - vm_compute. reflexivity.
  - intros x [<-|[<-|[<-|[]]]]; [right|left|right]; vm_compute; reflexivity.
Defined.

Definition item7 : PiSessionListItem :=
  mkItem "sess-1" "/tmp/project" (Some "hello") None "/sessions/--p--/v.jsonl".

Lemma sessionItem_file7 : sessionItem file7 = Some item7.
Proof. vm_compute. reflexivity. Qed.

Lemma updatedAt_null_iff_stat_fails_witness : updatedAt item7 = None.
Proof.
  exact (proj2 (proj1 (updatedAt_null_iff_stat_fails file7 item7 sessionItem_file7))
               eq_refl).
Defined.


(** A sessions directory: a project directory with a session file, a
    text file and a symbolic link; a directory that cannot be read; a
    session file at the top; and an empty directory named like a file. *)
Definition slashJoin (dir name : string) : string := dir +:+ "/" +:+ name.

Example walkJsonlFiles_example :
  walkJsonlFiles slashJoin "/s"
    (Some [DirEntry "--a--"
             (Some [FileEntry "1.jsonl"; FileEntry "notes.txt"; OtherEntry "link.jsonl"]);
           DirEntry "locked" None;
           FileEntry "top.jsonl";
           DirEntry "x.jsonl" (Some [])])
    []
  = ["/s/--a--/1.jsonl"; "/s/top.jsonl"]
  /\ walkJsonlFiles slashJoin "/missing" None ["kept"] = ["kept"].
Proof. split; vm_compute; reflexivity. Qed.

End Directory.

(* ===================================================================== *)
(** ** The error classes, continued                                       *)
(* ===================================================================== *)

Module ErrorClasses.

(** The classes of the hierarchy; every subclass extends [ACPError]
    directly. *)
Inductive ErrorClass : Type :=
| ACPErrorClass
| InvalidParamsErrorClass
| InternalErrorClass
| MethodNotFoundErrorClass
| AuthRequiredErrorClass.

Definition ErrorClass_eqb (a b : ErrorClass) : bool :=
  match a, b with
  | ACPErrorClass, ACPErrorClass
  | InvalidParamsErrorClass, InvalidParamsErrorClass
  | InternalErrorClass, InternalErrorClass
  | MethodNotFoundErrorClass, MethodNotFoundErrorClass
  | AuthRequiredErrorClass, AuthRequiredErrorClass => true
  | _, _ => false
  end.

(** An instance: the class it was constructed by, the fields every
    [ACPError] has, and the fields its subclass adds ([method],
    [authMethods]). *)
Record Instance : Type := mkInstance {
  classOf : ErrorClass;
  error : Errors.ACPError;
  own : list (string * json)
}.

(** A JSON-RPC error object, [{ code, message, data? }]. *)
Record JsonRpcError : Type := mkJsonRpcError {
  code : Z;
  message : string;
  data : option json
}.

(** The members of a JSON-RPC error object. *)
Definition members (o : JsonRpcError) : list (string * json) :=
  [("code", JNum (Number_toString (code o))); ("message", JStr (message o))]
  ++ match data o with
     | Some d => [("data", d)]
     | None => []
     end.

(** [new ACPError(code, message, data)] *)
Definition ACPError (code : Z) (message : string) (data : option json) : Instance :=
  mkInstance ACPErrorClass (Errors.mkACPError "ACPError" code message data) [].

(** [error.toJSON()], as the object it returns. *)
Definition toJSON (e : Instance) : JsonRpcError :=
  mkJsonRpcError (Errors.code (error e)) (Errors.message (error e))
                 (Errors.data (error e)).

(** [ACPError.fromJSON(error)] *)
Definition fromJSON (o : JsonRpcError) : Instance :=
  ACPError (code o) (message o) (data o).

(** [new InvalidParamsError(message, data)]; an omitted [message] takes
    the default. *)
Definition InvalidParamsError (message : option string) (data : option json)
  : Instance :=
  mkInstance InvalidParamsErrorClass
    (Errors.mkACPError "InvalidParamsError" Errors.JSONRPC_INVALID_PARAMS
       (default "Invalid params" message) data) [].

(** [InvalidParamsError.missing(paramName)] *)
Definition InvalidParamsError_missing (paramName : string) : Instance :=
  InvalidParamsError
    (Some ("Missing required parameter: " +:+ paramName))
    (Some (JObj [("param", JStr paramName); ("reason", JStr "missing")])).

(** [new InternalError(message, data)] *)
Definition InternalError (message : option string) (data : option json) : Instance :=
  mkInstance InternalErrorClass
    (Errors.mkACPError "InternalError" Errors.JSONRPC_INTERNAL_ERROR
       (default "Internal error" message) data) [].

(** [message || `Method not found: ${method}`]: the default replaces an
    omitted message and an empty one. *)
Definition orMethodNotFound (method : string) (message : option string) : string :=
  match message with
  | Some (String c r) => String c r
  | _ => "Method not found: " +:+ method
  end.

(** [new MethodNotFoundError(method, message)] *)
Definition MethodNotFoundError (method : string) (message : option string) : Instance :=
  mkInstance MethodNotFoundErrorClass
    (Errors.mkACPError "MethodNotFoundError" Errors.JSONRPC_METHOD_NOT_FOUND
       (orMethodNotFound method message)
       (Some (JObj [("method", JStr method)])))
    [("method", JStr method)].

(** [MethodNotFoundError.forMethod(method)] *)
Definition MethodNotFoundError_forMethod (method : string) : Instance :=
  MethodNotFoundError method None.

(** [MethodNotFoundError.withSuggestions(method, suggestions)] *)
Definition MethodNotFoundError_withSuggestions (method : string)
  (suggestions : list string) : Instance :=
  MethodNotFoundError method
    (Some ("Method not found: " +:+ method +:+ ". Did you mean: "
           +:+ String.concat ", " suggestions +:+ "?")).

(** [new AuthRequiredError(message, authMethods)], as an instance. *)
Definition AuthRequiredError (message : string) (methods : list json) : Instance :=
  mkInstance AuthRequiredErrorClass
    (Errors.base (Errors.AuthRequiredError message methods))
    [("authMethods", JArr (Errors.authMethods (Errors.AuthRequiredError message methods)))].

(** [AuthRequiredError.methodFailed(method, reason)] *)
Definition AuthRequiredError_methodFailed (method reason : string) : Instance :=
  AuthRequiredError
    ("Authentication failed for method '" +:+ method +:+ "': " +:+ reason)
    [JStr method].

(** The type guards.  Their argument is any value: [None] stands for a
    value that is not an instance of the hierarchy. *)
Definition instanceOf (v : option Instance) (c : ErrorClass) : bool :=
  match v with
  | Some e =>
      match c with
      | ACPErrorClass => true
      | _ => ErrorClass_eqb (classOf e) c
      end
  | None => false
  end.

Definition isACPError (v : option Instance) : bool := instanceOf v ACPErrorClass.
Definition isInvalidParamsError (v : option Instance) : bool :=
  instanceOf v InvalidParamsErrorClass.
Definition isInternalError (v : option Instance) : bool :=
  instanceOf v InternalErrorClass.
Definition isMethodNotFoundError (v : option Instance) : bool :=
  instanceOf v MethodNotFoundErrorClass.
Definition isAuthRequiredError (v : option Instance) : bool :=
  instanceOf v AuthRequiredErrorClass.

(** The exported [ErrorCodes] object. *)
Definition ErrorCodes : list (string * Z) :=
  [("PARSE_ERROR", Errors.JSONRPC_PARSE_ERROR);
   ("INVALID_REQUEST", Errors.JSONRPC_INVALID_REQUEST);
   ("METHOD_NOT_FOUND", Errors.JSONRPC_METHOD_NOT_FOUND);
   ("INVALID_PARAMS", Errors.JSONRPC_INVALID_PARAMS);
   ("INTERNAL_ERROR", Errors.JSONRPC_INTERNAL_ERROR);
   ("AUTH_REQUIRED", Errors.ACP_AUTH_REQUIRED);
   ("SERVER_ERROR_MIN", Errors.JSONRPC_SERVER_ERROR_MIN);
   ("SERVER_ERROR_MAX", Errors.JSONRPC_SERVER_ERROR_MAX)].

(** The two embeddings of [toJSON] agree. *)
Lemma toJSON_members (e : Instance) : Errors.toJSON (error e) = members (toJSON e).
Proof.
  unfold Errors.toJSON, members, toJSON. cbn [code message data].
  destruct (Errors.data (error e)); reflexivity.
Qed.

(** The wire form round-trips, the class does not: reading back what
    [toJSON] wrote gives an error with the same code, message and data
    (and the [data] member is written exactly when the data is
    defined), so writing it again gives the same object; but the error
    read back is a plain [ACPError] whatever class the original had, so
    of the five type guards only [isACPError] accepts it. *)
Theorem wire_form_round_trips_class_does_not (e : Instance) (o : JsonRpcError) :
  toJSON (fromJSON o) = o
  /\ toJSON (fromJSON (toJSON e)) = toJSON e
  /\ Errors.code (error (fromJSON (toJSON e))) = Errors.code (error e)
  /\ Errors.message (error (fromJSON (toJSON e))) = Errors.message (error e)
  /\ Errors.data (error (fromJSON (toJSON e))) = Errors.data (error e)
  /\ (In "data" (map fst (Errors.toJSON (error e))) <-> Errors.data (error e) <> None)
  /\ Errors.name (error (fromJSON (toJSON e))) = "ACPError"
  /\ own (fromJSON (toJSON e)) = []
  /\ isACPError (Some (fromJSON (toJSON e))) = true
  /\ isInvalidParamsError (Some (fromJSON (toJSON e))) = false
  /\ isInternalError (Some (fromJSON (toJSON e))) = false
  /\ isMethodNotFoundError (Some (fromJSON (toJSON e))) = false
  /\ isAuthRequiredError (Some (fromJSON (toJSON e))) = false.
Proof.
  split; [destruct o; reflexivity|].
  repeat (split; [reflexivity|]).
  split; [|repeat split].
  unfold Errors.toJSON. destruct (Errors.data (error e)) as [d|]; cbn [map fst app In].
  - split; [discriminate|]. intros _. right. right. left. reflexivity.
  - split; [|intros H; destruct (H eq_refl)].
    intros [H|[H|[]]]; discriminate H.
Qed.

(** A [MethodNotFoundError] never has a blank message: an omitted and an
    empty message both give 'Method not found: ' followed by the method,
    any other message is kept.  Its code is [ErrorCode.MethodNotFound],
    and the method is carried both in [data] and in the [method] field,
    also by the two factories. *)
Theorem method_not_found_never_blank (method : string) (message : option string) :
  Errors.message (error (MethodNotFoundError method message)) <> EmptyString
  /\ (message = None \/ message = Some EmptyString ->
      Errors.message (error (MethodNotFoundError method message))
      = "Method not found: " +:+ method)
  /\ (forall m, message = Some m -> m <> EmptyString ->
        Errors.message (error (MethodNotFoundError method message)) = m)
  /\ Errors.code (error (MethodNotFoundError method message))
     = Protocol.ErrorCode_value Protocol.MethodNotFound
  /\ (forall e,
        e = MethodNotFoundError method message
        \/ e = MethodNotFoundError_forMethod method
        \/ (exists suggestions, e = MethodNotFoundError_withSuggestions method suggestions) ->
        Errors.data (error e) = Some (JObj [("method", JStr method)])
        /\ own e = [("method", JStr method)]
        /\ isMethodNotFoundError (Some e) = true
        /\ Errors.message (error e) <> EmptyString).
Proof.
  assert (Hne : forall msg, orMethodNotFound method msg <> EmptyString).
  { intros [[|c r]|]; unfold orMethodNotFound; discriminate. }
  split; [apply Hne|]. split.
  { intros [->| ->]; reflexivity. }
  split.
  { intros m -> Hm. destruct m; [destruct (Hm eq_refl)|reflexivity]. }
  split; [reflexivity|].
  intros e [->|[->|(suggestions & ->)]]; repeat split; apply Hne.
Qed.

(** The two tables of codes agree on the standard JSON-RPC errors, the
    values of the enumeration are pairwise distinct, and a value of the
    enumeration lies in the server-error range
    [SERVER_ERROR_MIN .. SERVER_ERROR_MAX] exactly when it is not one of
    the five standard errors. *)
Theorem error_code_tables_agree (a b : Protocol.ErrorCode) :
  Errors.JSONRPC_PARSE_ERROR = Protocol.ErrorCode_value Protocol.ParseError
  /\ Errors.JSONRPC_INVALID_REQUEST = Protocol.ErrorCode_value Protocol.InvalidRequest
  /\ Errors.JSONRPC_METHOD_NOT_FOUND = Protocol.ErrorCode_value Protocol.MethodNotFound
  /\ Errors.JSONRPC_INVALID_PARAMS = Protocol.ErrorCode_value Protocol.InvalidParams
  /\ Errors.JSONRPC_INTERNAL_ERROR = Protocol.ErrorCode_value Protocol.InternalError
  /\ Errors.JSONRPC_SERVER_ERROR_MAX = Protocol.ErrorCode_value Protocol.ServerError
  /\ (Protocol.ErrorCode_value a = Protocol.ErrorCode_value b -> a = b)
  /\ (Errors.JSONRPC_SERVER_ERROR_MIN <= Protocol.ErrorCode_value a
      <= Errors.JSONRPC_SERVER_ERROR_MAX
      <-> ~ In a [Protocol.ParseError; Protocol.InvalidRequest; Protocol.MethodNotFound;
                  Protocol.InvalidParams; Protocol.InternalError]).
Proof.
  repeat (split; [reflexivity|]). split.
  - destruct a, b; cbn; intros H; try reflexivity; discriminate H.
  - unfold Errors.JSONRPC_SERVER_ERROR_MIN, Errors.JSONRPC_SERVER_ERROR_MAX.
    destruct a; cbn [Protocol.ErrorCode_value In]; split; intros H;
      try lia;
      try (intros [K|[K|[K|[K|[K|[]]]]]]; discriminate K);
      exfalso; apply H; auto 10.
Qed.

(** The errors of the factories, and what the guards say of them. *)
Example factories :
  toJSON (InvalidParamsError_missing "sessionId")
  = mkJsonRpcError (-32602) "Missing required parameter: sessionId"
      (Some (JObj [("param", JStr "sessionId"); ("reason", JStr "missing")]))
  /\ toJSON (InvalidParamsError None None) = mkJsonRpcError (-32602) "Invalid params" None
  /\ toJSON (InternalError None None) = mkJsonRpcError (-32603) "Internal error" None
  /\ Errors.message (error (MethodNotFoundError_withSuggestions "session/nwe"
                              ["session/new"; "session/load"]))
     = "Method not found: session/nwe. Did you mean: session/new, session/load?"
  /\ toJSON (AuthRequiredError_methodFailed "oauth" "expired")
     = mkJsonRpcError (-32001) "Authentication failed for method 'oauth': expired"
         (Some (JObj [("authMethods", JArr [JStr "oauth"])]))
  /\ isInvalidParamsError (Some (InvalidParamsError_missing "sessionId")) = true
  /\ isInternalError (Some (InvalidParamsError_missing "sessionId")) = false
  /\ isACPError None = false.
Proof. repeat split; vm_compute; reflexivity. Qed.

End ErrorClasses.

(* ===================================================================== *)
(** ** Prompt translation, continued                                      *)
(* ===================================================================== *)

Module PromptFacts.

Import Prompt.

Definition isImage (b : ContentBlock) : bool :=
  match b with
  | ImageBlock _ _ => true
  | _ => false
  end.

Section WithRuntime.
Context {R : Runtime}.

Lemma concat_without_images (blocks : list ContentBlock) :
  concatStrings (map textContribution blocks)
  = concatStrings (map textContribution (List.filter (fun b => negb (isImage b)) blocks)).
Proof.
  induction blocks as [|b blocks IH]; [reflexivity|].
  destruct b; cbn [List.filter isImage negb map concatStrings textContribution];
    rewrite ?sapp_nil; congruence.
Qed.

Lemma images_of_images (blocks : list ContentBlock) :
  flat_map imageContribution blocks
  = flat_map imageContribution (List.filter isImage blocks)
  /\ length (flat_map imageContribution blocks) = length (List.filter isImage blocks).
Proof.
  induction blocks as [|b blocks [IH1 IH2]]; [split; reflexivity|].
  destruct b; cbn [List.filter isImage flat_map imageContribution app length];
    split; congruence.
Qed.

(** Text and images travel separately: the message is the one the
    prompt gives with its image blocks removed, the image list is the
    one its image blocks give alone, one image per image block, and the
    data of an image never reaches the message. *)
Theorem text_and_images_are_separate (blocks : list ContentBlock) :
  message (promptToPiMessage blocks)
  = message (promptToPiMessage (List.filter (fun b => negb (isImage b)) blocks))
  /\ images (promptToPiMessage blocks)
     = images (promptToPiMessage (List.filter isImage blocks))
  /\ length (images (promptToPiMessage blocks)) = length (List.filter isImage blocks)
  /\ message (promptToPiMessage (List.filter isImage blocks)) = EmptyString
  /\ images (promptToPiMessage (List.filter (fun b => negb (isImage b)) blocks)) = [].
Proof.
  unfold promptToPiMessage. rewrite !fold_step_contributions.
  cbn [message images]. rewrite !sapp_nil, !app_nil_l.
  destruct (images_of_images blocks) as [H1 H2].
  split; [apply concat_without_images|]. split; [exact H1|]. split; [exact H2|].
  clear H1 H2. split.
  - induction blocks as [|b blocks IH]; [reflexivity|].
    destruct b; cbn [List.filter isImage map concatStrings textContribution];
      rewrite ?sapp_nil; exact IH.
  - induction blocks as [|b blocks IH]; [reflexivity|].
    destruct b; cbn [List.filter isImage negb flat_map imageContribution app]; exact IH.
Qed.

(** Binary payloads are summarised, never inlined: the text for an
    [audio] block, and for a [resource] block that has a blob and no
    text, depends on the payload only through its decoded byte count.  A
    [resource] block with a text ignores its blob altogether, and one
    whose resource is missing gives the bare marker with '(unknown)'. *)
Theorem binary_payloads_are_summarised :
  (forall mimeType d1 d2 pre post,
     Buffer_byteLength_base64 d1 = Buffer_byteLength_base64 d2 ->
     promptToPiMessage (pre ++ AudioBlock mimeType d1 :: post)
     = promptToPiMessage (pre ++ AudioBlock mimeType d2 :: post))
  /\ (forall r1 r2 b1 b2,
        prop r1 "uri" = prop r2 "uri" ->
        prop r1 "mimeType" = prop r2 "mimeType" ->
        asString (prop r1 "text") = None ->
        asString (prop r2 "text") = None ->
        asString (prop r1 "blob") = Some b1 ->
        asString (prop r2 "blob") = Some b2 ->
        Buffer_byteLength_base64 b1 = Buffer_byteLength_base64 b2 ->
        resourceText r1 = resourceText r2)
  /\ (forall r1 r2,
        prop r1 "uri" = prop r2 "uri" ->
        prop r1 "mimeType" = prop r2 "mimeType" ->
        prop r1 "text" = prop r2 "text" ->
        asString (prop r1 "text") <> None ->
        resourceText r1 = resourceText r2)
  /\ resourceText None = String LF "[Embedded Context] (unknown)".
Proof.
  split; [|split; [|split]].
  - intros mimeType d1 d2 pre post Hlen. unfold promptToPiMessage.
    rewrite !fold_step_contributions. rewrite !map_app, !flat_map_app.
    cbn [map flat_map textContribution imageContribution]. unfold audioText.
    rewrite Hlen. reflexivity.
  - intros r1 r2 b1 b2 Hu Hm Ht1 Ht2 Hb1 Hb2 Hlen. unfold resourceText.
    rewrite Ht1, Ht2, Hb1, Hb2, Hu, Hm, Hlen. reflexivity.
  - intros r1 r2 Hu Hm Ht Hsome. unfold resourceText. rewrite Hu, Hm, <- Ht.
    destruct (asString (prop r1 "text")); [reflexivity|destruct (Hsome eq_refl)].
  - reflexivity.
Qed.

End WithRuntime.

(** A text resource with a blob beside it, and two blobs of three bytes. *)
Example resource_blocks :
  resourceText (R := Node.runtime)
    (Some (JObj [("uri", JStr "file:///a.md"); ("text", JStr "# A");
                 ("blob", JStr "eHl6")]))
  = String LF "[Embedded Context] file:///a.md (text/plain)" +:+ String LF "# A"
  /\ resourceText (R := Node.runtime) (Some (JObj [("blob", JStr "eHl6")]))
     = resourceText (R := Node.runtime) (Some (JObj [("blob", JStr "YWJj")]))
  /\ resourceText (R := Node.runtime) (Some (JObj [("blob", JStr "eHl6")]))
     = String LF "[Embedded Context] (unknown) (application/octet-stream, 3 bytes)"
  /\ resourceText (R := Node.runtime) (Some (JObj [("uri", JNum "7")]))
     = String LF "[Embedded Context] (unknown)".
Proof. repeat split; vm_compute; reflexivity. Qed.

End PromptFacts.

(* ===================================================================== *)
(** ** The transport manager, continued                                   *)
(* ===================================================================== *)

Module Transport.

Import Ws.

(** *** Events *)

(** What can happen to the module: a socket is accepted, one of the
    listeners of a socket runs, a pong timer fires, an interval callback
    runs, or the server shuts down. *)
Inductive Event : Type :=
| Connection (ws : WebSocket) (connId : string)
| Message (ws : WebSocket) (data : string)
| Pong (ws : WebSocket)
| SocketClosed (ws : WebSocket)
| SocketError (ws : WebSocket)
| PongTimerFired (t : Timeout)
| HeartbeatInterval
| IdleCheckInterval
| ShutdownSignal.

Section WithRuntime.
Context {R : Runtime}.

(** The handler of an event, run at time [now]. *)
Definition handle (now : Z) (ev : Event) (st : State) : Outcome :=
  match ev with
  | Connection ws connId => onConnection ws connId now st
  | Message ws data => onMessage ws now data st
  | Pong ws => onPong ws now st
  | SocketClosed ws => onClose ws st
  | SocketError ws => onError ws st
  | PongTimerFired t => pongTimeoutFires t st
  | HeartbeatInterval => Returned (heartbeatTick st)
  | IdleCheckInterval => Returned (idleCheckTick now st)
  | ShutdownSignal => Returned (gracefulShutdown st)
  end.

(** A history of timed events, handled in order; an exception that
    escapes a handler leaves the state the handler had reached. *)
Definition run (events : list (Z * Event)) (st : State) : State :=
  fold_left (fun st ev => stateOf (handle (fst ev) (snd ev) st)) events st.

End WithRuntime.

(** *** The registry only shrinks, except at admission *)

Lemma filter_sublist (ws : WebSocket) (l : list WebSocket) :
  base.filter (fun w => w <> ws) l `sublist_of` l.
Proof. apply sublist_filter. Qed.

Lemma closeConnection_sublist (ws : WebSocket) (code : Z) (reason : string) (st : State) :
  connections (closeConnection ws code reason st) `sublist_of` connections st.
Proof. rewrite closeConnection_connections. apply filter_sublist. Qed.

Lemma cleanupConnection_connections (ws : WebSocket) (st : State) :
  connections (cleanupConnection ws st) = base.filter (fun w => w <> ws) (connections st).
Proof.
  unfold cleanupConnection.
  destruct (getConnection ws st) as [meta|]; [destruct (pingTimeout meta)|]; reflexivity.
Qed.

Lemma fold_sublist (step : State -> WebSocket -> State) (l : list WebSocket) (st : State) :
  (forall s w, connections (step s w) `sublist_of` connections s) ->
  connections (fold_left step l st) `sublist_of` connections st.
Proof.
  intros Hstep. revert st. induction l as [|w l IH]; intros st; cbn [fold_left].
  - reflexivity.
  - etransitivity; [apply IH|apply Hstep].
Qed.

Lemma heartbeatOne_sublist (st : State) (ws : WebSocket) :
  connections (heartbeatOne st ws) `sublist_of` connections st.
Proof.
  unfold heartbeatOne. destruct (getConnection ws st) as [meta|]; [|reflexivity].
  destruct (negb (isAlive meta)); [apply closeConnection_sublist|].
  set (st1 := withMetas st _). change (connections st) with (connections st1).
  destruct (sockets st1 !! ws) as [sock|]; [|apply closeConnection_sublist].
  destruct (pingThrows sock); [apply closeConnection_sublist|reflexivity].
Qed.

Lemma idleOne_sublist (now : Z) (st : State) (ws : WebSocket) :
  connections (idleOne now st ws) `sublist_of` connections st.
Proof.
  unfold idleOne. destruct (getConnection ws st) as [meta|]; [|reflexivity].
  destruct (IDLE_TIMEOUT_MS <? now - lastActivity meta); [|reflexivity].
  apply closeConnection_sublist.
Qed.

Lemma shutdownOne_sublist (st : State) (ws : WebSocket) :
  connections (shutdownOne st ws) `sublist_of` connections st.
Proof.
  unfold shutdownOne. destruct (hasConnection ws st); [|reflexivity].
  apply closeConnection_sublist.
Qed.

Lemma onConnection_connections (ws : WebSocket) (connId : string) (now : Z) (st : State) :
  connections (stateOf (onConnection ws connId now st))
  = if MAX_CONNECTIONS <=? Z.of_nat (length (connections st)) then connections st
    else if bool_decide (ws ∈ connections st) then connections st
         else connections st ++ [ws].
Proof.
  unfold onConnection. set (st0 := withSockets st _).
  change (connections st0) with (connections st).
  destruct (MAX_CONNECTIONS <=? Z.of_nat (length (connections st))).
  - cbn [stateOf]. unfold wsClose.
    destruct (sockets st0 !! ws) as [sock|]; [destruct (closedWith sock)|]; reflexivity.
  - cbn [stateOf connections withControllers]. unfold setConnection, hasConnection.
    cbn [connections withMetas]. change (connections st0) with (connections st).
    destruct (bool_decide (ws ∈ connections st)); reflexivity.
Qed.

Section Invariant.
Context {R : Runtime}.

Lemma handle_sublist (now : Z) (ev : Event) (st : State) :
  (forall ws connId, ev <> Connection ws connId) ->
  connections (stateOf (handle now ev st)) `sublist_of` connections st.
Proof.
  intros Hev. destruct ev as [ws connId|ws data|ws|ws|ws|t| | |]; cbn [handle stateOf].
  - destruct (Hev ws connId eq_refl).
  - unfold onMessage. destruct (metas st !! ws) as [meta|]; [|reflexivity].
    destruct (isRateLimited _ now) as [limited meta2].
    set (st1 := withMetas st _). change (connections st) with (connections st1).
    destruct limited.
    + rewrite controllerClose_connections. apply closeConnection_sublist.
    + destruct (JSON_parse data) as [msg|]; [destruct (isControl msg)|];
        cbn [stateOf]; rewrite ?tryEnqueue_connections; reflexivity.
  - unfold onPong. destruct (metas st !! ws) as [meta|]; [|reflexivity].
    destruct (pingTimeout meta); reflexivity.
  - unfold onClose. rewrite controllerClose_connections, cleanupConnection_connections.
    apply filter_sublist.
  - unfold onError, controllerError.
    destruct (controllers st !! ws) as [c|]; [destruct (streamState c)|]; reflexivity.
  - unfold pongTimeoutFires. destruct (timers st !! t) as [ws|]; [|reflexivity].
    unfold pongTimeoutCallback. destruct (hasConnection ws _); [|reflexivity].
    cbn [stateOf]. etransitivity; [apply closeConnection_sublist|reflexivity].
  - apply fold_sublist. intros s w. apply heartbeatOne_sublist.
  - apply fold_sublist. intros s w. apply idleOne_sublist.
  - unfold gracefulShutdown.
    apply (fold_sublist shutdownOne (connections st)
             (mkState (metas st) (connections st) (sockets st) (controllers st)
                      (timers st) (nextTimeout st) false false)).
    intros s w. apply shutdownOne_sublist.
Qed.

(** The admission bound as an invariant of one event. *)
Lemma handle_keeps_bound (now : Z) (ev : Event) (st : State) :
  base.NoDup (connections st) /\ Z.of_nat (length (connections st)) <= MAX_CONNECTIONS ->
  base.NoDup (connections (stateOf (handle now ev st)))
  /\ Z.of_nat (length (connections (stateOf (handle now ev st)))) <= MAX_CONNECTIONS.
Proof.
  intros [Hnd Hlen].
  destruct ev as [ws connId|ws data|ws|ws|ws|t| | |].
  1:{ cbn [handle]. rewrite onConnection_connections.
      destruct (MAX_CONNECTIONS <=? Z.of_nat (length (connections st))) eqn:E; [auto|].
      apply Z.leb_gt in E.
      destruct (bool_decide (ws ∈ connections st)) eqn:Eb; [auto|].
      apply bool_decide_eq_false in Eb. split.
      - apply list.NoDup_app. split; [exact Hnd|]. split; [|apply NoDup_singleton].
        intros x Hx Hx'. apply list_elem_of_singleton in Hx'. subst x. exact (Eb Hx).
      - rewrite length_app. cbn [length]. lia. }
  all: match goal with |- context [handle ?n ?ev ?s] =>
         assert (Hs : connections (stateOf (handle n ev s)) `sublist_of` connections s)
           by (apply handle_sublist; discriminate)
       end.
  all: split; [eapply sublist_NoDup; eassumption|pose proof (sublist_length _ _ Hs); lia].
Qed.

Lemma run_keeps_bound (events : list (Z * Event)) (st : State) :
  base.NoDup (connections st) /\ Z.of_nat (length (connections st)) <= MAX_CONNECTIONS ->
  base.NoDup (connections (run events st))
  /\ Z.of_nat (length (connections (run events st))) <= MAX_CONNECTIONS.
Proof.
  unfold run. revert st.
  induction events as [|[now ev] events IH]; intros st Hst; cbn [fold_left fst snd].
  - exact Hst.
  - apply IH. apply handle_keeps_bound. exact Hst.
Qed.

(** Whatever happens, in whatever order, the registry never holds more
    than [MAX_CONNECTIONS] sockets and never holds one twice. *)
Theorem registry_never_exceeds_max (events : list (Z * Event)) :
  base.NoDup (connections (run events initialState))
  /\ Z.of_nat (length (connections (run events initialState))) <= MAX_CONNECTIONS.
Proof.
  apply run_keeps_bound. cbn [connections initialState length]. split.
  - apply NoDup_nil_2.
  - unfold MAX_CONNECTIONS. lia.
Qed.

End Invariant.

(** *** Loops over the registry *)

Definition hasTimer (meta : ConnectionMeta) : bool :=
  match pingTimeout meta with Some _ => true | None => false end.

(** A meta object up to the identity of its timer handle. *)
Definition view (meta : ConnectionMeta) : ConnectionMeta :=
  mkMeta (id meta) (connectedAt meta) (lastActivity meta) (messageCount meta)
         (messageWindowStart meta) (if hasTimer meta then Some O else None)
         (isAlive meta).

(** Two states agree on what the manager holds for the socket [ws]. *)
Definition agree (ws : WebSocket) (s1 s2 : State) : Prop :=
  sockets s1 !! ws = sockets s2 !! ws
  /\ (view <$> metas s1 !! ws) = (view <$> metas s2 !! ws)
  /\ (ws ∈ connections s1 <-> ws ∈ connections s2).

Lemma agree_refl (ws : WebSocket) (s : State) : agree ws s s.
Proof. repeat split; auto. Qed.

Lemma agree_sym (ws : WebSocket) (s1 s2 : State) : agree ws s1 s2 -> agree ws s2 s1.
Proof. intros (H1 & H2 & H3). repeat split; try congruence; apply H3. Qed.

Lemma agree_trans (ws : WebSocket) (s1 s2 s3 : State) :
  agree ws s1 s2 -> agree ws s2 s3 -> agree ws s1 s3.
Proof.
  intros (H1 & H2 & H3) (K1 & K2 & K3).
  split; [congruence|]. split; [congruence|]. rewrite H3. exact K3.
Qed.

Section PerKey.
Variable step : State -> WebSocket -> State.
Hypothesis frame : forall st w v, v <> w -> agree v (step st w) st.
Hypothesis cong : forall s1 s2 ws, agree ws s1 s2 -> agree ws (step s1 ws) (step s2 ws).

(** An iteration for another key leaves [ws] alone. *)
Lemma fold_frame (l : list WebSocket) (st : State) (ws : WebSocket) :
  ws ∉ l -> agree ws (fold_left step l st) st.
Proof.
  revert st. induction l as [|w l IH]; intros st Hnot; cbn [fold_left].
  - apply agree_refl.
  - apply not_elem_of_cons in Hnot as [Hne Hnot].
    eapply agree_trans; [apply IH; exact Hnot|apply frame; exact Hne].
Qed.

(** In a loop over distinct keys, what happens to [ws] is what its own
    iteration does. *)
Lemma fold_own (l : list WebSocket) (st : State) (ws : WebSocket) :
  base.NoDup l -> ws ∈ l -> agree ws (fold_left step l st) (step st ws).
Proof.
  revert st. induction l as [|w l IH]; intros st Hnd Hin; cbn [fold_left].
  - apply elem_of_nil in Hin. destruct Hin.
  - apply list.NoDup_cons in Hnd as [Hw Hnd]. apply elem_of_cons in Hin as [->|Hin].
    + apply fold_frame. exact Hw.
    + assert (Hne : ws <> w) by (intros ->; exact (Hw Hin)).
      eapply agree_trans; [apply IH; assumption|].
      apply cong. apply frame. exact Hne.
Qed.

End PerKey.

Lemma closeConnection_frame (ws v : WebSocket) (code : Z) (reason : string) (st : State) :
  v <> ws -> agree v (closeConnection ws code reason st) st.
Proof.
  intros Hne. split; [|split].
  - rewrite closeConnection_sockets. apply wsClose_other. exact Hne.
  - rewrite closeConnection_metas. reflexivity.
  - rewrite closeConnection_connections. rewrite list_elem_of_filter. tauto.
Qed.

Lemma closeConnection_cong (ws : WebSocket) (code : Z) (reason : string) (s1 s2 : State) :
  sockets s1 !! ws = sockets s2 !! ws ->
  (view <$> metas s1 !! ws) = (view <$> metas s2 !! ws) ->
  agree ws (closeConnection ws code reason s1) (closeConnection ws code reason s2).
Proof.
  intros Hs Hm. split; [|split].
  - rewrite !closeConnection_sockets. unfold wsClose. rewrite <- Hs.
    destruct (sockets s1 !! ws) as [sock|] eqn:E; [|congruence].
    destruct (closedWith sock); [congruence|].
    cbn [sockets withSockets]. rewrite !lookup_insert_eq. reflexivity.
  - rewrite !closeConnection_metas. exact Hm.
  - split; intros H; exfalso; exact (closeConnection_unregisters _ _ _ _ H).
Qed.

Lemma getConnection_view (ws : WebSocket) (s1 s2 : State) :
  agree ws s1 s2 ->
  (view <$> getConnection ws s1) = (view <$> getConnection ws s2).
Proof.
  intros (_ & Hm & Hc). unfold getConnection, hasConnection.
  rewrite (bool_decide_ext _ _ Hc).
  destruct (bool_decide (ws ∈ connections s2)); [exact Hm|reflexivity].
Qed.

Lemma view_fields (m1 m2 : ConnectionMeta) :
  view m1 = view m2 ->
  id m1 = id m2 /\ connectedAt m1 = connectedAt m2 /\ lastActivity m1 = lastActivity m2
  /\ messageCount m1 = messageCount m2 /\ messageWindowStart m1 = messageWindowStart m2
  /\ hasTimer m1 = hasTimer m2 /\ isAlive m1 = isAlive m2.
Proof.
  unfold view. intros H. injection H as H1 H2 H3 H4 H5 H6 H7.
  repeat split; try assumption.
  destruct (hasTimer m1), (hasTimer m2); congruence.
Qed.

(** The idle check. *)
Lemma idleOne_frame (now : Z) (st : State) (w v : WebSocket) :
  v <> w -> agree v (idleOne now st w) st.
Proof.
  intros Hne. unfold idleOne. destruct (getConnection w st) as [meta|]; [|apply agree_refl].
  destruct (IDLE_TIMEOUT_MS <? now - lastActivity meta); [|apply agree_refl].
  apply closeConnection_frame. exact Hne.
Qed.

Lemma idleOne_cong (now : Z) (s1 s2 : State) (ws : WebSocket) :
  agree ws s1 s2 -> agree ws (idleOne now s1 ws) (idleOne now s2 ws).
Proof.
  intros Ha. pose proof (getConnection_view ws s1 s2 Ha) as Hg. unfold idleOne.
  destruct (getConnection ws s1) as [m1|], (getConnection ws s2) as [m2|];
    cbn in Hg; try discriminate; [|exact Ha].
  assert (Hv : view m1 = view m2) by congruence.
  apply view_fields in Hv as (_ & _ & Hl & _). rewrite Hl.
  destruct (IDLE_TIMEOUT_MS <? now - lastActivity m2); [|exact Ha].
  destruct Ha as (Hs & Hm & _). apply closeConnection_cong; assumption.
Qed.

Lemma idleOne_metas (now : Z) (st : State) (ws : WebSocket) :
  metas (idleOne now st ws) = metas st.
Proof.
  unfold idleOne. destruct (getConnection ws st) as [meta|]; [|reflexivity].
  destruct (IDLE_TIMEOUT_MS <? now - lastActivity meta); [|reflexivity].
  apply closeConnection_metas.
Qed.

Lemma idleCheckTick_metas (now : Z) (st : State) :
  metas (idleCheckTick now st) = metas st.
Proof.
  unfold idleCheckTick. generalize (connections st). intros l. revert st.
  induction l as [|w l IH]; intros st; cbn [fold_left]; [reflexivity|].
  rewrite IH. apply idleOne_metas.
Qed.

Lemma getConnection_registered (ws : WebSocket) (st : State) :
  ws ∈ connections st -> getConnection ws st = metas st !! ws.
Proof.
  intros Hin. unfold getConnection, hasConnection.
  rewrite bool_decide_eq_true_2 by exact Hin. reflexivity.
Qed.

(** The idle check evicts exactly the connections whose last activity is
    more than [IDLE_TIMEOUT_MS] old, whatever their liveness flag says:
    it closes their open socket with (1001, 'Idle timeout') and
    unregisters them; a connection at or under the threshold keeps its
    registration and its socket, and no meta object is touched. *)
Theorem idle_check_evicts_exactly_the_idle (now : Z) (st : State) (ws : WebSocket)
  (meta : ConnectionMeta) :
  base.NoDup (connections st) ->
  ws ∈ connections st ->
  metas st !! ws = Some meta ->
  metas (idleCheckTick now st) = metas st
  /\ (now - lastActivity meta <= IDLE_TIMEOUT_MS ->
      (ws ∈ connections (idleCheckTick now st))
      /\ sockets (idleCheckTick now st) !! ws = sockets st !! ws)
  /\ (IDLE_TIMEOUT_MS < now - lastActivity meta ->
      (ws ∉ connections (idleCheckTick now st))
      /\ (forall sock, sockets st !! ws = Some sock -> closedWith sock = None ->
            exists sock', sockets (idleCheckTick now st) !! ws = Some sock'
                          /\ closedWith sock' = Some (1001, "Idle timeout"))).
Proof.
  intros Hnd Hin Hm. split; [apply idleCheckTick_metas|].
  pose proof (fold_own (idleOne now) (idleOne_frame now) (idleOne_cong now)
                (connections st) st ws Hnd Hin) as (Hs & _ & Hc).
  fold (idleCheckTick now st) in Hs, Hc.
  unfold idleOne in Hs, Hc. rewrite (getConnection_registered ws st Hin), Hm in Hs, Hc.
  split.
  - intros Hle. apply Z.ltb_ge in Hle. rewrite Hle in Hs, Hc.
    split; [apply Hc; exact Hin|exact Hs].
  - intros Hlt. apply Z.ltb_lt in Hlt. rewrite Hlt in Hs, Hc. split.
    + intros H. apply Hc in H. exact (closeConnection_unregisters _ _ _ _ H).
    + intros sock Hsock Hopen. rewrite Hs, closeConnection_sockets.
      eexists. split; [apply (wsClose_open ws _ _ st sock Hsock Hopen)|reflexivity].
Qed.

(** The shutdown loop. *)
Lemma shutdownOne_frame (st : State) (w v : WebSocket) :
  v <> w -> agree v (shutdownOne st w) st.
Proof.
  intros Hne. unfold shutdownOne. destruct (hasConnection w st); [|apply agree_refl].
  apply closeConnection_frame. exact Hne.
Qed.

Lemma shutdownOne_cong (s1 s2 : State) (ws : WebSocket) :
  agree ws s1 s2 -> agree ws (shutdownOne s1 ws) (shutdownOne s2 ws).
Proof.
  intros Ha. unfold shutdownOne, hasConnection.
  destruct Ha as (Hs & Hm & Hc). rewrite (bool_decide_ext _ _ Hc).
  destruct (bool_decide (ws ∈ connections s2)).
  - apply closeConnection_cong; assumption.
  - repeat split; try assumption; apply Hc.
Qed.

Lemma closeConnection_intervals (ws : WebSocket) (code : Z) (reason : string) (st : State) :
  pingInterval (closeConnection ws code reason st) = pingInterval st
  /\ idleCheckInterval (closeConnection ws code reason st) = idleCheckInterval st.
Proof.
  unfold closeConnection, wsClose.
  destruct (getConnection ws st) as [meta|]; [destruct (pingTimeout meta)|]; simpl;
    (destruct (sockets st !! ws) as [sock|]; [destruct (closedWith sock)|]);
    split; reflexivity.
Qed.

Lemma fold_shutdownOne_rest (l : list WebSocket) (st : State) :
  pingInterval (fold_left shutdownOne l st) = pingInterval st
  /\ idleCheckInterval (fold_left shutdownOne l st) = idleCheckInterval st
  /\ controllers (fold_left shutdownOne l st) = controllers st
  /\ metas (fold_left shutdownOne l st) = metas st
  /\ (forall w, w ∈ connections (fold_left shutdownOne l st) ->
        w ∈ connections st /\ w ∉ l).
Proof.
  revert st. induction l as [|w l IH]; intros st; cbn [fold_left].
  - repeat split; auto. apply not_elem_of_nil.
  - destruct (IH (shutdownOne st w)) as (H1 & H2 & H3 & H4 & H5).
    assert (K : pingInterval (shutdownOne st w) = pingInterval st
                /\ idleCheckInterval (shutdownOne st w) = idleCheckInterval st
                /\ controllers (shutdownOne st w) = controllers st
                /\ metas (shutdownOne st w) = metas st
                /\ (forall v, v ∈ connections (shutdownOne st w) ->
                      v ∈ connections st /\ v <> w)).
    { unfold shutdownOne, hasConnection.
      destruct (bool_decide (w ∈ connections st)) eqn:E.
      - destruct (closeConnection_intervals w 1001 "Server shutting down" st).
        rewrite closeConnection_controllers, closeConnection_metas,
          closeConnection_connections.
        split; [assumption|]. split; [assumption|]. split; [reflexivity|].
        split; [reflexivity|]. intros v Hv. apply list_elem_of_filter in Hv. tauto.
      - apply bool_decide_eq_false in E.
        split; [reflexivity|]. split; [reflexivity|]. split; [reflexivity|].
        split; [reflexivity|]. intros v Hv. split; [exact Hv|].
        intros ->. exact (E Hv). }
    destruct K as (K1 & K2 & K3 & K4 & K5).
    split; [congruence|]. split; [congruence|]. split; [congruence|].
    split; [congruence|].
    intros v Hv. apply H5 in Hv as [Hv Hnot].
    apply K5 in Hv as [Hv Hne]. split; [exact Hv|].
    apply not_elem_of_cons. auto.
Qed.

(** The shutdown clears both intervals, empties the registry, and closes
    the open socket of every registered connection with
    (1001, 'Server shutting down'); it touches no other socket, and it
    closes no stream and changes no meta object itself. *)
Theorem shutdown_closes_every_connection (st : State) :
  base.NoDup (connections st) ->
  connections (gracefulShutdown st) = []
  /\ pingInterval (gracefulShutdown st) = false
  /\ idleCheckInterval (gracefulShutdown st) = false
  /\ controllers (gracefulShutdown st) = controllers st
  /\ metas (gracefulShutdown st) = metas st
  /\ (forall ws sock,
        ws ∈ connections st -> sockets st !! ws = Some sock -> closedWith sock = None ->
        exists sock', sockets (gracefulShutdown st) !! ws = Some sock'
                      /\ closedWith sock' = Some (1001, "Server shutting down"))
  /\ (forall ws, ws ∉ connections st ->
        sockets (gracefulShutdown st) !! ws = sockets st !! ws).
Proof.
  intros Hnd. unfold gracefulShutdown. cbv zeta.
  set (st1 := mkState _ _ _ _ _ _ false false).
  change (connections st1) with (connections st).
  destruct (fold_shutdownOne_rest (connections st) st1) as (H1 & H2 & H3 & H4 & H5).
  split.
  { apply elem_of_nil_inv. intros w Hw. apply H5 in Hw as [Hw Hnot]. exact (Hnot Hw). }
  split; [exact H1|]. split; [exact H2|]. split; [exact H3|]. split; [exact H4|].
  split.
  - intros ws sock Hin Hsock Hopen.
    pose proof (fold_own shutdownOne shutdownOne_frame shutdownOne_cong
                  (connections st) st1 ws Hnd Hin) as (Hs & _).
    rewrite Hs. unfold shutdownOne, hasConnection.
    change (connections st1) with (connections st).
    rewrite bool_decide_eq_true_2 by exact Hin. rewrite closeConnection_sockets.
    eexists. split; [apply (wsClose_open ws _ _ st1 sock Hsock Hopen)|reflexivity].
  - intros ws Hnot.
    pose proof (fold_frame shutdownOne shutdownOne_frame
                  (connections st) st1 ws Hnot) as (Hs & _).
    exact Hs.
Qed.

(** The heartbeat loop. *)
Lemma withMetas_frame (st : State) (w v : WebSocket) (meta : ConnectionMeta) :
  v <> w -> agree v (withMetas st (<[w := meta]> (metas st))) st.
Proof.
  intros Hne. split; [reflexivity|]. split; [|reflexivity].
  cbn [metas withMetas]. rewrite lookup_insert_ne by congruence. reflexivity.
Qed.

Lemma heartbeatOne_frame (st : State) (w v : WebSocket) :
  v <> w -> agree v (heartbeatOne st w) st.
Proof.
  intros Hne. unfold heartbeatOne.
  destruct (getConnection w st) as [meta|]; [|apply agree_refl].
  destruct (negb (isAlive meta)); [apply closeConnection_frame; exact Hne|].
  set (st1 := withMetas st _).
  assert (H1 : agree v st1 st) by (apply withMetas_frame; exact Hne).
  destruct (sockets st1 !! w) as [sock|];
    [|eapply agree_trans; [apply closeConnection_frame; exact Hne|exact H1]].
  destruct (pingThrows sock);
    [eapply agree_trans; [apply closeConnection_frame; exact Hne|exact H1]|].
  eapply agree_trans; [|exact H1]. split; [|split].
  - cbn [sockets withMetas withTimers withSockets].
    rewrite lookup_insert_ne by congruence. reflexivity.
  - cbn [metas withMetas withTimers withSockets].
    rewrite lookup_insert_ne by congruence. reflexivity.
  - reflexivity.
Qed.

Lemma heartbeatOne_cong (s1 s2 : State) (ws : WebSocket) :
  agree ws s1 s2 -> agree ws (heartbeatOne s1 ws) (heartbeatOne s2 ws).
Proof.
  intros Ha. pose proof (getConnection_view ws s1 s2 Ha) as Hg.
  destruct Ha as (Hs & Hm & Hc). unfold heartbeatOne.
  destruct (getConnection ws s1) as [m1|], (getConnection ws s2) as [m2|];
    cbn in Hg; try discriminate; [|repeat split; try assumption; apply Hc].
  assert (Hv : view m1 = view m2) by congruence.
  apply view_fields in Hv as (V1 & V2 & V3 & V4 & V5 & V6 & V7).
  rewrite V7. destruct (isAlive m2); cbn [negb];
    [|apply closeConnection_cong; assumption].
  set (n1 := mkMeta (id m1) _ _ _ _ _ false).
  set (n2 := mkMeta (id m2) _ _ _ _ _ false).
  assert (Hn : view n1 = view n2).
  { unfold view, hasTimer, n1, n2.
    cbn [id connectedAt lastActivity messageCount messageWindowStart pingTimeout isAlive].
    unfold hasTimer in V6. rewrite V1, V2, V3, V4, V5.
    destruct (pingTimeout m1), (pingTimeout m2); try discriminate; reflexivity. }
  set (t1 := withMetas s1 _). set (t2 := withMetas s2 _).
  assert (Hm' : (view <$> metas t1 !! ws) = (view <$> metas t2 !! ws)).
  { unfold t1, t2. cbn [metas withMetas]. rewrite !lookup_insert_eq. cbn. congruence. }
  change (sockets t1) with (sockets s1). change (sockets t2) with (sockets s2).
  assert (Hs' : sockets t1 !! ws = sockets t2 !! ws) by exact Hs.
  rewrite <- Hs. destruct (sockets s1 !! ws) as [sock|] eqn:E;
    [|apply closeConnection_cong; [exact Hs'|exact Hm']].
  destruct (pingThrows sock); [apply closeConnection_cong; [exact Hs'|exact Hm']|].
  split; [|split].
  - cbn [sockets withMetas withTimers withSockets]. rewrite !lookup_insert_eq. reflexivity.
  - cbn [metas withMetas withTimers withSockets]. rewrite !lookup_insert_eq. cbn.
    unfold view, hasTimer.
    cbn [id connectedAt lastActivity messageCount messageWindowStart pingTimeout isAlive].
    congruence.
  - exact Hc.
Qed.

Lemma heartbeatTick_own (st : State) (ws : WebSocket) :
  base.NoDup (connections st) -> ws ∈ connections st ->
  agree ws (heartbeatTick st) (heartbeatOne st ws).
Proof.
  intros Hnd Hin.
  exact (fold_own heartbeatOne heartbeatOne_frame heartbeatOne_cong
           (connections st) st ws Hnd Hin).
Qed.

(** The iteration of a connection that is alive and whose ping goes out. *)
Lemma heartbeatOne_alive (st : State) (ws : WebSocket) (meta : ConnectionMeta)
  (sock : Socket) :
  ws ∈ connections st -> metas st !! ws = Some meta -> sockets st !! ws = Some sock ->
  isAlive meta = true -> pingThrows sock = false ->
  connections (heartbeatOne st ws) = connections st
  /\ sockets (heartbeatOne st ws) !! ws
     = Some (mkSocket (closedWith sock) (S (pings sock)) false)
  /\ metas (heartbeatOne st ws) !! ws
     = Some (mkMeta (id meta) (connectedAt meta) (lastActivity meta)
                    (messageCount meta) (messageWindowStart meta)
                    (Some (nextTimeout st)) false)
  /\ timers (heartbeatOne st ws) !! nextTimeout st = Some ws.
Proof.
  intros Hin Hm Hs Ha Hp. unfold heartbeatOne.
  rewrite (getConnection_registered ws st Hin), Hm, Ha. cbn [negb].
  cbn [sockets withMetas]. rewrite Hs, Hp.
  cbn [connections sockets metas timers withMetas withTimers withSockets nextTimeout].
  rewrite !lookup_insert_eq. repeat split; reflexivity.
Qed.

(** One heartbeat tick, connection by connection: a connection still
    flagged not-alive from the previous tick is unregistered and its
    open socket closed with (1001, 'Ping timeout'); one whose ping
    throws is unregistered and closed with (1011, 'Ping failed'); any
    other stays registered, is flagged not-alive, gets one more ping and
    holds a pong timer, while its activity time and message counters are
    left as they were. *)
Theorem heartbeat_tick_probes_or_closes (st : State) (ws : WebSocket)
  (meta : ConnectionMeta) (sock : Socket) :
  base.NoDup (connections st) ->
  ws ∈ connections st ->
  metas st !! ws = Some meta ->
  sockets st !! ws = Some sock ->
  (isAlive meta = false ->
   (ws ∉ connections (heartbeatTick st))
   /\ (closedWith sock = None ->
       exists sock', sockets (heartbeatTick st) !! ws = Some sock'
                     /\ closedWith sock' = Some (1001, "Ping timeout")))
  /\ (isAlive meta = true -> pingThrows sock = true ->
      (ws ∉ connections (heartbeatTick st))
      /\ (closedWith sock = None ->
          exists sock', sockets (heartbeatTick st) !! ws = Some sock'
                        /\ closedWith sock' = Some (1011, "Ping failed")))
  /\ (isAlive meta = true -> pingThrows sock = false ->
      (ws ∈ connections (heartbeatTick st))
      /\ sockets (heartbeatTick st) !! ws
         = Some (mkSocket (closedWith sock) (S (pings sock)) false)
      /\ exists meta' t,
           metas (heartbeatTick st) !! ws = Some meta'
           /\ isAlive meta' = false
           /\ pingTimeout meta' = Some t
           /\ lastActivity meta' = lastActivity meta
           /\ messageCount meta' = messageCount meta
           /\ messageWindowStart meta' = messageWindowStart meta).
Proof.
  intros Hnd Hin Hm Hs.
  destruct (heartbeatTick_own st ws Hnd Hin) as (Ks & Km & Kc).
  split; [|split].
  - intros Ha. unfold heartbeatOne in Ks, Kc.
    rewrite (getConnection_registered ws st Hin), Hm, Ha in Ks, Kc. cbn [negb] in Ks, Kc.
    split.
    + intros H. apply Kc in H. exact (closeConnection_unregisters _ _ _ _ H).
    + intros Ho. rewrite Ks, closeConnection_sockets.
      eexists. split; [apply (wsClose_open ws _ _ st sock Hs Ho)|reflexivity].
  - intros Ha Hp. unfold heartbeatOne in Ks, Kc.
    rewrite (getConnection_registered ws st Hin), Hm, Ha in Ks, Kc. cbn [negb] in Ks, Kc.
    cbn [sockets withMetas] in Ks, Kc. rewrite Hs, Hp in Ks, Kc.
    split.
    + intros H. apply Kc in H. exact (closeConnection_unregisters _ _ _ _ H).
    + intros Ho. rewrite Ks, closeConnection_sockets.
      eexists. split.
      { apply (wsClose_open ws _ _ (withMetas st _) sock); [exact Hs|exact Ho]. }
      reflexivity.
  - intros Ha Hp.
    destruct (heartbeatOne_alive st ws meta sock Hin Hm Hs Ha Hp) as (O1 & O2 & O3 & _).
    split; [apply Kc; rewrite O1; exact Hin|]. split; [congruence|].
    rewrite O3 in Km. cbn in Km.
    apply fmap_Some in Km as (meta' & Hm' & Hv).
    apply view_fields in Hv as (_ & _ & V3 & V4 & V5 & V6 & V7).
    cbn [lastActivity messageCount messageWindowStart isAlive] in V3, V4, V5, V7.
    unfold hasTimer in V6. cbn [pingTimeout] in V6.
    destruct (pingTimeout meta') as [t|] eqn:Et; [|discriminate].
    exists meta', t. repeat split; congruence.
Qed.

(** *** Probes and their answers *)

(** The ['pong'] listener flags the connection alive, refreshes its
    activity time and forgets its pong timer, which it disarms: if that
    timer is asked to fire afterwards, nothing happens.  A pong is not a
    message: the rate counters, the sockets, the registry and the
    streams are left as they were. *)
Theorem pong_revives_and_disarms (ws : WebSocket) (now : Z) (st : State)
  (meta : ConnectionMeta) :
  metas st !! ws = Some meta ->
  exists st',
    onPong ws now st = Returned st'
    /\ metas st' !! ws
       = Some (mkMeta (id meta) (connectedAt meta) now (messageCount meta)
                      (messageWindowStart meta) None true)
    /\ sockets st' = sockets st
    /\ connections st' = connections st
    /\ controllers st' = controllers st
    /\ (forall t, pingTimeout meta = Some t ->
          timers st' !! t = None /\ pongTimeoutFires t st' = Returned st').
Proof.
  intros Hm. unfold onPong. rewrite Hm. eexists. split; [reflexivity|].
  split; [cbn [metas withMetas]; apply lookup_insert_eq|].
  split; [destruct (pingTimeout meta); reflexivity|].
  split; [destruct (pingTimeout meta); reflexivity|].
  split; [destruct (pingTimeout meta); reflexivity|].
  intros t Ht. rewrite Ht. unfold pongTimeoutFires.
  cbn [timers withMetas clearTimeout withTimers]. rewrite lookup_delete_eq.
  split; reflexivity.
Qed.

(** A pong timer that fires while its connection is still registered
    unregisters the connection and closes its open socket with
    (1001, 'Pong timeout'); the timer is gone, and every other
    connection and socket is as before. *)
Theorem unanswered_probe_closes (t : Timeout) (ws : WebSocket) (st : State) :
  timers st !! t = Some ws ->
  ws ∈ connections st ->
  exists st',
    pongTimeoutFires t st = Returned st'
    /\ (ws ∉ connections st')
    /\ timers st' !! t = None
    /\ (forall sock, sockets st !! ws = Some sock -> closedWith sock = None ->
          exists sock', sockets st' !! ws = Some sock'
                        /\ closedWith sock' = Some (1001, "Pong timeout"))
    /\ (forall w, w <> ws ->
          sockets st' !! w = sockets st !! w
          /\ (w ∈ connections st' <-> w ∈ connections st))
    /\ metas st' = metas st.
Proof.
  intros Ht Hin. unfold pongTimeoutFires, pongTimeoutCallback, hasConnection.
  rewrite Ht. cbn [connections clearTimeout withTimers].
  rewrite bool_decide_eq_true_2 by exact Hin. eexists. split; [reflexivity|].
  split; [apply closeConnection_unregisters|].
  split.
  { unfold closeConnection, wsClose, getConnection, hasConnection.
    cbn [connections clearTimeout withTimers metas].
    rewrite bool_decide_eq_true_2 by exact Hin.
    destruct (metas st !! ws) as [meta|]; [destruct (pingTimeout meta) as [t'|]|];
      cbn [sockets deleteConnection withConnections clearTimeout withTimers timers];
      (destruct (sockets st !! ws) as [sock|]; [destruct (closedWith sock)|]);
      cbn [timers withSockets withConnections withTimers];
      try apply lookup_delete_eq.
    all: change (delete t' (delete t (timers st)) !! t = None).
    all: destruct (decide (t' = t)) as [->|Hne];
      [apply lookup_delete_eq|rewrite lookup_delete_ne by congruence; apply lookup_delete_eq]. }
  split.
  { intros sock Hs Ho. rewrite closeConnection_sockets.
    eexists. split.
    { apply (wsClose_open ws _ _ (withTimers st _ _) sock); [exact Hs|exact Ho]. }
    reflexivity. }
  split.
  { intros w Hne.
    destruct (closeConnection_frame ws w 1001 "Pong timeout"
                (withTimers st (delete t (timers st)) (nextTimeout st)) Hne)
      as (F1 & _ & F3).
    split; [exact F1|exact F3]. }
  rewrite closeConnection_metas. reflexivity.
Qed.

(** A connection is healthy when it is registered, flagged alive, and
    its socket is open and accepts pings. *)
Definition healthy (ws : WebSocket) (st : State) : Prop :=
  ws ∈ connections st
  /\ exists meta sock,
       metas st !! ws = Some meta /\ isAlive meta = true
       /\ sockets st !! ws = Some sock /\ closedWith sock = None
       /\ pingThrows sock = false.

(** A healthy connection that answers the probe of a heartbeat tick with
    a pong is healthy again afterwards, with one more ping on its
    socket: the heartbeat never closes a connection that keeps
    answering. *)
Theorem answered_probe_keeps_connection (ws : WebSocket) (now : Z) (st : State) :
  base.NoDup (connections st) ->
  healthy ws st ->
  healthy ws (stateOf (onPong ws now (heartbeatTick st)))
  /\ base.NoDup (connections (stateOf (onPong ws now (heartbeatTick st))))
  /\ (forall sock, sockets st !! ws = Some sock ->
        pings <$> sockets (stateOf (onPong ws now (heartbeatTick st))) !! ws
        = Some (S (pings sock))).
Proof.
  intros Hnd (Hin & meta & sock & Hm & Ha & Hs & Ho & Hp).
  destruct (heartbeatTick_own st ws Hnd Hin) as (Ks & Km & Kc).
  destruct (heartbeatOne_alive st ws meta sock Hin Hm Hs Ha Hp) as (O1 & O2 & O3 & _).
  rewrite O3 in Km. cbn in Km.
  apply fmap_Some in Km as (meta' & Hm' & _).
  assert (Hin' : ws ∈ connections (heartbeatTick st)) by (apply Kc; rewrite O1; exact Hin).
  assert (Hs' : sockets (heartbeatTick st) !! ws
                = Some (mkSocket (closedWith sock) (S (pings sock)) false)) by congruence.
  assert (Hc : connections (stateOf (onPong ws now (heartbeatTick st)))
               = connections (heartbeatTick st)).
  { unfold onPong. rewrite Hm'. destruct (pingTimeout meta'); reflexivity. }
  assert (Hk : sockets (stateOf (onPong ws now (heartbeatTick st)))
               = sockets (heartbeatTick st)).
  { unfold onPong. rewrite Hm'. destruct (pingTimeout meta'); reflexivity. }
  split; [|split].
  - split; [rewrite Hc; exact Hin'|].
    exists (mkMeta (id meta') (connectedAt meta') now (messageCount meta')
                   (messageWindowStart meta') None true),
           (mkSocket (closedWith sock) (S (pings sock)) false).
    split.
    { unfold onPong. rewrite Hm'. cbn [stateOf metas withMetas]. apply lookup_insert_eq. }
    split; [reflexivity|]. split; [rewrite Hk; exact Hs'|]. split; [exact Ho|reflexivity].
  - rewrite Hc. eapply sublist_NoDup; [exact Hnd|].
    unfold heartbeatTick. apply fold_sublist. intros s w. apply heartbeatOne_sublist.
  - intros sock0 Hs0. rewrite Hk, Hs'. cbn. congruence.
Qed.

(** *** Admission *)

Section Admission.
Context {R : Runtime}.

(** At capacity a new socket is closed at once with
    (1013, 'Server overloaded'): it is not registered, gets no meta
    object and no stream, every other socket is as before, and a frame
    that arrives on it later does nothing.  Under capacity a new socket
    is appended to the registry with a fresh meta object (empty rate
    window, flagged alive, no pong timer), an open socket and an empty
    readable stream. *)
Theorem admission_at_and_under_capacity (ws : WebSocket) (connId : string) (now : Z)
  (st : State) :
  (MAX_CONNECTIONS <= Z.of_nat (length (connections st)) ->
   exists st',
     onConnection ws connId now st = Returned st'
     /\ connections st' = connections st
     /\ metas st' = metas st
     /\ controllers st' = controllers st
     /\ timers st' = timers st
     /\ sockets st' !! ws = Some (mkSocket (Some (1013, "Server overloaded")) 0 false)
     /\ (forall w, w <> ws -> sockets st' !! w = sockets st !! w)
     /\ (metas st !! ws = None ->
         forall t data, onMessage ws t data st' = Returned st'))
  /\ (Z.of_nat (length (connections st)) < MAX_CONNECTIONS ->
      ws ∉ connections st ->
      exists st',
        onConnection ws connId now st = Returned st'
        /\ connections st' = connections st ++ [ws]
        /\ metas st' !! ws = Some (mkMeta connId now now 0 now None true)
        /\ sockets st' !! ws = Some (mkSocket None 0 false)
        /\ controllers st' !! ws = Some (mkController [] Readable)
        /\ (forall w, w <> ws ->
              sockets st' !! w = sockets st !! w /\ metas st' !! w = metas st !! w
              /\ controllers st' !! w = controllers st !! w)).
Proof.
  split.
  - intros Hfull. unfold onConnection. cbv zeta.
    change (connections (withSockets st _)) with (connections st).
    apply Z.leb_le in Hfull. rewrite Hfull. eexists. split; [reflexivity|].
    unfold wsClose. cbn [sockets withSockets]. rewrite lookup_insert_eq.
    cbn [closedWith pings pingThrows sockets withSockets connections metas controllers
         timers].
    split; [reflexivity|]. split; [reflexivity|]. split; [reflexivity|].
    split; [reflexivity|]. split; [apply lookup_insert_eq|].
    split.
    + intros w Hne. rewrite !lookup_insert_ne by congruence. reflexivity.
    + intros Hnone t data. unfold onMessage. cbn [metas withSockets]. rewrite Hnone. reflexivity.
  - intros Hroom Hnew. unfold onConnection. cbv zeta.
    change (connections (withSockets st _)) with (connections st).
    apply Z.leb_gt in Hroom. rewrite Hroom. eexists. split; [reflexivity|].
    unfold setConnection, hasConnection. cbn [connections withMetas withSockets].
    rewrite bool_decide_eq_false_2 by exact Hnew.
    cbn [connections metas sockets controllers withControllers withConnections
         withMetas withSockets].
    rewrite !lookup_insert_eq. repeat split; try reflexivity.
    all: rewrite lookup_insert_ne by congruence; reflexivity.
Qed.

End Admission.

(** *** The inbound stream *)

Section Inbound.
Context {R : Runtime}.

Lemma onMessage_step (ws : WebSocket) (now : Z) (data : string) (st : State)
  (meta : ConnectionMeta) (c : Controller) :
  metas st !! ws = Some meta ->
  controllers st !! ws = Some c ->
  now - messageWindowStart meta <= RATE_LIMIT_WINDOW_MS ->
  exists meta' c',
    metas (stateOf (onMessage ws now data st)) !! ws = Some meta'
    /\ messageWindowStart meta' = messageWindowStart meta
    /\ messageCount meta' = messageCount meta + 1
    /\ controllers (stateOf (onMessage ws now data st)) !! ws = Some c'
    /\ (queue c' = queue c
        \/ (messageCount meta + 1 <= RATE_LIMIT_MESSAGES
            /\ exists msg, queue c' = queue c ++ [msg])).
Proof.
  intros Hm Hc Hwin. rewrite (onMessage_unfold ws now data st meta Hm).
  rewrite (isRateLimited_count (touch meta now) now Hwin).
  cbn [fst snd touch messageCount messageWindowStart id connectedAt lastActivity
       pingTimeout isAlive]. cbv zeta.
  set (meta2 := mkMeta _ _ _ _ _ _ _). set (st1 := withMetas st _).
  exists meta2.
  assert (Hm1 : metas st1 !! ws = Some meta2) by apply lookup_insert_eq.
  destruct (RATE_LIMIT_MESSAGES <? messageCount meta + 1) eqn:E.
  - destruct (controllerClose_queue ws (closeConnection ws 1008 "Rate limit exceeded" st1) c)
      as (c' & Hc' & Hq).
    { rewrite closeConnection_controllers. exact Hc. }
    exists c'. rewrite controllerClose_metas, closeConnection_metas.
    repeat split; auto.
  - apply Z.ltb_ge in E.
    destruct (JSON_parse data) as [msg|]; [destruct (isControl msg)|]; cbn [stateOf].
    + exists c. repeat split; auto.
    + rewrite tryEnqueue_metas. unfold tryEnqueue.
      change (controllers st1) with (controllers st). rewrite Hc.
      destruct (streamState c).
      * eexists. split; [exact Hm1|]. split; [reflexivity|]. split; [reflexivity|].
        cbn [controllers withControllers].
        split; [apply lookup_insert_eq|]. right. split; [exact E|].
        exists msg. reflexivity.
      * exists c. repeat split; auto.
      * exists c. repeat split; auto.
    + exists c. repeat split; auto.
Qed.

(** However many frames arrive inside one rate window, and whatever
    they contain, the bridge's inbound stream receives at most as many
    messages as the window has room left: at most
    [RATE_LIMIT_MESSAGES] from the start of a window. *)
Theorem at_most_limit_enqueued_per_window (ws : WebSocket) (frames : list (Z * string))
  (st : State) (meta : ConnectionMeta) (c : Controller) :
  metas st !! ws = Some meta ->
  controllers st !! ws = Some c ->
  (forall f, In f frames -> fst f - messageWindowStart meta <= RATE_LIMIT_WINDOW_MS) ->
  exists c' extra,
    controllers (deliver ws frames st) !! ws = Some c'
    /\ queue c' = queue c ++ extra
    /\ Z.of_nat (length extra) <= Z.max 0 (RATE_LIMIT_MESSAGES - messageCount meta).
Proof.
  revert st meta c.
  induction frames as [|[now data] frames IH]; intros st meta c Hm Hc Hwin.
  - exists c, []. cbn [deliver fold_left]. split; [exact Hc|].
    split; [rewrite app_nil_r; reflexivity|]. cbn [length]. lia.
  - assert (Hnow : now - messageWindowStart meta <= RATE_LIMIT_WINDOW_MS)
      by (apply (Hwin (now, data)); left; reflexivity).
    destruct (onMessage_step ws now data st meta c Hm Hc Hnow)
      as (meta' & c1 & Hm' & Hw' & Hn' & Hc1 & Hq).
    destruct (IH (stateOf (onMessage ws now data st)) meta' c1 Hm' Hc1)
      as (c' & extra & Hc' & Hq' & Hlen).
    { intros f Hf. rewrite Hw'. apply Hwin. right. exact Hf. }
    change (deliver ws ((now, data) :: frames) st)
      with (deliver ws frames (stateOf (onMessage ws now data st))).
    destruct Hq as [Hq|(Hlim & msg & Hq)].
    + exists c', extra. split; [exact Hc'|]. split; [congruence|]. lia.
    + exists c', (msg :: extra). split; [exact Hc'|].
      split; [rewrite Hq', Hq, <- app_assoc; reflexivity|].
      cbn [length]. lia.
Qed.

(** A frame that is not JSON, on a connection under its rate limit, is
    dropped without a trace in the streams, the sockets and the
    registry, and the listener returns normally; but it refreshes the
    activity time and takes one place in the rate window. *)
Theorem malformed_frame_is_dropped_but_counted (ws : WebSocket) (now : Z)
  (data : string) (st : State) (meta : ConnectionMeta) :
  metas st !! ws = Some meta ->
  JSON_parse data = None ->
  now - messageWindowStart meta <= RATE_LIMIT_WINDOW_MS ->
  messageCount meta + 1 <= RATE_LIMIT_MESSAGES ->
  exists st',
    onMessage ws now data st = Returned st'
    /\ controllers st' = controllers st
    /\ sockets st' = sockets st
    /\ connections st' = connections st
    /\ metas st' !! ws
       = Some (mkMeta (id meta) (connectedAt meta) now (messageCount meta + 1)
                      (messageWindowStart meta) (pingTimeout meta) (isAlive meta)).
Proof.
  intros Hm Hp Hwin Hlim. rewrite (onMessage_unfold ws now data st meta Hm).
  rewrite (isRateLimited_count (touch meta now) now Hwin).
  cbn [fst snd touch messageCount messageWindowStart id connectedAt lastActivity
       pingTimeout isAlive].
  apply Z.ltb_ge in Hlim. rewrite Hlim, Hp. cbv zeta.
  eexists. split; [reflexivity|]. repeat split. apply lookup_insert_eq.
Qed.

(** The ['close'] listener unregisters the connection in every case.  On
    a readable stream it then closes the stream, keeping what was
    queued, and returns.  On a stream that is no longer readable the
    call to close it throws out of the listener; that is the state a
    rate-limit closure leaves behind, so the ['close'] event that
    follows such a closure ends in an exception. *)
Theorem close_listener_throws_after_rate_limit (ws : WebSocket) (st : State)
  (c : Controller) :
  controllers st !! ws = Some c ->
  (streamState c = Readable ->
   exists st',
     onClose ws st = Returned st'
     /\ (ws ∉ connections st')
     /\ controllers st' !! ws = Some (mkController (queue c) Closed)
     /\ sockets st' = sockets st)
  /\ (streamState c <> Readable ->
      exists st', onClose ws st = Threw st' /\ (ws ∉ connections st'))
  /\ (forall meta now data,
        metas st !! ws = Some meta ->
        now - messageWindowStart meta <= RATE_LIMIT_WINDOW_MS ->
        RATE_LIMIT_MESSAGES < messageCount meta + 1 ->
        exists st', onClose ws (stateOf (onMessage ws now data st)) = Threw st').
Proof.
  intros Hc.
  assert (Hcl : forall s, controllers (cleanupConnection ws s) = controllers s).
  { intros s. unfold cleanupConnection.
    destruct (getConnection ws s) as [m|]; [destruct (pingTimeout m)|]; reflexivity. }
  assert (Hso : forall s, sockets (cleanupConnection ws s) = sockets s).
  { intros s. unfold cleanupConnection.
    destruct (getConnection ws s) as [m|]; [destruct (pingTimeout m)|]; reflexivity. }
  assert (Hun : forall s, ws ∉ connections (cleanupConnection ws s)).
  { intros s. rewrite cleanupConnection_connections. intros H.
    apply list_elem_of_filter in H as [H _]. congruence. }
  assert (Hthrow : forall s c0, controllers s !! ws = Some c0 -> streamState c0 <> Readable ->
                     onClose ws s = Threw (cleanupConnection ws s)).
  { intros s c0 H0 Hr. unfold onClose, controllerClose. rewrite Hcl, H0.
    destruct (streamState c0); [destruct (Hr eq_refl)|reflexivity|reflexivity]. }
  split; [|split].
  - intros Hr. unfold onClose, controllerClose. rewrite Hcl, Hc, Hr.
    eexists. split; [reflexivity|]. cbn [connections sockets controllers withControllers].
    split; [apply Hun|]. split; [apply lookup_insert_eq|apply Hso].
  - intros Hr. exists (cleanupConnection ws st). split; [|apply Hun].
    exact (Hthrow st c Hc Hr).
  - intros meta now data Hm Hwin Hlim.
    rewrite (onMessage_unfold ws now data st meta Hm).
    rewrite (isRateLimited_count (touch meta now) now Hwin).
    cbn [fst snd touch messageCount]. apply Z.ltb_lt in Hlim. rewrite Hlim. cbv zeta.
    set (st1 := closeConnection ws 1008 "Rate limit exceeded" _).
    assert (Hc1 : controllers st1 !! ws = Some c).
    { unfold st1. rewrite closeConnection_controllers. exact Hc. }
    unfold controllerClose at 1. rewrite Hc1.
    destruct (streamState c) eqn:Es; cbn [stateOf].
    + eexists. eapply Hthrow.
      * cbn [controllers withControllers]. apply lookup_insert_eq.
      * discriminate.
    + eexists. apply (Hthrow st1 c Hc1). rewrite Es. discriminate.
    + eexists. apply (Hthrow st1 c Hc1). rewrite Es. discriminate.
Qed.

End Inbound.

(** *** The health endpoint *)

Record Request : Type := mkRequest {
  url : option string;
  method : option string
}.

(** The object the handler serialises; [connectionCount] is its
    [connections] member. *)
Record Health : Type := mkHealth {
  status : string;
  connectionCount : Z;
  maxConnections : Z;
  uptime : Z;
  timestamp : string
}.

(** What [res.end] is given: [JSON.stringify] of a health object, or a
    plain text. *)
Inductive Body : Type :=
| JsonBody (h : Health)
| TextBody (s : string).

Record Response : Type := mkResponse {
  statusCode : Z;
  headers : list (string * string);
  body : Body
}.

Definition strictEquals (v : option string) (s : string) : bool :=
  match v with
  | Some x => String.eqb x s
  | None => false
  end.

Section HealthHandler.
Context {R : Runtime}.

(** The listener returned by [createHealthHandler()], run at time [now]
    in a process whose module was loaded at [serverStartTime]. *)
Definition createHealthHandler (serverStartTime now : Z) (req : Request) (st : State)
  : Response :=
  if strictEquals (url req) "/health" && strictEquals (method req) "GET" then
    let health :=
      mkHealth "healthy" (Z.of_nat (length (connections st))) MAX_CONNECTIONS
               ((now - serverStartTime) / 1000) (Date_toISOString now) in
    mkResponse 200 [("Content-Type", "application/json")] (JsonBody health)
  else mkResponse 404 [] (TextBody "Not found").

(** After any history of events, [GET /health] answers 200 with a JSON
    body whose connection count is the size of the registry and never
    exceeds the advertised maximum of 10, and whose uptime is the whole
    number of seconds since the module was loaded; any other path or
    method answers 404 with the text 'Not found'. *)
Theorem health_reports_bounded_registry (events : list (Z * Event))
  (serverStartTime now : Z) (req : Request) :
  serverStartTime <= now ->
  (url req = Some "/health" -> method req = Some "GET" ->
   exists h,
     createHealthHandler serverStartTime now req (run events initialState)
     = mkResponse 200 [("Content-Type", "application/json")] (JsonBody h)
     /\ status h = "healthy"
     /\ connectionCount h = Z.of_nat (length (connections (run events initialState)))
     /\ 0 <= connectionCount h <= maxConnections h
     /\ maxConnections h = 10
     /\ 0 <= uptime h
     /\ uptime h * 1000 <= now - serverStartTime < (uptime h + 1) * 1000
     /\ timestamp h = Date_toISOString now)
  /\ ((url req <> Some "/health" \/ method req <> Some "GET") ->
      createHealthHandler serverStartTime now req (run events initialState)
      = mkResponse 404 [] (TextBody "Not found")).
Proof.
  intros Hstart. split.
  - intros Hu Hmeth. unfold createHealthHandler. rewrite Hu, Hmeth.
    cbn [strictEquals]. rewrite !String.eqb_refl. cbn [andb].
    eexists. split; [reflexivity|].
    cbn [status connectionCount maxConnections uptime timestamp].
    assert (Hb : Z.of_nat (length (connections (run events initialState)))
                 <= MAX_CONNECTIONS).
    { apply run_keeps_bound. cbn [connections initialState length].
      split; [apply NoDup_nil_2|unfold MAX_CONNECTIONS; lia]. }
    split; [reflexivity|]. split; [reflexivity|].
    split; [split; [lia|exact Hb]|]. split; [reflexivity|].
    split; [apply Z.div_pos; lia|]. split; [|reflexivity].
    pose proof (Z.div_mod (now - serverStartTime) 1000 ltac:(lia)) as Hd.
    pose proof (Z.mod_pos_bound (now - serverStartTime) 1000 ltac:(lia)) as Hr.
    lia.
  - intros Hne. unfold createHealthHandler.
    destruct (url req) as [u|]; cbn [strictEquals andb]; [|reflexivity].
    destruct (String.eqb u "/health") eqn:Eu; cbn [andb]; [|reflexivity].
    apply String.eqb_eq in Eu. subst u.
    destruct (method req) as [m|]; cbn [strictEquals]; [|reflexivity].
    destruct (String.eqb m "GET") eqn:Em; [|reflexivity].
    apply String.eqb_eq in Em. subst m. destruct Hne as [H|H]; destruct (H eq_refl).
Qed.

End HealthHandler.

(** *** Concrete runs *)

#[local] Existing Instance Node.runtime.

Lemma connected_nodup : base.NoDup (connections connected).
Proof. apply (bool_decide_unpack _). vm_compute. exact I. Defined.

Lemma connected_registered : ws1 ∈ connections connected.
Proof. apply (bool_decide_unpack _). vm_compute. exact I. Defined.

Lemma connected_socket : sockets connected !! ws1 = Some (mkSocket None 0 false).
Proof. vm_compute. reflexivity. Defined.

Lemma connected_meta0 : metas connected !! ws1 = Some meta0.
Proof. vm_compute. reflexivity. Defined.

(** 400 seconds after its last activity the connection is evicted. *)
Lemma idle_check_evicts_exactly_the_idle_witness :
  ws1 ∉ connections (idleCheckTick 400000 connected).
Proof.
  refine (proj1 (proj2 (proj2 (idle_check_evicts_exactly_the_idle
                                 400000 connected ws1 meta0
                                 connected_nodup connected_registered connected_meta0))
                  _)).
  vm_compute. reflexivity.
Defined.

Example idle_check_spares_recent_activity :
  connections (idleCheckTick 300000 connected) = [ws1]
  /\ connections (idleCheckTick 300001 connected) = [].
Proof. split; vm_compute; reflexivity. Qed.

Lemma full_nodup : base.NoDup (connections full).
Proof. apply (bool_decide_unpack _). vm_compute. exact I. Defined.

Lemma shutdown_closes_every_connection_witness :
  connections (gracefulShutdown full) = [].
Proof. exact (proj1 (shutdown_closes_every_connection full full_nodup)). Defined.

Example shutdown_of_a_full_server :
  Forall (fun w => (closedWith <$> sockets (gracefulShutdown full) !! w)
                   = Some (Some (1001, "Server shutting down")))
         (seq 1 10).
Proof. repeat constructor. Qed.

Lemma heartbeat_tick_probes_or_closes_witness :
  ws1 ∈ connections (heartbeatTick connected).
Proof.
  exact (proj1 (proj2 (proj2 (heartbeat_tick_probes_or_closes
                                connected ws1 meta0 (mkSocket None 0 false)
                                connected_nodup connected_registered
                                connected_meta0 connected_socket))
                  eq_refl eq_refl)).
Defined.

(** The meta object of the connection after its first probe. *)
Definition metaProbed : ConnectionMeta := mkMeta "conn_1" 0 0 0 0 (Some O) false.

Lemma probed_meta : metas probed !! ws1 = Some metaProbed.
Proof. vm_compute. reflexivity. Defined.

Lemma pong_revives_and_disarms_witness :
  exists st',
    onPong ws1 5000 probed = Returned st'
    /\ metas st' !! ws1 = Some (mkMeta "conn_1" 0 5000 0 0 None true)
    /\ pongTimeoutFires O st' = Returned st'.
Proof.
  destruct (pong_revives_and_disarms ws1 5000 probed metaProbed probed_meta)
    as (st' & H1 & H2 & _ & _ & _ & H6).
  exists st'. split; [exact H1|]. split; [exact H2|].
  exact (proj2 (H6 O eq_refl)).
Defined.

Lemma probed_timer : timers probed !! O = Some ws1.
Proof. vm_compute. reflexivity. Defined.

Lemma probed_registered : ws1 ∈ connections probed.
Proof. apply (bool_decide_unpack _). vm_compute. exact I. Defined.

Lemma unanswered_probe_closes_witness :
  exists st', pongTimeoutFires O probed = Returned st' /\ (ws1 ∉ connections st').
Proof.
  destruct (unanswered_probe_closes O ws1 probed probed_timer probed_registered)
    as (st' & H1 & H2 & _).
  exists st'. split; [exact H1|exact H2].
Defined.

Lemma connected_healthy : healthy ws1 connected.
Proof.
  split; [exact connected_registered|].
  exists meta0, (mkSocket None 0 false).
  split; [exact connected_meta0|]. split; [reflexivity|].
  split; [exact connected_socket|]. split; reflexivity.
Defined.

Lemma answered_probe_keeps_connection_witness :
  healthy ws1 (stateOf (onPong ws1 5000 (heartbeatTick connected))).
Proof.
  exact (proj1 (answered_probe_keeps_connection ws1 5000 connected
                  connected_nodup connected_healthy)).
Defined.

(** Three rounds of probe and answer, then one probe left unanswered. *)
Example heartbeat_rounds :
  let round := fun st => stateOf (onPong ws1 5000 (heartbeatTick st)) in
  (pings <$> sockets (round (round (round connected))) !! ws1) = Some 3%nat
  /\ connections (round (round (round connected))) = [ws1]
  /\ connections (heartbeatTick (heartbeatTick connected)) = [].
Proof. repeat split; vm_compute; reflexivity. Qed.

Lemma busy_meta : metas busy !! ws1 = Some meta100.
Proof. vm_compute. reflexivity. Defined.

Lemma busy_controller : controllers busy !! ws1 = Some (mkController [] Readable).
Proof. vm_compute. reflexivity. Defined.

(** After 100 messages in the window nothing more gets through. *)
Lemma at_most_limit_enqueued_per_window_witness :
  exists c' extra,
    controllers (deliver ws1 [(2000, promptFrame); (3000, promptFrame)] busy) !! ws1
    = Some c'
    /\ queue c' = [] ++ extra
    /\ Z.of_nat (length extra) <= 0.
Proof.
  refine (at_most_limit_enqueued_per_window ws1 [(2000, promptFrame); (3000, promptFrame)]
            busy meta100 (mkController [] Readable) busy_meta busy_controller _).
  intros f [<-|[<-|[]]]; vm_compute; discriminate.
Defined.

Example first_hundred_messages_get_through :
  let frames := map (fun n => (Z.of_nat n, promptFrame)) (seq 1 105) in
  (length ∘ queue <$> controllers (deliver ws1 frames connected) !! ws1) = Some 100%nat.
Proof. vm_compute. reflexivity. Qed.

Definition garbledFrame : string := "not json".

Lemma malformed_frame_is_dropped_but_counted_witness :
  exists st',
    onMessage ws1 1000 garbledFrame connected = Returned st'
    /\ controllers st' = controllers connected
    /\ sockets st' = sockets connected
    /\ connections st' = connections connected
    /\ metas st' !! ws1 = Some (mkMeta "conn_1" 0 1000 1 0 None true).
Proof.
  refine (malformed_frame_is_dropped_but_counted ws1 1000 garbledFrame connected meta0
            connected_meta0 _ _ _).
  - vm_compute. reflexivity.
  - vm_compute. discriminate.
  - vm_compute. discriminate.
Defined.

Lemma close_listener_throws_after_rate_limit_witness :
  exists st', onClose ws1 (stateOf (onMessage ws1 2000 promptFrame busy)) = Threw st'.
Proof.
  refine (proj2 (proj2 (close_listener_throws_after_rate_limit
                          ws1 busy (mkController [] Readable) busy_controller))
            meta100 2000 promptFrame busy_meta _ _).
  - vm_compute. discriminate.
  - vm_compute. reflexivity.
Defined.

Example close_listener_on_an_open_stream :
  exists st', onClose ws1 connected = Returned st' /\ connections st' = [].
Proof. eexists. split; vm_compute; reflexivity. Qed.

Definition healthRequest : Request := mkRequest (Some "/health") (Some "GET").

Lemma health_reports_bounded_registry_witness :
  exists h,
    createHealthHandler 0 61500 healthRequest
      (run [(0, Connection ws1 "conn_1")] initialState)
    = mkResponse 200 [("Content-Type", "application/json")] (JsonBody h)
    /\ status h = "healthy"
    /\ connectionCount h
       = Z.of_nat (length (connections (run [(0, Connection ws1 "conn_1")] initialState)))
    /\ 0 <= connectionCount h <= maxConnections h
    /\ maxConnections h = 10
    /\ 0 <= uptime h
    /\ uptime h * 1000 <= 61500 - 0 < (uptime h + 1) * 1000
    /\ timestamp h = Date_toISOString 61500.
Proof.
  refine (proj1 (health_reports_bounded_registry [(0, Connection ws1 "conn_1")]
                   0 61500 healthRequest _) eq_refl eq_refl).
  vm_compute. discriminate.
Defined.

Example health_after_one_connection :
  createHealthHandler 0 61500 healthRequest
    (run [(0, Connection ws1 "conn_1")] initialState)
  = mkResponse 200 [("Content-Type", "application/json")]
      (JsonBody (mkHealth "healthy" 1 10 61 "1970-01-01T00:01:01.500Z"))
  /\ createHealthHandler 0 61500 (mkRequest (Some "/health") (Some "POST")) initialState
     = mkResponse 404 [] (TextBody "Not found").
Proof. split; vm_compute; reflexivity. Qed.

(** Twelve sockets knock; ten are accepted. *)
Example twelve_sockets_ten_accepted :
  connections (run (map (fun n => (0, Connection n "conn")) (seq 1 12)) initialState)
  = seq 1 10.
Proof. vm_compute. reflexivity. Qed.

End Transport.
